(** * RSA benchmark with Montgomery accelerators: embedding of [main_1.c]

    The first part follows the layout of the C file: machine integers,
    hardware configuration, the toy key, the big-integer helpers, the
    software modular multiply, the accelerator wrapper (register protocol
    with a bounded poll), the Montgomery parameter set-up and the two
    exponentiation routines; then the global timer (first in the C
    file, after the register accesses here), the console, the benchmark
    of one key size and [main].  The second part holds the vocabulary of
    the statements, the third the proofs.

    Conventions.
    - A [u32]/[u64] value is a [Z] kept in range by [u32]/[u64]; every
      unsigned operation that can wrap has its wrap-around written out.
      An [int64_t] operation whose exact result does not fit is
      undefined in C and yields [None] ([int64]).
    - A [u32 *] argument is a [list Z]: the array the pointer designates.
      An output array is passed in (its contents before the call) and
      returned (its contents after the call); words are written one index
      at a time with [<[i:=v]>].  Where the program passes one array as
      operand and as output, the model passes it twice; every such callee
      has read its operands in full before its first write to the output.
    - Local arrays of the arithmetic routines start as zeros; these
      routines read no word of a local array that they have not written
      before.  The local arrays of [benchmark_rsa_size] are a [frame],
      their contents when the call is entered: the function prints four
      words of each, written or not.
    - [nwords] and array indices are [nat].
    - An unbounded loop takes a [fuel]: the number of times its head may
      be reached.  [None] is a run that needs more.
    - The shift [exp >> bit] is [Z.shiftr]; C defines it for
      [0 <= bit < 32] only, and the statements that depend on the bits
      keep [exp_bits] at most 32.
    - The console is a list of [line]s beside the register trace: one
      line per [xil_printf] call of [Timer_Init], [benchmark_rsa_size]
      and [main], holding the format literal as the source spells it and
      the converted arguments.
    - [main] is followed up to its idle loop; the base addresses of the
      two accelerators are parameters. *)

From Stdlib Require Import ZArith Lia Zdivisibility Zcong Zpow_facts Bool String.
From stdpp Require Import base list.

Local Open Scope Z_scope.

(** ** Machine integers *)

Definition u32 (x : Z) : Z := x mod 2 ^ 32.
Definition u64 (x : Z) : Z := x mod 2 ^ 64.

(** The result [x] of an operation on [int64_t]: [None] when it does not
    fit, which C leaves undefined. *)
Definition int64 (x : Z) : option Z :=
  if (- 2 ^ 63 <=? x) && (x <? 2 ^ 63) then Some x else None.

(** [p[i]] for an array [p]; the arrays of the program are always read
    below their capacity. *)
Definition rd (p : list Z) (i : nat) : Z := default 0 (p !! i).

(** ** Hardware configuration *)

Definition NWORDS_1024 : nat := 32.
Definition NWORDS_2048 : nat := 64.
Definition MAX_WORDS : nat := NWORDS_2048.
Definition HW_DONE_TIMEOUT : Z := 100000000.

Definition REG_A (base : Z) (i : nat) : Z := u32 (u32 (base + 0) + u32 (4 * Z.of_nat i)).
Definition REG_B (base : Z) (i : nat) : Z := u32 (u32 (base + 512) + u32 (4 * Z.of_nat i)).
Definition REG_N (base : Z) (i : nat) : Z := u32 (u32 (base + 1024) + u32 (4 * Z.of_nat i)).
Definition REG_RES (base : Z) (i : nat) : Z := u32 (u32 (base + 1536) + u32 (4 * Z.of_nat i)).
Definition REG_NPRIME (base : Z) : Z := u32 (base + 2048).
Definition REG_CONTROL (base : Z) : Z := u32 (base + 2052).
Definition REG_STATUS (base : Z) : Z := u32 (base + 2056).

(** ** Toy RSA key *)

Definition RSA_N : list Z := 3233 :: replicate (MAX_WORDS - 1) 0.
Definition RSA_E : Z := 17.
Definition RSA_E_BITS : Z := 5.
Definition RSA_D : Z := 2753.
Definition RSA_D_BITS : Z := 12.
Definition RSA_MSG : list Z := 42 :: replicate (MAX_WORDS - 1) 0.

(** ** Big-integer helpers *)

(** [for (i = i0; i < i0 + n; ++i) dst[i] = src[i];] *)
Fixpoint copy_loop (n i : nat) (dst src : list Z) : list Z :=
  match n with
  | O => dst
  | S n' => copy_loop n' (S i) (<[i := rd src i]> dst) src
  end.

Definition bigint_copy (dst src : list Z) (nwords : nat) : list Z :=
  copy_loop nwords 0 dst src.

(** [for (i = i0; i < i0 + n; ++i) dst[i] = 0U;] *)
Fixpoint zero_loop (n i : nat) (dst : list Z) : list Z :=
  match n with
  | O => dst
  | S n' => zero_loop n' (S i) (<[i := 0]> dst)
  end.

Definition bigint_set_u32 (dst : list Z) (v : Z) (nwords : nat) : list Z :=
  zero_loop (nwords - 1) 1 (<[0%nat := v]> dst).

(** [for (i = i0; i < i0 + n; ++i) if (a[i] != b[i]) return 0; return 1;] *)
Fixpoint equal_loop (n i : nat) (a b : list Z) : Z :=
  match n with
  | O => 1
  | S n' => if negb (rd a i =? rd b i) then 0 else equal_loop n' (S i) a b
  end.

Definition bigint_equal (a b : list Z) (nwords : nat) : Z :=
  equal_loop nwords 0 a b.

(** ** Software modular multiply *)

(** Inner product loop, [n] iterations left at column [j] of row [i]:
    [t = tmp[i+j] + (u64)A[i] * (u64)B[j] + carry; tmp[i+j] = (u32)t;
     carry = t >> 32;] *)
Fixpoint mul_inner (n i j : nat) (A B tmp : list Z) (carry : Z) : list Z * Z :=
  match n with
  | O => (tmp, carry)
  | S n' =>
      let t := u64 (u64 (rd tmp (i + j) + u64 (rd A i * rd B j)) + carry) in
      mul_inner n' i (S j) A B (<[(i + j)%nat := u32 t]> tmp) (Z.shiftr t 32)
  end.

(** Outer product loop, [n] rows left at row [i]; the row ends with
    [tmp[i + nwords] += carry;]. *)
Fixpoint mul_outer (n i nwords : nat) (A B tmp : list Z) : list Z :=
  match n with
  | O => tmp
  | S n' =>
      let '(tmp1, carry) := mul_inner nwords i 0 A B tmp 0 in
      let tmp2 := <[(i + nwords)%nat := u64 (rd tmp1 (i + nwords) + carry)]> tmp1 in
      mul_outer n' (S i) nwords A B tmp2
  end.

(** [for (i = i0; i < i0 + n; ++i) R[i] = (u32)tmp[i];] *)
Fixpoint low_loop (n i : nat) (R tmp : list Z) : list Z :=
  match n with
  | O => R
  | S n' => low_loop n' (S i) (<[i := u32 (rd tmp i)]> R) tmp
  end.

(** The comparison [for (i = nwords; i > 0; ) { --i; ... }] with [i] the
    value of the counter before the decrement; returns [ge]. *)
Fixpoint cmp_loop (i : nat) (R N : list Z) : Z :=
  match i with
  | O => 0
  | S i' =>
      if rd R i' >? rd N i' then 1
      else if rd R i' <? rd N i' then 0
      else cmp_loop i' R N
  end.

(** The subtraction [for (i = 0; i < nwords; ++i)] with borrow. *)
Fixpoint sub_loop (n i : nat) (R N : list Z) (borrow : Z) : list Z :=
  match n with
  | O => R
  | S n' =>
      let t := u64 (u64 (rd R i - rd N i) - borrow) in
      sub_loop n' (S i) (<[i := u32 t]> R) N (Z.land (Z.shiftr t 63) 1)
  end.

(** The unbounded [for (;;)] of the reduction.  [fuel] bounds the number
    of times the loop head is reached; [None] means the bound was hit
    before the loop left through [break]. *)
Fixpoint reduce_loop (fuel : nat) (R N : list Z) (nwords : nat) : option (list Z) :=
  match fuel with
  | O => None
  | S fuel' =>
      let ge := cmp_loop nwords R N in
      if ge =? 0 then Some R
      else reduce_loop fuel' (sub_loop nwords 0 R N 0) N nwords
  end.

(** [modmul_sw(A, B, N, R, nwords)].  [tmp] is the local array of
    [2 * MAX_WORDS] 64-bit cells.  [A] and [B] are read only by the
    product loops, which write [tmp] alone, so a call whose [R] is the
    same array as [A] or [B] is covered by passing that array twice. *)
Definition modmul_sw (fuel : nat) (A B N R : list Z) (nwords : nat) : option (list Z) :=
  let tmp := zero_loop (2 * nwords) 0 (replicate (2 * MAX_WORDS) 0) in
  let tmp := mul_outer nwords 0 nwords A B tmp in
  let R := low_loop nwords 0 R tmp in
  reduce_loop fuel R N nwords.

(** ** The accelerator seen from the program *)

(** [Xil_In32] and [Xil_Out32] reach a device outside the program.  The
    device is a state machine: a register read returns a value and the
    next state, a register write returns the next state. *)
Class Device (D : Type) := {
  reg_read : D -> Z -> Z * D;
  reg_write : D -> Z -> Z -> D
}.

(** What the program does to the outside, in program order. *)
Inductive event : Type :=
| EvOut (addr val : Z)
| EvIn (addr val : Z)
| EvTimeout (label : string) (base : Z).

Record world (D : Type) : Type := World { dev : D; trace : list event }.
Arguments World {D} _ _.
Arguments dev {D} _.
Arguments trace {D} _.

(** Computations on the world; [None] is a loop that ran out of fuel. *)
Definition M (D A : Type) : Type := world D -> option (A * world D).

#[global] Instance M_ret {D} : MRet (M D) := fun A (a : A) s => Some (a, s).
#[global] Instance M_bind {D} : MBind (M D) :=
  fun A B (f : A -> M D B) (c : M D A) s =>
    match c s with
    | Some (a, s') => f a s'
    | None => None
    end.

Section Accelerator.
Context {D : Type} `{Device D}.

Definition Xil_Out32 (addr val : Z) : M D unit :=
  fun s => Some (tt, World (reg_write (dev s) addr val) (trace s ++ [EvOut addr val])).

Definition Xil_In32 (addr : Z) : M D Z :=
  fun s =>
    let '(v, d) := reg_read (dev s) addr in
    Some (u32 v, World d (trace s ++ [EvIn addr (u32 v)])).

(** The one [xil_printf] of the wrapper: the timeout report. *)
Definition report_timeout (label : string) (base_addr : Z) : M D unit :=
  fun s => Some (tt, World (dev s) (trace s ++ [EvTimeout label base_addr])).

(** [for (i = i0; i < i0 + n; ++i) { Xil_Out32(REG_A(..), A[i]); ... }] *)
Fixpoint write_operands (n i : nat) (base_addr : Z) (A B N : list Z) : M D unit :=
  match n with
  | O => mret tt
  | S n' =>
      _ ← Xil_Out32 (REG_A base_addr i) (rd A i);
      _ ← Xil_Out32 (REG_B base_addr i) (rd B i);
      _ ← Xil_Out32 (REG_N base_addr i) (rd N i);
      write_operands n' (S i) base_addr A B N
  end.

(** [while ((Xil_In32(REG_STATUS(base_addr)) & 0x1U) == 0U)
      if (++polls > HW_DONE_TIMEOUT) { report; return 0; }]
    Returns 0 when the function returns from inside the loop and 1 when
    the loop is left.  [timeout] stands for [HW_DONE_TIMEOUT]. *)
Fixpoint poll_loop (fuel : nat) (timeout polls base_addr : Z) (label : string) : M D Z :=
  match fuel with
  | O => fun _ => None
  | S fuel' =>
      st ← Xil_In32 (REG_STATUS base_addr);
      if Z.land st 1 =? 0 then
        let polls := u32 (polls + 1) in
        if polls >? timeout then
          _ ← report_timeout label base_addr; mret 0
        else poll_loop fuel' timeout polls base_addr label
      else mret 1
  end.

(** [for (i = i0; i < i0 + n; ++i) R[i] = Xil_In32(REG_RES(base_addr, i));] *)
Fixpoint read_result (n i : nat) (base_addr : Z) (R : list Z) : M D (list Z) :=
  match n with
  | O => mret R
  | S n' =>
      v ← Xil_In32 (REG_RES base_addr i);
      read_result n' (S i) base_addr (<[i := v]> R)
  end.

(** [montgomery_mul_hw]: returns the [int] result and the contents of
    [R] after the call.  [A], [B] and [N] are read before [R] is written. *)
Definition montgomery_mul_hw (fuel : nat) (timeout : Z) (base_addr : Z) (nwords : nat)
    (A B N : list Z) (nprime : Z) (R : list Z) (label : string) : M D (Z * list Z) :=
  _ ← write_operands nwords 0 base_addr A B N;
  _ ← Xil_Out32 (REG_NPRIME base_addr) nprime;
  _ ← Xil_Out32 (REG_CONTROL base_addr) 1;
  done ← poll_loop fuel timeout 0 base_addr label;
  if done =? 0 then mret (0, R)
  else
    R' ← read_result nwords 0 base_addr R;
    mret (1, R').

(** The loop of [modexp_hw_scalar], [n] iterations left at bit [bit];
    returns [ok] with the arrays [x] and [a].  [ok = 0] is the [return 0]
    from inside the loop. *)
Fixpoint hw_exp_loop (n : nat) (fuel : nat) (timeout base_addr : Z) (bit : Z) (exp : Z)
    (N : list Z) (nprime : Z) (x a : list Z) (nwords : nat) (label : string)
    : M D (Z * list Z * list Z) :=
  match n with
  | O => mret (1, x, a)
  | S n' =>
      '(ok, x) ←
        (if negb (Z.land (Z.shiftr exp bit) 1 =? 0)
         then montgomery_mul_hw fuel timeout base_addr nwords x a N nprime x label
         else mret (1, x));
      if ok =? 0 then mret (0, x, a)
      else
        '(ok, a) ← montgomery_mul_hw fuel timeout base_addr nwords a a N nprime a label;
        if ok =? 0 then mret (0, x, a)
        else hw_exp_loop n' fuel timeout base_addr (bit + 1) exp N nprime x a nwords label
  end.

(** [modexp_hw_scalar]: returns the [int] result and the contents of
    [result] after the call.  The local arrays [one], [x] and [a] start
    as [MAX_WORDS] words. *)
Definition modexp_hw_scalar (fuel : nat) (timeout base_addr : Z) (base : list Z)
    (exp exp_bits : Z) (N : list Z) (nprime : Z) (R2 result : list Z)
    (nwords : nat) (label : string) : M D (Z * list Z) :=
  let one := replicate MAX_WORDS 0 in
  let x := replicate MAX_WORDS 0 in
  let a := replicate MAX_WORDS 0 in
  let one := bigint_set_u32 one 1 nwords in
  '(ok, x) ← montgomery_mul_hw fuel timeout base_addr nwords one R2 N nprime x label;
  if ok =? 0 then mret (0, result)
  else
    '(ok, a) ← montgomery_mul_hw fuel timeout base_addr nwords base R2 N nprime a label;
    if ok =? 0 then mret (0, result)
    else
      '(ok, x, a) ← hw_exp_loop (Z.to_nat exp_bits) fuel timeout base_addr 0 exp
                       N nprime x a nwords label;
      if ok =? 0 then mret (0, result)
      else
        '(ok, result') ← montgomery_mul_hw fuel timeout base_addr nwords x one N nprime
                           result label;
        if ok =? 0 then mret (0, result')
        else mret (1, result').

End Accelerator.

(** ** Montgomery / RSA set-up *)

(** The [while (new_r != 0)] of [modinv32] on [int64_t] variables;
    returns the final [t].  [None] is an overflow or a loop that ran out
    of fuel. *)
Fixpoint modinv32_loop (fuel : nat) (t new_t r new_r : Z) : option Z :=
  match fuel with
  | O => None
  | S fuel' =>
      if new_r =? 0 then Some t
      else
        q ← int64 (Z.quot r new_r);
        let tmp := new_t in
        p ← int64 (q * new_t);
        new_t ← int64 (t - p);
        let t := tmp in
        let tmp := new_r in
        p ← int64 (q * new_r);
        new_r ← int64 (r - p);
        let r := tmp in
        modinv32_loop fuel' t new_t r new_r
  end.

(** [modinv32].  The loop is run with a bound of 80 passes, which it
    never reaches on a 32-bit argument ([modinv32_total] below). *)
Definition modinv32 (n : Z) : option Z :=
  r ← int64 (u64 (Z.shiftl 1 32));
  t ← modinv32_loop 80 0 1 r n;
  t ← (if t <? 0 then p ← int64 (Z.shiftl 1 32); int64 (t + p) else Some t);
  Some (u32 t).

(** [for (i = 0; i < total_bits; ++i) r = (r * 2ULL) % (u64)n0;] *)
Fixpoint double_loop (n : nat) (r n0 : Z) : Z :=
  match n with
  | O => r
  | S n' => double_loop n' (u64 (r * 2) mod n0) n0
  end.

Definition compute_R2_modN_32 (n0 : Z) (nwords : nat) : Z :=
  let r := 1 in
  let total_bits := u32 (32 * Z.of_nat nwords) in
  let r := double_loop (Z.to_nat total_bits) r n0 in
  let r := u64 (r * r) mod n0 in
  u32 r.

(** [init_mont_params_for_size]: returns the contents of [R2_out] after
    the call and the value stored through [nprime_out]. *)
Definition init_mont_params_for_size (nwords : nat) (R2_out : list Z) : option (list Z * Z) :=
  let n0 := rd RSA_N 0 in
  match modinv32 n0 with
  | None => None
  | Some inv =>
      let nprime := u32 (0 - inv) in
      let r2 := compute_R2_modN_32 n0 nwords in
      let R2_out := zero_loop nwords 0 R2_out in
      let R2_out := <[0%nat := r2]> R2_out in
      Some (R2_out, nprime)
  end.

(** ** Software exponentiation *)

(** The loop of [modexp_sw_scalar], [n] iterations left at bit [bit]. *)
Fixpoint sw_exp_loop (n : nat) (fuel : nat) (bit : Z) (exp : Z) (N x a : list Z)
    (nwords : nat) : option (list Z * list Z) :=
  match n with
  | O => Some (x, a)
  | S n' =>
      match (if negb (Z.land (Z.shiftr exp bit) 1 =? 0)
             then modmul_sw fuel x a N x nwords else Some x) with
      | None => None
      | Some x =>
          match modmul_sw fuel a a N a nwords with
          | None => None
          | Some a => sw_exp_loop n' fuel (bit + 1) exp N x a nwords
          end
      end
  end.

Definition modexp_sw_scalar (fuel : nat) (base : list Z) (exp exp_bits : Z)
    (N result : list Z) (nwords : nat) : option (list Z) :=
  let one := replicate MAX_WORDS 0 in
  let x := replicate MAX_WORDS 0 in
  let a := replicate MAX_WORDS 0 in
  let one := bigint_set_u32 one 1 nwords in
  let x := bigint_set_u32 x 1 nwords in
  let a := bigint_copy a base nwords in
  match sw_exp_loop (Z.to_nat exp_bits) fuel 0 exp N x a nwords with
  | None => None
  | Some (x, a) => Some (bigint_copy result x nwords)
  end.

(** ** Global timer *)

Definition GTIMER_BASE : Z := 0xF8F00200.
Definition GTIMER_CTRL : Z := u32 (GTIMER_BASE + 8).
Definition GTIMER_FREQ_HZ : Z := 650000000.

(** Benchmark runs per case. *)
Definition NUM_RUNS : nat := 32.

Section Timer.
Context {D : Type} `{Device D}.

(** [Timer_GetCount]: the [do ... while (high0 != high1)] loop reads the
    high word, the low word and the high word again until the two high
    words agree.  [fuel] bounds the number of rounds. *)
Fixpoint Timer_GetCount (fuel : nat) : M D Z :=
  match fuel with
  | O => fun _ => None
  | S fuel' =>
      high0 ← Xil_In32 (u32 (GTIMER_BASE + 4));
      low ← Xil_In32 (u32 (GTIMER_BASE + 0));
      high1 ← Xil_In32 (u32 (GTIMER_BASE + 4));
      if negb (high0 =? high1) then Timer_GetCount fuel'
      else mret (Z.lor (u64 (Z.shiftl high1 32)) low)
  end.

End Timer.

(** [Timer_Delta(start, end)] on 64-bit counts. *)
Definition Timer_Delta (start end_ : Z) : Z :=
  if end_ >=? start then u64 (end_ - start)
  else u64 (u64 (u64 (0xFFFFFFFFFFFFFFFF - start) + 1) + end_).

(** ** Console output *)

(** An argument of [xil_printf] after its conversion: an unsigned number
    or a string. *)
Inductive arg : Type :=
| ArgU (v : Z)
| ArgS (s : string).

(** One call of [xil_printf]: the format literal as the source spells it
    (escape sequences are not expanded) and the converted arguments. *)
Record line : Type := Line { line_fmt : string; line_args : list arg }.

(** The program's surroundings at the level of the benchmark: the
    registers with their trace, and the lines sent to the console by
    [benchmark_rsa_size], [Timer_Init] and [main], in program order.  The
    timeout report of [montgomery_mul_hw] stays in the register trace. *)
Record system (D : Type) : Type := System { io : world D; console : list line }.
Arguments System {D} _ _.
Arguments io {D} _.
Arguments console {D} _.

Definition Prog (D A : Type) : Type := system D -> option (A * system D).

#[global] Instance Prog_ret {D} : MRet (Prog D) := fun A (a : A) b => Some (a, b).
#[global] Instance Prog_bind {D} : MBind (Prog D) :=
  fun A B (f : A -> Prog D B) (c : Prog D A) b =>
    match c b with
    | Some (a, b') => f a b'
    | None => None
    end.

(** [(unsigned long)x]: 32 bits wide on the ARM core of the board. *)
Definition ulong (x : Z) : Z := u32 x.

(** The arguments [(unsigned)p[0], ..., (unsigned)p[3]] of a debug line. *)
Definition first4 (p : list Z) : list arg :=
  [ArgU (u32 (rd p 0)); ArgU (u32 (rd p 1)); ArgU (u32 (rd p 2)); ArgU (u32 (rd p 3))].

(** What the local arrays of one [benchmark_rsa_size] call hold when the
    call is entered; the call prints the first four words of each, also
    when [nwords] is below 4 and it has not written them all. *)
Record frame : Type := Frame {
  fr_msg : list Z;
  fr_c_hw : list Z;
  fr_m_hw : list Z;
  fr_c_sw : list Z;
  fr_m_sw : list Z
}.

Section Benchmark.
Context {D : Type} `{Device D}.

(** A register-level computation inside the benchmark. *)
Definition lift {A : Type} (c : M D A) : Prog D A :=
  fun b =>
    match c (io b) with
    | Some (a, s) => Some (a, System s (console b))
    | None => None
    end.

(** A computation without effects; [None] is a loop out of fuel or an
    undefined operation. *)
Definition lift_option {A : Type} (o : option A) : Prog D A :=
  fun b =>
    match o with
    | Some a => Some (a, b)
    | None => None
    end.

Definition xil_printf (fmt : string) (args : list arg) : Prog D unit :=
  fun b => Some (tt, System (io b) (console b ++ [Line fmt args])).

Definition Timer_Init : Prog D unit :=
  ctrl ← lift (Xil_In32 GTIMER_CTRL);
  let ctrl := Z.lor ctrl 1 in
  _ ← lift (Xil_Out32 GTIMER_CTRL ctrl);
  xil_printf "[INFO] Global timer enabled, freq ~%u Hz\r\n" [ArgU (u32 GTIMER_FREQ_HZ)].

(** A timed loop of hardware runs, [n] runs left:
    [start = Timer_GetCount(); if (!modexp_hw_scalar(..., dst, ...))
     { xil_printf(abort, label); return; } end = Timer_GetCount();
     cycles += Timer_Delta(start, end);]
    Returns 0 for the [return] from inside the loop and 1 when the loop
    is left, with the contents of [dst] and the cycle count. *)
Fixpoint hw_runs (n : nat) (abort : string) (tfuel fuel : nat) (timeout base_addr : Z)
    (src : list Z) (exp exp_bits : Z) (N : list Z) (nprime : Z) (R2 dst : list Z)
    (nwords : nat) (label : string) (cycles : Z) : Prog D (Z * list Z * Z) :=
  match n with
  | O => mret (1, dst, cycles)
  | S n' =>
      start ← lift (Timer_GetCount tfuel);
      '(ok, dst) ← lift (modexp_hw_scalar fuel timeout base_addr src exp exp_bits N nprime R2
                           dst nwords label);
      if ok =? 0 then
        _ ← xil_printf abort [ArgS label];
        mret (0, dst, cycles)
      else
        end_ ← lift (Timer_GetCount tfuel);
        hw_runs n' abort tfuel fuel timeout base_addr src exp exp_bits N nprime R2 dst
          nwords label (u64 (cycles + Timer_Delta start end_))
  end.

(** A timed loop of software runs, [n] runs left. *)
Fixpoint sw_runs (n : nat) (tfuel fuel_sw : nat) (src : list Z) (exp exp_bits : Z)
    (N dst : list Z) (nwords : nat) (cycles : Z) : Prog D (list Z * Z) :=
  match n with
  | O => mret (dst, cycles)
  | S n' =>
      start ← lift (Timer_GetCount tfuel);
      dst ← lift_option (modexp_sw_scalar fuel_sw src exp exp_bits N dst nwords);
      end_ ← lift (Timer_GetCount tfuel);
      sw_runs n' tfuel fuel_sw src exp exp_bits N dst nwords
        (u64 (cycles + Timer_Delta start end_))
  end.

(** [benchmark_rsa_size].  [tfuel], [fuel] and [fuel_sw] bound the rounds
    of a timer read, the polls of an accelerator call and the passes of a
    software reduction; [timeout] stands for [HW_DONE_TIMEOUT]; [fr]
    holds the local arrays as the call finds them. *)
Definition benchmark_rsa_size (tfuel fuel : nat) (timeout : Z) (fuel_sw : nat) (fr : frame)
    (label : string) (key_bits : Z) (nwords : nat) (base_addr : Z) (N R2 : list Z)
    (nprime e e_bits d d_bits : Z) : Prog D unit :=
  let msg := fr_msg fr in
  let c_hw := fr_c_hw fr in
  let m_hw := fr_m_hw fr in
  let c_sw := fr_c_sw fr in
  let m_sw := fr_m_sw fr in
  let enc_cycles_hw := 0 in
  let dec_cycles_hw := 0 in
  let enc_cycles_sw := 0 in
  let dec_cycles_sw := 0 in
  _ ← xil_printf "\r\n==============================\r\n" [];
  _ ← xil_printf " %s (key size: %u bits)\r\n" [ArgS label; ArgU (u32 key_bits)];
  _ ← xil_printf "==============================\r\n" [];
  let msg := bigint_copy msg RSA_MSG nwords in
  _ ← xil_printf "[DEBUG] Plaintext first 4 words (LE): %08x %08x %08x %08x\r\n" (first4 msg);
  '(ok, c_hw, enc_cycles_hw) ←
    hw_runs NUM_RUNS "[ERROR] Aborting %s HW encrypt benchmark due to HW error.\r\n"
      tfuel fuel timeout base_addr msg e e_bits N nprime R2 c_hw nwords label enc_cycles_hw;
  if ok =? 0 then mret tt
  else
    '(ok, m_hw, dec_cycles_hw) ←
      hw_runs NUM_RUNS "[ERROR] Aborting %s HW decrypt benchmark due to HW error.\r\n"
        tfuel fuel timeout base_addr c_hw d d_bits N nprime R2 m_hw nwords label dec_cycles_hw;
    if ok =? 0 then mret tt
    else
      '(c_sw, enc_cycles_sw) ←
        sw_runs NUM_RUNS tfuel fuel_sw msg e e_bits N c_sw nwords enc_cycles_sw;
      '(m_sw, dec_cycles_sw) ←
        sw_runs NUM_RUNS tfuel fuel_sw c_sw d d_bits N m_sw nwords dec_cycles_sw;
      let enc_hw_avg := enc_cycles_hw / Z.of_nat NUM_RUNS in
      let dec_hw_avg := dec_cycles_hw / Z.of_nat NUM_RUNS in
      let enc_sw_avg := enc_cycles_sw / Z.of_nat NUM_RUNS in
      let dec_sw_avg := dec_cycles_sw / Z.of_nat NUM_RUNS in
      let enc_hw_ns := u64 (enc_hw_avg * 1000000000) / GTIMER_FREQ_HZ in
      let dec_hw_ns := u64 (dec_hw_avg * 1000000000) / GTIMER_FREQ_HZ in
      let enc_sw_ns := u64 (enc_sw_avg * 1000000000) / GTIMER_FREQ_HZ in
      let dec_sw_ns := u64 (dec_sw_avg * 1000000000) / GTIMER_FREQ_HZ in
      let bits_per_op := u64 key_bits in
      let enc_hw_bits_s :=
        if enc_hw_avg >? 0 then u64 (bits_per_op * GTIMER_FREQ_HZ) / enc_hw_avg else 0 in
      let dec_hw_bits_s :=
        if dec_hw_avg >? 0 then u64 (bits_per_op * GTIMER_FREQ_HZ) / dec_hw_avg else 0 in
      let enc_sw_bits_s :=
        if enc_sw_avg >? 0 then u64 (bits_per_op * GTIMER_FREQ_HZ) / enc_sw_avg else 0 in
      let dec_sw_bits_s :=
        if dec_sw_avg >? 0 then u64 (bits_per_op * GTIMER_FREQ_HZ) / dec_sw_avg else 0 in
      let enc_hw_mbps := u32 (enc_hw_bits_s / 1000000) in
      let dec_hw_mbps := u32 (dec_hw_bits_s / 1000000) in
      let enc_sw_mbps := u32 (enc_sw_bits_s / 1000000) in
      let dec_sw_mbps := u32 (dec_sw_bits_s / 1000000) in
      let enc_spd_x1000 :=
        if enc_hw_avg >? 0 then u64 (enc_sw_avg * 1000) / enc_hw_avg else 0 in
      let dec_spd_x1000 :=
        if dec_hw_avg >? 0 then u64 (dec_sw_avg * 1000) / dec_hw_avg else 0 in
      let enc_spd_int := u32 (enc_spd_x1000 / 1000) in
      let enc_spd_frac := u32 (enc_spd_x1000 mod 1000) in
      let dec_spd_int := u32 (dec_spd_x1000 / 1000) in
      let dec_spd_frac := u32 (dec_spd_x1000 mod 1000) in
      _ ← xil_printf "[DEBUG] HW ciphertext first 4 words: %08x %08x %08x %08x\r\n"
            (first4 c_hw);
      _ ← xil_printf "[DEBUG] SW ciphertext first 4 words: %08x %08x %08x %08x\r\n"
            (first4 c_sw);
      _ ← xil_printf "[DEBUG] HW decrypted first 4 words: %08x %08x %08x %08x\r\n"
            (first4 m_hw);
      _ ← xil_printf "[DEBUG] SW decrypted first 4 words: %08x %08x %08x %08x\r\n"
            (first4 m_sw);
      _ ← xil_printf "\r\n[Performance] %s\r\n" [ArgS label];
      _ ← xil_printf " HW enc: avg %lu cycles, %lu ns, %u Mbit/s\r\n"
            [ArgU (ulong enc_hw_avg); ArgU (ulong enc_hw_ns); ArgU (u32 enc_hw_mbps)];
      _ ← xil_printf " HW dec: avg %lu cycles, %lu ns, %u Mbit/s\r\n"
            [ArgU (ulong dec_hw_avg); ArgU (ulong dec_hw_ns); ArgU (u32 dec_hw_mbps)];
      _ ← xil_printf " SW enc: avg %lu cycles, %lu ns, %u Mbit/s\r\n"
            [ArgU (ulong enc_sw_avg); ArgU (ulong enc_sw_ns); ArgU (u32 enc_sw_mbps)];
      _ ← xil_printf " SW dec: avg %lu cycles, %lu ns, %u Mbit/s\r\n"
            [ArgU (ulong dec_sw_avg); ArgU (ulong dec_sw_ns); ArgU (u32 dec_sw_mbps)];
      _ ← xil_printf " Enc speedup (SW/HW): %u.%03ux\r\n"
            [ArgU (u32 enc_spd_int); ArgU (u32 enc_spd_frac)];
      _ ← xil_printf " Dec speedup (SW/HW): %u.%03ux\r\n"
            [ArgU (u32 dec_spd_int); ArgU (u32 dec_spd_frac)];
      _ ← xil_printf "\r\n[Correctness]\r\n" [];
      _ ← xil_printf " HW dec == msg: %s\r\n"
            [ArgS (if negb (bigint_equal m_hw msg nwords =? 0) then "OK" else "FAIL")];
      xil_printf " SW dec == msg: %s\r\n"
        [ArgS (if negb (bigint_equal m_sw msg nwords =? 0) then "OK" else "FAIL")].

End Benchmark.

(** ** main *)

Section Main.
Context {D : Type} `{Device D}.

(** The base addresses of the two accelerators, [MONT2048_BASE] and
    [MONT1024_BASE], come from the board's [xparameters.h]. *)
Variables MONT2048_BASE MONT1024_BASE : Z.

(** [main] up to its closing idle loop [while (1) { }], which has no
    effect and which the program never leaves.  The static arrays
    [RSA_R2_1024] and [RSA_R2_2048] start as zeros; [fr2048] and [fr1024]
    are the frames the two benchmark calls find. *)
Definition main (tfuel fuel : nat) (timeout : Z) (fuel_sw : nat) (fr2048 fr1024 : frame)
    : Prog D unit :=
  _ ← xil_printf "RSA HW/SW benchmarks with Montgomery accelerators\r\n" [];
  _ ← Timer_Init;
  '(RSA_R2_1024, NPRIME_1024) ←
    lift_option (init_mont_params_for_size NWORDS_1024 (replicate MAX_WORDS 0));
  '(RSA_R2_2048, NPRIME_2048) ←
    lift_option (init_mont_params_for_size NWORDS_2048 (replicate MAX_WORDS 0));
  _ ← benchmark_rsa_size tfuel fuel timeout fuel_sw fr2048
        "RSA-2048 (HW: montgomery_axi_0)" 2048 NWORDS_2048 MONT2048_BASE
        RSA_N RSA_R2_2048 NPRIME_2048 RSA_E RSA_E_BITS RSA_D RSA_D_BITS;
  _ ← benchmark_rsa_size tfuel fuel timeout fuel_sw fr1024
        "RSA-1024 (HW: montgomery_axi_1024)" 1024 NWORDS_1024 MONT1024_BASE
        RSA_N RSA_R2_1024 NPRIME_1024 RSA_E RSA_E_BITS RSA_D RSA_D_BITS;
  xil_printf "\r\nAll benchmarks finished.\r\n" [].

End Main.

(** * Vocabulary of the statements *)

(** ** Numeric value of a big integer *)

(** Little-endian value of a word list. *)
Fixpoint eval (l : list Z) : Z :=
  match l with
  | [] => 0
  | x :: l' => x + 2 ^ 32 * eval l'
  end.

(** Numeric value of the [w]-word big integer stored in array [p]. *)
Definition value (w : nat) (p : list Z) : Z := eval (take w p).

(** The words of [l] are 32-bit words. *)
Definition words32 (l : list Z) : Prop := Forall (fun x => 0 <= x < 2 ^ 32) l.

(** [p] holds a [w]-word big integer. *)
Definition bignum (w : nat) (p : list Z) : Prop :=
  (w <= length p)%nat /\ words32 (take w p).

(** Boolean versions of [words32] and [bignum]. *)
Definition words32b (l : list Z) : bool := forallb (fun x => (0 <=? x) && (x <? 2 ^ 32)) l.
Definition bignumb (w : nat) (p : list Z) : bool := (w <=? length p)%nat && words32b (take w p).

(** [2^(32 k)], the weight of word [k]. *)
Definition wpow (k : nat) : Z := 2 ^ (32 * Z.of_nat k).

(** The first [w] words read from [p] are 32-bit words. *)
Definition inrange (w : nat) (p : list Z) : Prop :=
  forall k : nat, (k < w)%nat -> 0 <= rd p k < 2 ^ 32.

(** A [w]-word array holding [v] in its low word, as the key tables do. *)
Definition pad (w : nat) (v : Z) : list Z := v :: replicate (w - 1) 0.

(** ** Reference arithmetic *)

(** The exponent the loops consume: the low [exp_bits] bits of [exp]. *)
Definition exp_low (exp exp_bits : Z) : Z := exp mod 2 ^ exp_bits.

(** Halving modulo an odd [N]. *)
Definition mont_halve (N x : Z) : Z := if Z.even x then x / 2 else (x + N) / 2.

(** The Montgomery product [X * Y * R^-1 mod N] for [R = 2^(32 w)] and
    odd [N], by [32 w] halvings of [X * Y mod N]. *)
Definition mont_product (w : nat) (X Y N : Z) : Z :=
  Nat.iter (32 * w) (mont_halve N) ((X * Y) mod N).

(** What the reduction loop of [modmul_sw] leaves from the value [r] of
    the low words: subtraction goes on while the value is above [N]. *)
Definition red (N r : Z) : Z := if r <=? N then r else (r - 1) mod N + 1.

(** [modmul_sw] on values: the product is cut to [w] words, then reduced. *)
Definition modmul_val (w : nat) (N a b : Z) : Z := red N ((a * b) mod 2 ^ (32 * Z.of_nat w)).

(** The loop of [modexp_sw_scalar] on values, for products that fit. *)
Fixpoint sw_exp_val (n : nat) (bit exp N x a : Z) : Z :=
  match n with
  | O => x
  | S n' =>
      let x := if negb (Z.land (Z.shiftr exp bit) 1 =? 0) then red N (x * a) else x in
      let a := red N (a * a) in
      sw_exp_val n' (bit + 1) exp N x a
  end.

Definition modexp_sw_val (base exp exp_bits N : Z) : Z :=
  sw_exp_val (Z.to_nat exp_bits) 0 exp N 1 base.

(** The words of [v], least significant first. *)
Definition to_words (w : nat) (v : Z) : list Z :=
  map (fun i : nat => (v / 2 ^ (32 * Z.of_nat i)) mod 2 ^ 32) (seq 0 w).

(** Every reduced message of the toy key. *)
Definition messages : list Z := map Z.of_nat (seq 0 3233).

(** ** Traces of a call *)

(** The register writes of the operand loop, [n] words from index [i]. *)
Fixpoint operand_events (n i : nat) (base_addr : Z) (A B N : list Z) : list event :=
  match n with
  | O => []
  | S n' =>
      EvOut (REG_A base_addr i) (rd A i) :: EvOut (REG_B base_addr i) (rd B i)
        :: EvOut (REG_N base_addr i) (rd N i) :: operand_events n' (S i) base_addr A B N
  end.

(** Everything a call writes before it starts to poll. *)
Definition start_events (base_addr : Z) (nwords : nat) (A B N : list Z) (nprime : Z)
    : list event :=
  operand_events nwords 0 base_addr A B N
    ++ [EvOut (REG_NPRIME base_addr) nprime; EvOut (REG_CONTROL base_addr) 1].

(** Status reads that returned the values [vs]. *)
Definition status_events (base_addr : Z) (vs : list Z) : list event :=
  map (EvIn (REG_STATUS base_addr)) vs.

(** Reads of result words [i], [i+1], ... that returned the values [vs]. *)
Fixpoint result_events (base_addr : Z) (i : nat) (vs : list Z) : list event :=
  match vs with
  | [] => []
  | v :: vs' => EvIn (REG_RES base_addr i) v :: result_events base_addr (S i) vs'
  end.

Definition is_timeout (e : event) : bool :=
  match e with
  | EvTimeout _ _ => true
  | _ => false
  end.

(** A trace without a timeout report. *)
Definition quiet (tr : list event) : Prop := Forall (fun e => is_timeout e = false) tr.

(** How a run of accelerator calls ends: with 1 and no timeout report,
    or with 0 and the report of the failed call as its last event. *)
Definition outcome (label : string) (base_addr : Z) (ok : Z) (seg : list event) : Prop :=
  (ok = 1 /\ quiet seg) \/
  (ok = 0 /\ exists seg0, seg = seg0 ++ [EvTimeout label base_addr] /\ quiet seg0).

(** What a call returned, without the world it leaves. *)
Definition returned {D A : Type} (r : option (A * world D)) : option A :=
  match r with
  | Some (a, _) => Some a
  | None => None
  end.

(** ** Device states of a call *)

(** The device state after the operand loop, [n] words from index [i]. *)
Fixpoint after_operands {D} `{Device D} (n i : nat) (base_addr : Z) (A B N : list Z) (d : D)
    : D :=
  match n with
  | O => d
  | S n' =>
      after_operands n' (S i) base_addr A B N
        (reg_write (reg_write (reg_write d (REG_A base_addr i) (rd A i))
                      (REG_B base_addr i) (rd B i)) (REG_N base_addr i) (rd N i))
  end.

(** The device state once a call has written its start command. *)
Definition after_start {D} `{Device D} (base_addr : Z) (nwords : nat) (A B N : list Z)
    (nprime : Z) (d : D) : D :=
  reg_write (reg_write (after_operands nwords 0 base_addr A B N d) (REG_NPRIME base_addr) nprime)
    (REG_CONTROL base_addr) 1.

(** The device state once the operands, [n'] and the start command of a
    call have been written. *)
Definition started {D} `{Device D} (base_addr : Z) (nwords : nat) (A B N : list Z)
    (nprime : Z) (s : world D) : option (unit * world D) :=
  (_ ← write_operands nwords 0 base_addr A B N;
   _ ← Xil_Out32 (REG_NPRIME base_addr) nprime;
   Xil_Out32 (REG_CONTROL base_addr) 1) s.

(** The values of consecutive status reads from device state [d]. *)
Fixpoint status_reads {D} `{Device D} (n : nat) (base_addr : Z) (d : D) : list Z :=
  match n with
  | O => []
  | S n' =>
      let '(v, d') := reg_read d (REG_STATUS base_addr) in
      u32 v :: status_reads n' base_addr d'
  end.

(** The device state after [n] status reads. *)
Fixpoint after_status {D} `{Device D} (n : nat) (base_addr : Z) (d : D) : D :=
  match n with
  | O => d
  | S n' => after_status n' base_addr (reg_read d (REG_STATUS base_addr)).2
  end.

(** Bit 0 of a status value is clear. *)
Definition busy (v : Z) : bool := Z.land v 1 =? 0.

(** The number of leading status values with bit 0 clear. *)
Fixpoint leading_busy (vs : list Z) : nat :=
  match vs with
  | [] => O
  | v :: vs' => if busy v then S (leading_busy vs') else O
  end.

(** The values of consecutive reads of result words [i], [i+1], ... *)
Fixpoint result_reads {D} `{Device D} (n i : nat) (base_addr : Z) (d : D) : list Z :=
  match n with
  | O => []
  | S n' =>
      let '(v, d') := reg_read d (REG_RES base_addr i) in
      u32 v :: result_reads n' (S i) base_addr d'
  end.

(** The device state after reads of result words [i], [i+1], ... *)
Fixpoint after_results {D} `{Device D} (n i : nat) (base_addr : Z) (d : D) : D :=
  match n with
  | O => d
  | S n' => after_results n' (S i) base_addr (reg_read d (REG_RES base_addr i)).2
  end.

(** [R[i] = v] for the values [vs] in turn, from index [i]. *)
Fixpoint store_words (i : nat) (vs : list Z) (R : list Z) : list Z :=
  match vs with
  | [] => R
  | v :: vs' => store_words (S i) vs' (<[i := v]> R)
  end.

(** ** Properties of devices *)

(** The accelerator behind word size [w] performs one Montgomery
    multiplication per call and never times out: from every state it can
    be in ([Inv]), a call on reduced operands and an odd modulus returns
    1 with the product [A * B * R^-1 mod N], [R = 2^(32 w)]. *)
Definition accelerator_correct {D} `{Device D} (Inv : D -> Prop)
    (fuel : nat) (timeout base_addr : Z) (w : nat) : Prop :=
  forall (s : world D) (A B N : list Z) (nprime : Z) (R : list Z) (label : string),
    Inv (dev s) ->
    bignum w A -> bignum w B -> bignum w N -> (w <= length R)%nat ->
    Z.odd (value w N) = true ->
    value w A < value w N -> value w B < value w N ->
    exists R' s',
      montgomery_mul_hw fuel timeout base_addr w A B N nprime R label s = Some ((1, R'), s')
      /\ Inv (dev s')
      /\ bignum w R' /\ length R' = length R
      /\ value w R' < value w N
      /\ (value w R' * 2 ^ (32 * Z.of_nat w)) mod value w N
         = (value w A * value w B) mod value w N.

(** ** The exponentiation engine of the specification *)

(** The exponent bits the loops visit, least significant first. *)
Definition exp_bit_list (exp exp_bits : Z) : list bool :=
  map (fun i : nat => Z.testbit exp (Z.of_nat i)) (seq 0 (Z.to_nat exp_bits)).

(** Square-and-multiply over a multiply primitive [mul]: for each bit,
    [x = mul(x, a)] when the bit is set, then [a = mul(a, a)]. *)
Fixpoint engine_loop (mul : list Z -> list Z -> option (list Z)) (bits : list bool)
    (x a : list Z) : option (list Z * list Z) :=
  match bits with
  | [] => Some (x, a)
  | b :: bits' =>
      match (if b then mul x a else Some x) with
      | None => None
      | Some x' =>
          match mul a a with
          | None => None
          | Some a' => engine_loop mul bits' x' a'
          end
      end
  end.

(** The engine as the specification words it (section 4.4): enter the
    Montgomery domain with [R2], loop, leave it with [mul(x, ONE)]. *)
Definition engine_montgomery (mul : list Z -> list Z -> option (list Z))
    (ONE R2 base : list Z) (bits : list bool) : option (list Z) :=
  match mul ONE R2 with
  | None => None
  | Some x =>
      match mul base R2 with
      | None => None
      | Some a =>
          match engine_loop mul bits x a with
          | None => None
          | Some (x, _) => mul x ONE
          end
      end
  end.

(** The engine outside the Montgomery domain: start from [ONE] and
    [base], loop, return [x]. *)
Definition engine_plain (mul : list Z -> list Z -> option (list Z))
    (ONE base : list Z) (bits : list bool) : option (list Z) :=
  match engine_loop mul bits ONE base with
  | None => None
  | Some (x, _) => Some x
  end.

(** [modmul_sw] as the multiply primitive: the product replaces the
    first operand, as in [modmul_sw(x, a, N, x, nwords)]. *)
Definition sw_mul (fuel : nat) (N : list Z) (nwords : nat) (X Y : list Z) : option (list Z) :=
  modmul_sw fuel X Y N X nwords.

(** ** A simulated accelerator

    A device honouring the register protocol: four banks of 128 word
    slots at offsets 0x000, 0x200, 0x400 and 0x600, the [n'] register at
    0x800, control at 0x804 and status at 0x808.  Writing 1 to control
    starts an operation on the first [sim_width] words of the banks; the
    result bank then holds their Montgomery product.  The status bit
    answers 0 for [sim_latency] reads and 1 afterwards.  With
    [sim_good = Some k] only the next [k] operations complete and later
    ones never do; with [None] every operation completes. *)
Record sim : Type := Sim {
  sim_base : Z;
  sim_width : nat;
  sim_latency : nat;
  sim_good : option nat;
  sim_wait : option nat;
  sim_A : list Z;
  sim_B : list Z;
  sim_N : list Z;
  sim_RES : list Z;
  sim_nprime : Z
}.

Definition sim_init (base : Z) (w latency : nat) (good : option nat) : sim :=
  Sim base w latency good None (replicate 128 0) (replicate 128 0)
      (replicate 128 0) (replicate 128 0) 0.

Definition sim_start (d : sim) : sim :=
  let w := sim_width d in
  let r := mont_product w (value w (sim_A d)) (value w (sim_B d)) (value w (sim_N d)) in
  Sim (sim_base d) w (sim_latency d)
      (match sim_good d with Some (S k) => Some k | g => g end)
      (match sim_good d with Some O => None | _ => Some (sim_latency d) end)
      (sim_A d) (sim_B d) (sim_N d)
      (to_words w r ++ drop w (sim_RES d)) (sim_nprime d).

Definition sim_write (d : sim) (addr val : Z) : sim :=
  let off := u32 (addr - sim_base d) in
  let i := Z.to_nat ((off mod 512) / 4) in
  if off =? 2052 then (if Z.land val 1 =? 1 then sim_start d else d)
  else if off =? 2048 then
    Sim (sim_base d) (sim_width d) (sim_latency d) (sim_good d) (sim_wait d)
        (sim_A d) (sim_B d) (sim_N d) (sim_RES d) val
  else if negb (off mod 4 =? 0) then d
  else if off <? 512 then
    Sim (sim_base d) (sim_width d) (sim_latency d) (sim_good d) (sim_wait d)
        (<[i := val]> (sim_A d)) (sim_B d) (sim_N d) (sim_RES d) (sim_nprime d)
  else if off <? 1024 then
    Sim (sim_base d) (sim_width d) (sim_latency d) (sim_good d) (sim_wait d)
        (sim_A d) (<[i := val]> (sim_B d)) (sim_N d) (sim_RES d) (sim_nprime d)
  else if off <? 1536 then
    Sim (sim_base d) (sim_width d) (sim_latency d) (sim_good d) (sim_wait d)
        (sim_A d) (sim_B d) (<[i := val]> (sim_N d)) (sim_RES d) (sim_nprime d)
  else d.

Definition sim_read (d : sim) (addr : Z) : Z * sim :=
  let off := u32 (addr - sim_base d) in
  let i := Z.to_nat ((off mod 512) / 4) in
  if off =? 2056 then
    match sim_wait d with
    | None => (0, d)
    | Some O => (1, d)
    | Some (S k) =>
        (0, Sim (sim_base d) (sim_width d) (sim_latency d) (sim_good d) (Some k)
                (sim_A d) (sim_B d) (sim_N d) (sim_RES d) (sim_nprime d))
    end
  else if (1536 <=? off) && (off <? 2048) && (off mod 4 =? 0) then (rd (sim_RES d) i, d)
  else (0, d).

#[global] Instance sim_device : Device sim :=
  {| reg_read := sim_read; reg_write := sim_write |}.

Definition sim_world (base : Z) (w latency : nat) (good : option nat) : world sim :=
  World (sim_init base w latency good) [].

(** The states of a simulated accelerator at [base], [w] words wide,
    that completes every operation within [timeout] failed polls. *)
Definition sim_inv (base : Z) (w : nat) (timeout : Z) (d : sim) : Prop :=
  sim_base d = base /\ sim_width d = w /\ sim_good d = None /\
  Z.of_nat (sim_latency d) <= timeout /\
  length (sim_A d) = 128%nat /\ length (sim_B d) = 128%nat /\
  length (sim_N d) = 128%nat /\ length (sim_RES d) = 128%nat.

(** The label the witnesses run under. *)
Definition lbl : string := "RSA-1024"%string.

(** ** The register window of an accelerator *)

(** The registers one call of [montgomery_mul_hw] touches: [w] words of
    each bank and the three control registers. *)
Definition call_registers (base : Z) (w : nat) : list Z :=
  map (REG_A base) (seq 0 w) ++ map (REG_B base) (seq 0 w) ++ map (REG_N base) (seq 0 w)
    ++ map (REG_RES base) (seq 0 w)
    ++ [REG_NPRIME base; REG_CONTROL base; REG_STATUS base].

(** [addr] lies in the [0x80C] bytes from [base], modulo [2^32]. *)
Definition in_window (base addr : Z) : bool := u32 (addr - base) <? 0x80C.

(** The register an event accesses; the timeout report accesses none. *)
Definition event_addr (e : event) : option Z :=
  match e with
  | EvOut a _ => Some a
  | EvIn a _ => Some a
  | EvTimeout _ _ => None
  end.

(** Every register access of [tr] is to one of [regs]. *)
Definition confined (regs : list Z) (tr : list event) : Prop :=
  Forall (fun e => match event_addr e with Some a => a ∈ regs | None => True end) tr.

(** The offsets of [call_registers] from [base]. *)
Definition call_offsets (w : nat) : list Z :=
  map (fun i : nat => 0 + 4 * Z.of_nat i) (seq 0 w)
    ++ map (fun i : nat => 512 + 4 * Z.of_nat i) (seq 0 w)
    ++ map (fun i : nat => 1024 + 4 * Z.of_nat i) (seq 0 w)
    ++ map (fun i : nat => 1536 + 4 * Z.of_nat i) (seq 0 w)
    ++ [2048; 2052; 2056].

(** The start command of an accelerator: the write of 1 to its control
    register. *)
Definition is_start (base : Z) (e : event) : bool :=
  match e with
  | EvOut a v => (a =? REG_CONTROL base) && (v =? 1)
  | _ => false
  end.

(** The number of start commands in a trace. *)
Fixpoint starts (base : Z) (tr : list event) : nat :=
  match tr with
  | [] => 0
  | e :: tr' => ((if is_start base e then 1 else 0) + starts base tr')%nat
  end.

(** The number of [true] in a list of bits. *)
Fixpoint count_true (bits : list bool) : nat :=
  match bits with
  | [] => 0
  | b :: bits' => ((if b then 1 else 0) + count_true bits')%nat
  end.

(** The number of set bits among the exponent bits the loops visit. *)
Definition set_bits (exp exp_bits : Z) : nat := count_true (exp_bit_list exp exp_bits).

(** ** Rounds of the timer read *)

(** One round of [Timer_GetCount]: the high word, the low word and the
    high word again. *)
Definition timer_round (r : Z * Z * Z) : list event :=
  let '(high0, low, high1) := r in
  [EvIn (u32 (GTIMER_BASE + 4)) high0; EvIn (u32 (GTIMER_BASE + 0)) low;
   EvIn (u32 (GTIMER_BASE + 4)) high1].

(** A round whose two high words differ. *)
Definition torn (r : Z * Z * Z) : Prop := let '(high0, _, high1) := r in high0 <> high1.

(** ** A simulated global timer

    A free-running 64-bit counter behind the three registers of the
    global timer: low word, high word and control.  While bit 0 of the
    control register is set the counter advances by [gt_step] between
    two consecutive register accesses. *)
Record gtimer : Type := GTimer { gt_ctrl : Z; gt_count : Z; gt_step : Z }.

(** What the counter gains between two accesses. *)
Definition gt_rate (d : gtimer) : Z := if Z.land (gt_ctrl d) 1 =? 1 then gt_step d else 0.

Definition gt_tick (d : gtimer) : gtimer :=
  GTimer (gt_ctrl d) (u64 (gt_count d + gt_rate d)) (gt_step d).

Definition gt_read (d : gtimer) (addr : Z) : Z * gtimer :=
  if addr =? u32 (GTIMER_BASE + 0) then (gt_count d mod 2 ^ 32, gt_tick d)
  else if addr =? u32 (GTIMER_BASE + 4) then (gt_count d / 2 ^ 32, gt_tick d)
  else if addr =? GTIMER_CTRL then (gt_ctrl d, gt_tick d)
  else (0, gt_tick d).

Definition gt_write (d : gtimer) (addr val : Z) : gtimer :=
  if addr =? GTIMER_CTRL then GTimer val (gt_count (gt_tick d)) (gt_step d)
  else gt_tick d.

#[global] Instance gtimer_device : Device gtimer :=
  {| reg_read := gt_read; reg_write := gt_write |}.

(** The states of a timer that is slow against the bus: five accesses
    take less than [2^32] counts. *)
Definition gt_inv (d : gtimer) : Prop :=
  0 <= gt_count d < 2 ^ 64 /\ 0 <= gt_step d /\ 5 * gt_step d < 2 ^ 32.

(** The timer [k] accesses after state [d]. *)
Definition gt_after (d : gtimer) (k : Z) : gtimer :=
  GTimer (gt_ctrl d) (u64 (gt_count d + k * gt_rate d)) (gt_step d).

(** ** The console of a benchmark *)

(** The local arrays of a frame have [MAX_WORDS] words each. *)
Definition frame_words (fr : frame) : Prop :=
  length (fr_msg fr) = MAX_WORDS /\ length (fr_c_hw fr) = MAX_WORDS /\
  length (fr_m_hw fr) = MAX_WORDS /\ length (fr_c_sw fr) = MAX_WORDS /\
  length (fr_m_sw fr) = MAX_WORDS.

(** The three lines that open a benchmark. *)
Definition banner (label : string) (key_bits : Z) : list line :=
  [Line "\r\n==============================\r\n" [];
   Line " %s (key size: %u bits)\r\n" [ArgS label; ArgU (u32 key_bits)];
   Line "==============================\r\n" []].

(** The plaintext line for the array [msg]. *)
Definition plaintext_line (msg : list Z) : line :=
  Line "[DEBUG] Plaintext first 4 words (LE): %08x %08x %08x %08x\r\n" (first4 msg).

(** The last line of a benchmark that gives up in its hardware encrypt
    loop ([decrypt = false]) or hardware decrypt loop. *)
Definition abort_line (decrypt : bool) (label : string) : line :=
  Line (if decrypt
        then "[ERROR] Aborting %s HW decrypt benchmark due to HW error.\r\n"
        else "[ERROR] Aborting %s HW encrypt benchmark due to HW error.\r\n")
       [ArgS label].

(** The three lines that close a complete benchmark, with the two
    verdicts. *)
Definition correctness_lines (hw_verdict sw_verdict : string) : list line :=
  [Line "\r\n[Correctness]\r\n" [];
   Line " HW dec == msg: %s\r\n" [ArgS hw_verdict];
   Line " SW dec == msg: %s\r\n" [ArgS sw_verdict]].

(** A debug line showing a number below [2^32] in a big integer of at
    least four words. *)
Definition debug_line (fmt : string) (v : Z) : line :=
  Line fmt [ArgU v; ArgU 0; ArgU 0; ArgU 0].

(** The formats of the lines between the debug lines and the verdicts. *)
Definition performance_fmts : list string :=
  ["\r\n[Performance] %s\r\n";
   " HW enc: avg %lu cycles, %lu ns, %u Mbit/s\r\n";
   " HW dec: avg %lu cycles, %lu ns, %u Mbit/s\r\n";
   " SW enc: avg %lu cycles, %lu ns, %u Mbit/s\r\n";
   " SW dec: avg %lu cycles, %lu ns, %u Mbit/s\r\n";
   " Enc speedup (SW/HW): %u.%03ux\r\n";
   " Dec speedup (SW/HW): %u.%03ux\r\n"]%string.

(** The console of a benchmark of the toy key that ran to its end and
    found both round trips right: plaintext 42, ciphertext 2557; [perf]
    are its performance lines. *)
Definition complete_console (label : string) (key_bits : Z) (perf : list line) : list line :=
  banner label key_bits
    ++ [debug_line "[DEBUG] Plaintext first 4 words (LE): %08x %08x %08x %08x\r\n" 42;
        debug_line "[DEBUG] HW ciphertext first 4 words: %08x %08x %08x %08x\r\n" 2557;
        debug_line "[DEBUG] SW ciphertext first 4 words: %08x %08x %08x %08x\r\n" 2557;
        debug_line "[DEBUG] HW decrypted first 4 words: %08x %08x %08x %08x\r\n" 42;
        debug_line "[DEBUG] SW decrypted first 4 words: %08x %08x %08x %08x\r\n" 42]
    ++ perf ++ correctness_lines "OK" "OK".

(** ** Properties of the timer *)

(** From every device state of [Inv] a timer read returns within [tfuel]
    rounds and stays in [Inv]. *)
Definition timer_returns {D} `{Device D} (Inv : D -> Prop) (tfuel : nat) : Prop :=
  forall s : world D, Inv (dev s) ->
    exists v s', Timer_GetCount tfuel s = Some (v, s') /\ Inv (dev s').

(** Reading and writing the timer's control register stays in [Inv]. *)
Definition timer_control {D} `{Device D} (Inv : D -> Prop) : Prop :=
  forall (d : D) (v : Z), Inv d ->
    Inv (reg_read d GTIMER_CTRL).2 /\ Inv (reg_write d GTIMER_CTRL v).

(** ** A device inside another

    [D] contains a device [D1]: [get] reads it out of a state of [D] and
    [put] stores it back.  In the states of [ok] the accesses to the
    addresses of [W] are the accesses of [D1]; they change nothing else
    of [D]. *)
Record embeds {D D1 : Type} `{Device D} `{Device D1}
    (W : Z -> Prop) (ok : D -> Prop) (get : D -> D1) (put : D -> D1 -> D) : Prop := {
  get_put : forall d x, get (put d x) = x;
  put_get : forall d, put d (get d) = d;
  put_put : forall d x y, put (put d x) y = put d y;
  ok_put : forall d x, ok d -> ok (put d x);
  read_in : forall d a, ok d -> W a ->
    reg_read d a = ((reg_read (get d) a).1, put d (reg_read (get d) a).2);
  write_in : forall d a v, ok d -> W a -> reg_write d a v = put d (reg_write (get d) a v)
}.

(** The world of the inner device, and the outer world after the inner
    one has moved on. *)
Definition inner {D D1 : Type} (get : D -> D1) (s : world D) : world D1 :=
  World (get (dev s)) (trace s).

Definition outer {D D1 : Type} (put : D -> D1 -> D) (s : world D) (s1 : world D1) : world D :=
  World (put (dev s) (dev s1)) (trace s1).

(** [c] on the outer device does what [c1] does on the inner one. *)
Definition carried {D D1 A : Type} (ok : D -> Prop) (get : D -> D1) (put : D -> D1 -> D)
    (c : M D A) (c1 : M D1 A) : Prop :=
  forall s : world D, ok (dev s) ->
    c s = match c1 (inner get s) with
          | Some (a, s1) => Some (a, outer put s s1)
          | None => None
          end.

(** ** Two devices on one bus

    The addresses selected by [bus_sel] reach the first device, all
    others the second. *)
Record bus (D1 D2 : Type) : Type := Bus { bus_sel : Z -> bool; bus_l : D1; bus_r : D2 }.
Arguments Bus {D1 D2} _ _ _.
Arguments bus_sel {D1 D2} _ _.
Arguments bus_l {D1 D2} _.
Arguments bus_r {D1 D2} _.

Definition bus_read {D1 D2 : Type} `{Device D1} `{Device D2} (b : bus D1 D2) (addr : Z)
    : Z * bus D1 D2 :=
  if bus_sel b addr
  then ((reg_read (bus_l b) addr).1, Bus (bus_sel b) (reg_read (bus_l b) addr).2 (bus_r b))
  else ((reg_read (bus_r b) addr).1, Bus (bus_sel b) (bus_l b) (reg_read (bus_r b) addr).2).

Definition bus_write {D1 D2 : Type} `{Device D1} `{Device D2} (b : bus D1 D2) (addr val : Z)
    : bus D1 D2 :=
  if bus_sel b addr
  then Bus (bus_sel b) (reg_write (bus_l b) addr val) (bus_r b)
  else Bus (bus_sel b) (bus_l b) (reg_write (bus_r b) addr val).

#[global] Instance bus_device {D1 D2 : Type} `{Device D1} `{Device D2} : Device (bus D1 D2) :=
  {| reg_read := bus_read; reg_write := bus_write |}.

Definition put_l {D1 D2 : Type} (b : bus D1 D2) (x : D1) : bus D1 D2 :=
  Bus (bus_sel b) x (bus_r b).

Definition put_r {D1 D2 : Type} (b : bus D1 D2) (x : D2) : bus D1 D2 :=
  Bus (bus_sel b) (bus_l b) x.

(** The bus sends the addresses of [W] to its first, or to its second
    device. *)
Definition sel_l {D1 D2 : Type} (W : Z -> Prop) (b : bus D1 D2) : Prop :=
  forall a, W a -> bus_sel b a = true.

Definition sel_r {D1 D2 : Type} (W : Z -> Prop) (b : bus D1 D2) : Prop :=
  forall a, W a -> bus_sel b a = false.

(** ** A simulated board

    The accelerator of 64 words, the accelerator of 32 words and the
    global timer on one bus; each accelerator answers the [0x80C] bytes
    from its base address. *)
Definition board : Type := bus sim (bus sim gtimer).

Definition board_init (base2048 base1024 : Z) (latency : nat) (step : Z) : board :=
  Bus (in_window base2048) (sim_init base2048 64 latency None)
    (Bus (in_window base1024) (sim_init base1024 32 latency None) (GTimer 0 0 step)).

(** The registers of the global timer. *)
Definition timer_registers : list Z :=
  [u32 (GTIMER_BASE + 0); u32 (GTIMER_BASE + 4); GTIMER_CTRL].

(** The two windows and the timer registers do not meet. *)
Definition board_layout (base2048 base1024 : Z) : bool :=
  forallb (fun a => negb (in_window base2048 a)) (call_registers base1024 32 ++ timer_registers)
  && forallb (fun a => negb (in_window base1024 a)) timer_registers.

(** The states of the board: both accelerators complete every operation
    within [timeout] failed polls and the timer is slow against the
    bus. *)
Definition board_inv (base2048 base1024 timeout : Z) (b : board) : Prop :=
  bus_sel b = in_window base2048 /\ bus_sel (bus_r b) = in_window base1024 /\
  sim_inv base2048 64 timeout (bus_l b) /\
  sim_inv base1024 32 timeout (bus_l (bus_r b)) /\
  gt_inv (bus_r (bus_r b)).

(** The addresses of a list, as the window of an embedding. *)
Definition among (l : list Z) : Z -> Prop := fun a => a ∈ l.


(** ** Proof automation *)

Ltac zdm := Z.div_mod_to_equations; lia.

Ltac sim_branch :=
  repeat match goal with
    | |- context [Z.eqb ?a ?b] => destruct (Z.eqb_spec a b); try zdm
    | |- context [Z.ltb ?a ?b] => destruct (Z.ltb_spec a b); try zdm
    | |- context [Z.leb ?a ?b] => destruct (Z.leb_spec a b); try zdm
    end.

(** * Proofs *)

(** ** Machine integers *)

Lemma u32_small (x : Z) : 0 <= x < 2 ^ 32 -> u32 x = x.
Proof. intros Hx. unfold u32. apply Z.mod_small. exact Hx. Qed.

Lemma u64_small (x : Z) : 0 <= x < 2 ^ 64 -> u64 x = x.
Proof. intros Hx. unfold u64. apply Z.mod_small. exact Hx. Qed.

Lemma u32_range (x : Z) : 0 <= u32 x < 2 ^ 32.
Proof. unfold u32. apply Z.mod_pos_bound. lia. Qed.

Lemma land_1 (z : Z) : Z.land z 1 = z mod 2.
Proof. change 1 with (Z.ones 1). rewrite Z.land_ones by lia. reflexivity. Qed.

Lemma int64_fits (x : Z) : - 2 ^ 63 <= x < 2 ^ 63 -> int64 x = Some x.
Proof.
  intros Hx. unfold int64.
  destruct (Z.leb_spec (- 2 ^ 63) x); [|lia]. destruct (Z.ltb_spec x (2 ^ 63)); [|lia].
  reflexivity.
Qed.

(** ** Arrays and values *)

Lemma rd_insert_eq (p : list Z) (i : nat) (v : Z) :
  (i < length p)%nat -> rd (<[i := v]> p) i = v.
Proof. intros Hi. unfold rd. by rewrite list_lookup_insert_eq. Qed.

Lemma rd_insert_ne (p : list Z) (i j : nat) (v : Z) :
  i <> j -> rd (<[i := v]> p) j = rd p j.
Proof. intros Hne. unfold rd. by rewrite list_lookup_insert_ne. Qed.

Lemma rd_ge (p : list Z) (i : nat) : (length p <= i)%nat -> rd p i = 0.
Proof. intros Hi. unfold rd. by rewrite lookup_ge_None_2. Qed.

Lemma rd_replicate (m k : nat) (v : Z) : (k < m)%nat -> rd (replicate m v) k = v.
Proof. intros Hk. unfold rd. rewrite lookup_replicate_2 by lia. reflexivity. Qed.

Lemma rd_zeros (m k : nat) : rd (replicate m 0) k = 0.
Proof.
  destruct (decide (k < m)%nat); [apply rd_replicate; lia|].
  apply rd_ge. rewrite length_replicate. lia.
Qed.

Lemma rd_app_l (p q : list Z) (k : nat) : (k < length p)%nat -> rd (p ++ q) k = rd p k.
Proof. intros Hk. unfold rd. rewrite lookup_app_l by lia. reflexivity. Qed.

Lemma rd_app_r (p q : list Z) (k : nat) :
  (length p <= k)%nat -> rd (p ++ q) k = rd q (k - length p).
Proof. intros Hk. unfold rd. rewrite lookup_app_r by lia. reflexivity. Qed.

Lemma rd_drop (p : list Z) (n k : nat) : rd (drop n p) k = rd p (n + k).
Proof. unfold rd. rewrite lookup_drop. reflexivity. Qed.

Lemma list_eq_rd (p q : list Z) :
  length p = length q -> (forall k : nat, rd p k = rd q k) -> p = q.
Proof.
  intros Hlen Hk. apply list_eq. intros k. specialize (Hk k). unfold rd in Hk.
  destruct (decide (k < length p)%nat) as [Hlt|Hge].
  - destruct (lookup_lt_is_Some_2 p k Hlt) as [x Hx].
    destruct (lookup_lt_is_Some_2 q k ltac:(lia)) as [y Hy].
    rewrite Hx, Hy in *. simpl in Hk. congruence.
  - rewrite !lookup_ge_None_2 by lia. reflexivity.
Qed.

Lemma take_ext_rd (w : nat) (p q : list Z) :
  (w <= length p)%nat -> (w <= length q)%nat ->
  (forall k : nat, (k < w)%nat -> rd p k = rd q k) -> take w p = take w q.
Proof.
  intros Hp Hq Hk. apply list_eq. intros k.
  destruct (decide (k < w)%nat) as [Hlt|Hge].
  - rewrite !lookup_take_lt by lia. specialize (Hk k Hlt). unfold rd in Hk.
    destruct (lookup_lt_is_Some_2 p k ltac:(lia)) as [x Hx].
    destruct (lookup_lt_is_Some_2 q k ltac:(lia)) as [y Hy].
    rewrite Hx, Hy in *. simpl in Hk. congruence.
  - rewrite !lookup_take_ge by lia. reflexivity.
Qed.

Lemma eval_app (l1 l2 : list Z) :
  eval (l1 ++ l2) = eval l1 + 2 ^ (32 * Z.of_nat (length l1)) * eval l2.
Proof.
  induction l1 as [|x l1 IH]; simpl eval; simpl length.
  - change (2 ^ (32 * Z.of_nat 0)) with 1. lia.
  - rewrite IH. rewrite Nat2Z.inj_succ.
    replace (32 * Z.succ (Z.of_nat (length l1))) with (32 + 32 * Z.of_nat (length l1)) by lia.
    rewrite Z.pow_add_r by lia. lia.
Qed.

Lemma value_0 (p : list Z) : value 0 p = 0.
Proof. reflexivity. Qed.

Lemma wpow_0 : wpow 0 = 1.
Proof. reflexivity. Qed.

Lemma wpow_add (a b : nat) : wpow (a + b) = wpow a * wpow b.
Proof.
  unfold wpow. rewrite Nat2Z.inj_add, Z.mul_add_distr_l, Z.pow_add_r by lia. reflexivity.
Qed.

Lemma wpow_S (a : nat) : wpow (S a) = 2 ^ 32 * wpow a.
Proof. change (S a) with (1 + a)%nat. rewrite wpow_add. reflexivity. Qed.

Lemma wpow_pos (a : nat) : 0 < wpow a.
Proof. unfold wpow. apply Z.pow_pos_nonneg; lia. Qed.

Lemma wpow_ge (w : nat) : (1 <= w)%nat -> 2 ^ 32 <= wpow w.
Proof.
  intros Hw. destruct w as [|w]; [lia|]. rewrite wpow_S. pose proof (wpow_pos w). nia.
Qed.

Lemma value_S (w : nat) (p : list Z) :
  value (S w) p = value w p + rd p w * wpow w.
Proof.
  unfold value, wpow. destruct (decide (w < length p)%nat) as [Hlt|Hge].
  - destruct (lookup_lt_is_Some_2 p w Hlt) as [x Hx].
    rewrite (take_S_r p w x Hx), eval_app. unfold rd. rewrite Hx. simpl.
    rewrite length_take. replace (w `min` length p)%nat with w by lia. lia.
  - rewrite !take_ge by lia. rewrite rd_ge by lia. lia.
Qed.

Lemma value_ext (w : nat) (p q : list Z) :
  (forall k : nat, (k < w)%nat -> rd p k = rd q k) -> value w p = value w q.
Proof.
  induction w as [|w IH]; intros Hk; [reflexivity|].
  rewrite !value_S. rewrite IH by (intros; apply Hk; lia). rewrite Hk by lia. reflexivity.
Qed.

Lemma value_insert_ge (w k : nat) (v : Z) (p : list Z) :
  (w <= k)%nat -> value w (<[k := v]> p) = value w p.
Proof. intros Hk. apply value_ext. intros j Hj. apply rd_insert_ne. lia. Qed.

Lemma value_insert_lt (w k : nat) (v : Z) (p : list Z) :
  (k < w)%nat -> (k < length p)%nat ->
  value w (<[k := v]> p) = value w p + (v - rd p k) * wpow k.
Proof.
  induction w as [|w IH]; intros Hk Hlen; [lia|].
  rewrite !value_S. destruct (decide (k = w)) as [->|Hne].
  - rewrite value_insert_ge by lia. rewrite rd_insert_eq by lia. lia.
  - rewrite IH by lia. rewrite rd_insert_ne by lia. lia.
Qed.

Lemma value_bounds (w : nat) (p : list Z) :
  inrange w p -> 0 <= value w p < wpow w.
Proof.
  induction w as [|w IH]; intros Hr.
  - rewrite value_0, wpow_0. lia.
  - rewrite value_S, wpow_S.
    assert (H1 : 0 <= value w p < wpow w) by (apply IH; intros k Hk; apply Hr; lia).
    assert (H2 : 0 <= rd p w < 2 ^ 32) by (apply Hr; lia).
    nia.
Qed.

Lemma inrange_le (w w' : nat) (p : list Z) :
  (w' <= w)%nat -> inrange w p -> inrange w' p.
Proof. intros Hle Hr k Hk. apply Hr. lia. Qed.

Lemma inrange_insert (w k : nat) (v : Z) (p : list Z) :
  0 <= v < 2 ^ 32 -> inrange w p -> inrange w (<[k := v]> p).
Proof.
  intros Hv Hr j Hj. destruct (decide (k = j)) as [->|Hne].
  - destruct (decide (j < length p)%nat).
    + rewrite rd_insert_eq by lia. exact Hv.
    + rewrite list_insert_ge by lia. apply Hr. lia.
  - rewrite rd_insert_ne by lia. apply Hr. lia.
Qed.

Lemma inrange_zeros (w m : nat) : inrange w (replicate m 0).
Proof. intros k Hk. rewrite rd_zeros. lia. Qed.

Lemma bignum_inrange (w : nat) (p : list Z) : bignum w p -> inrange w p.
Proof.
  intros [Hlen Hw] k Hk. unfold words32 in Hw. rewrite Forall_lookup in Hw.
  unfold rd. destruct (p !! k) as [x|] eqn:Hx.
  - apply (Hw k x). rewrite lookup_take_lt by lia. exact Hx.
  - simpl. lia.
Qed.

Lemma inrange_bignum (w : nat) (p : list Z) :
  (w <= length p)%nat -> inrange w p -> bignum w p.
Proof.
  intros Hlen Hr. split; [exact Hlen|]. unfold words32. rewrite Forall_lookup.
  intros k x Hx. assert (Hk : (k < w)%nat).
  { apply lookup_lt_Some in Hx. rewrite length_take in Hx. lia. }
  rewrite lookup_take_lt in Hx by lia. specialize (Hr k Hk). unfold rd in Hr.
  rewrite Hx in Hr. exact Hr.
Qed.

Lemma bignumb_true (w : nat) (p : list Z) : bignumb w p = true -> bignum w p.
Proof.
  unfold bignumb, bignum, words32, words32b. intros H.
  apply andb_prop in H as [H1 H2]. split.
  - apply Nat.leb_le. exact H1.
  - rewrite forallb_forall in H2. apply List.Forall_forall. intros x Hx.
    specialize (H2 x Hx). lia.
Qed.

Lemma value_high (w k : nat) (p : list Z) :
  inrange (w + k) p -> exists h, 0 <= h /\ value (w + k) p = value w p + wpow w * h.
Proof.
  induction k as [|k IH]; intros Hr.
  - exists 0. rewrite Nat.add_0_r. lia.
  - destruct IH as (h & Hh & IH); [eapply inrange_le; [|exact Hr]; lia|].
    replace (w + S k)%nat with (S (w + k)) by lia. rewrite value_S, IH, wpow_add.
    assert (H2 : 0 <= rd p (w + k) < 2 ^ 32) by (apply Hr; lia).
    pose proof (wpow_pos k). pose proof (wpow_pos w).
    exists (h + rd p (w + k) * wpow k). split; [nia|lia].
Qed.

Lemma value_low_mod (w k : nat) (p : list Z) :
  inrange (w + k) p -> value (w + k) p mod wpow w = value w p.
Proof.
  intros Hr. destruct (value_high w k p Hr) as (h & Hh & ->).
  assert (Hb : 0 <= value w p < wpow w).
  { apply value_bounds. eapply inrange_le; [|exact Hr]. lia. }
  rewrite (Z.mul_comm (wpow w) h), Z_mod_plus_full. apply Z.mod_small. exact Hb.
Qed.

Lemma value_zeros (w m : nat) : value w (replicate m 0) = 0.
Proof.
  induction w as [|w IH]; [reflexivity|]. rewrite value_S, IH, rd_zeros. lia.
Qed.

Lemma value_low_word (w : nat) (p : list Z) :
  (1 <= w)%nat -> (forall k : nat, (1 <= k < w)%nat -> rd p k = 0) -> value w p = rd p 0.
Proof.
  induction w as [|w IH]; intros Hw Hz; [lia|].
  rewrite value_S. destruct w as [|w].
  - rewrite value_0, wpow_0. lia.
  - rewrite IH by (try lia; intros; apply Hz; lia). rewrite (Hz (S w)) by lia. lia.
Qed.

Lemma value_inj (w : nat) (p q : list Z) :
  inrange w p -> inrange w q -> value w p = value w q ->
  forall k : nat, (k < w)%nat -> rd p k = rd q k.
Proof.
  induction w as [|w IH]; intros Hp Hq Hv k Hk; [lia|].
  rewrite !value_S in Hv.
  assert (Hp' : inrange w p) by (eapply inrange_le; [|exact Hp]; lia).
  assert (Hq' : inrange w q) by (eapply inrange_le; [|exact Hq]; lia).
  pose proof (value_bounds w p Hp') as H1. pose proof (value_bounds w q Hq') as H2.
  assert (Htop : rd p w = rd q w) by nia.
  destruct (decide (k = w)) as [->|Hne]; [exact Htop|].
  apply IH; try assumption; [|lia]. rewrite Htop in Hv. lia.
Qed.

Lemma rd_to_words (w k : nat) (v : Z) :
  (k < w)%nat -> rd (to_words w v) k = (v / wpow k) mod 2 ^ 32.
Proof.
  intros Hk. unfold rd, to_words. rewrite list_lookup_fmap, lookup_seq_lt by lia.
  reflexivity.
Qed.

Lemma to_words_length (w : nat) (v : Z) : length (to_words w v) = w.
Proof. unfold to_words. rewrite length_map, length_seq. reflexivity. Qed.

Lemma value_of_words (w : nat) (p : list Z) (v : Z) :
  0 <= v -> (forall k : nat, (k < w)%nat -> rd p k = (v / wpow k) mod 2 ^ 32) ->
  value w p = v mod wpow w.
Proof.
  intros Hv. induction w as [|w IH]; intros Hk.
  - rewrite value_0, wpow_0, Z.mod_1_r. reflexivity.
  - rewrite value_S, IH by (intros; apply Hk; lia). rewrite Hk by lia.
    rewrite wpow_S, (Z.mul_comm (2 ^ 32)).
    pose proof (wpow_pos w).
    rewrite Z.rem_mul_r by lia. lia.
Qed.

(** ** Big-integer helpers *)

Lemma zero_loop_length n : forall i dst, length (zero_loop n i dst) = length dst.
Proof.
  induction n as [|n IH]; intros; cbn [zero_loop]; [reflexivity|].
  rewrite IH. apply length_insert.
Qed.

Lemma zero_loop_rd n : forall i dst k,
  (i + n <= length dst)%nat ->
  rd (zero_loop n i dst) k = if decide (i <= k < i + n)%nat then 0 else rd dst k.
Proof.
  induction n as [|n IH]; intros i dst k Hlen; cbn [zero_loop].
  - destruct (decide _); [lia|reflexivity].
  - rewrite IH by (rewrite length_insert; lia).
    destruct (decide (S i <= k < S i + n)%nat), (decide (i <= k < i + S n)%nat);
      try lia; try reflexivity.
    + destruct (decide (k = i)) as [->|Hne]; [|lia]. apply rd_insert_eq. lia.
    + apply rd_insert_ne. lia.
Qed.

Lemma zero_loop_zeros n : forall i m, zero_loop n i (replicate m 0) = replicate m 0.
Proof.
  induction n as [|n IH]; intros i m; simpl; [reflexivity|].
  rewrite insert_replicate. apply IH.
Qed.

Lemma copy_loop_length n : forall i dst src, length (copy_loop n i dst src) = length dst.
Proof.
  induction n as [|n IH]; intros; cbn [copy_loop]; [reflexivity|].
  rewrite IH. apply length_insert.
Qed.

Lemma copy_loop_rd n : forall i dst src k,
  (i + n <= length dst)%nat ->
  rd (copy_loop n i dst src) k = if decide (i <= k < i + n)%nat then rd src k else rd dst k.
Proof.
  induction n as [|n IH]; intros i dst src k Hlen; cbn [copy_loop].
  - destruct (decide _); [lia|reflexivity].
  - rewrite IH by (rewrite length_insert; lia).
    destruct (decide (S i <= k < S i + n)%nat), (decide (i <= k < i + S n)%nat);
      try lia; try reflexivity.
    + destruct (decide (k = i)) as [->|Hne]; [|lia]. apply rd_insert_eq. lia.
    + apply rd_insert_ne. lia.
Qed.

Lemma copy_loop_value (w : nat) (bank src : list Z) :
  (w <= length bank)%nat -> value w (copy_loop w 0 bank src) = value w src.
Proof.
  intros Hlen. apply value_ext. intros k Hk. rewrite copy_loop_rd by lia.
  destruct (decide _); [reflexivity|lia].
Qed.

Lemma bigint_copy_spec (dst src : list Z) (w : nat) :
  (w <= length dst)%nat ->
  length (bigint_copy dst src w) = length dst /\
  (forall k : nat, (k < w)%nat -> rd (bigint_copy dst src w) k = rd src k) /\
  (forall k : nat, (w <= k)%nat -> rd (bigint_copy dst src w) k = rd dst k).
Proof.
  intros Hlen. unfold bigint_copy. split; [apply copy_loop_length|]. split.
  - intros k Hk. rewrite copy_loop_rd by lia. destruct (decide _); [reflexivity|lia].
  - intros k Hk. rewrite copy_loop_rd by lia. destruct (decide _); [lia|reflexivity].
Qed.

Lemma bigint_set_u32_spec (dst : list Z) (v : Z) (w : nat) :
  (1 <= w <= length dst)%nat ->
  length (bigint_set_u32 dst v w) = length dst /\
  rd (bigint_set_u32 dst v w) 0 = v /\
  (forall k : nat, (1 <= k < w)%nat -> rd (bigint_set_u32 dst v w) k = 0) /\
  (forall k : nat, (w <= k)%nat -> rd (bigint_set_u32 dst v w) k = rd dst k).
Proof.
  intros Hlen. unfold bigint_set_u32.
  split; [rewrite zero_loop_length; apply length_insert|].
  assert (Hl : (1 + (w - 1) <= length (<[0%nat := v]> dst))%nat)
    by (rewrite length_insert; lia).
  split; [|split].
  - rewrite zero_loop_rd by exact Hl. destruct (decide _); [lia|]. apply rd_insert_eq. lia.
  - intros k Hk. rewrite zero_loop_rd by exact Hl. destruct (decide _); [reflexivity|lia].
  - intros k Hk. rewrite zero_loop_rd by exact Hl. destruct (decide _); [lia|].
    apply rd_insert_ne. lia.
Qed.

Lemma equal_loop_true n : forall i a b,
  (forall k : nat, (i <= k < i + n)%nat -> rd a k = rd b k) -> equal_loop n i a b = 1.
Proof.
  induction n as [|n IH]; intros i a b Hk; cbn [equal_loop]; [reflexivity|].
  rewrite (Hk i) by lia. rewrite Z.eqb_refl. cbn. apply IH. intros k Hk'. apply Hk. lia.
Qed.

(** Big integers of equal value are equal word for word. *)
Lemma bignum_eq_of_value (w : nat) (p q : list Z) :
  (w <= length p)%nat -> (w <= length q)%nat -> inrange w p -> inrange w q ->
  value w p = value w q -> take w p = take w q /\ bigint_equal p q w = 1.
Proof.
  intros Hlp Hlq Hp Hq Hv. pose proof (value_inj w p q Hp Hq Hv) as Hk. split.
  - apply take_ext_rd; assumption.
  - apply equal_loop_true. intros k Hk'. apply Hk. lia.
Qed.

Lemma store_words_length vs : forall i R, length (store_words i vs R) = length R.
Proof.
  induction vs as [|v vs IH]; intros i R; cbn [store_words]; [reflexivity|].
  rewrite IH. apply length_insert.
Qed.

Lemma store_words_rd vs : forall i R k,
  (i + length vs <= length R)%nat ->
  rd (store_words i vs R) k
  = if decide (i <= k < i + length vs)%nat then rd vs (k - i) else rd R k.
Proof.
  induction vs as [|v vs IH]; intros i R k Hlen; cbn [store_words length] in *.
  - destruct (decide _); [lia|reflexivity].
  - rewrite IH by (rewrite length_insert; lia).
    destruct (decide (S i <= k < S i + length vs)%nat), (decide (i <= k < i + S (length vs))%nat);
      try lia.
    + replace (k - i)%nat with (S (k - S i)) by lia. reflexivity.
    + assert (k = i) by lia. subst k. rewrite rd_insert_eq by lia.
      replace (i - i)%nat with 0%nat by lia. reflexivity.
    + apply rd_insert_ne. lia.
Qed.

(** Storing [w] words from index 0 replaces the first [w] words. *)
Lemma store_words_0 (vs R : list Z) :
  (length vs <= length R)%nat -> store_words 0 vs R = vs ++ drop (length vs) R.
Proof.
  intros Hlen. apply list_eq_rd.
  - rewrite store_words_length, length_app, length_drop. lia.
  - intros k. rewrite store_words_rd by lia.
    destruct (decide (0 <= k < 0 + length vs)%nat).
    + rewrite rd_app_l by lia. f_equal. lia.
    + rewrite rd_app_r by lia. rewrite rd_drop. f_equal. lia.
Qed.

(** ** The software modular multiply *)

Lemma mul_inner_length n : forall i j A B tmp carry,
  length (mul_inner n i j A B tmp carry).1 = length tmp.
Proof.
  induction n as [|n IH]; intros; simpl; [reflexivity|].
  rewrite IH. apply length_insert.
Qed.

Lemma mul_inner_spec (L : nat) (A B : list Z) (i : nat) n : forall j tmp carry,
  (i + j + n <= L)%nat -> (L <= length tmp)%nat ->
  inrange L tmp -> 0 <= carry < 2 ^ 32 -> 0 <= rd A i < 2 ^ 32 ->
  (forall k : nat, (j <= k < j + n)%nat -> 0 <= rd B k < 2 ^ 32) ->
  forall tmp' carry', mul_inner n i j A B tmp carry = (tmp', carry') ->
  inrange L tmp' /\ 0 <= carry' < 2 ^ 32 /\
  (forall k : nat, (i + j + n <= k)%nat -> rd tmp' k = rd tmp k) /\
  value L tmp' + carry' * wpow (i + j + n)
  = value L tmp + carry * wpow (i + j) + rd A i * (value (j + n) B - value j B) * wpow i.
Proof.
  induction n as [|n IH]; intros j tmp carry HL Hlen Hr Hc Ha Hb tmp' carry' Heq.
  - simpl in Heq. injection Heq as <- <-. rewrite !Nat.add_0_r.
    split; [exact Hr|]. split; [exact Hc|]. split; [reflexivity|]. lia.
  - simpl in Heq.
    assert (Hij : 0 <= rd tmp (i + j) < 2 ^ 32) by (apply Hr; lia).
    assert (Hbj : 0 <= rd B j < 2 ^ 32) by (apply Hb; lia).
    set (T := rd tmp (i + j) + rd A i * rd B j + carry).
    assert (HT : 0 <= T < 2 ^ 64) by (unfold T; nia).
    assert (Ht : u64 (u64 (rd tmp (i + j) + u64 (rd A i * rd B j)) + carry) = T).
    { rewrite (u64_small (rd A i * rd B j)) by nia.
      rewrite (u64_small (rd tmp (i + j) + _)) by nia.
      apply u64_small. exact HT. }
    rewrite Ht in Heq. rewrite Z.shiftr_div_pow2 in Heq by lia.
    assert (Hq : 0 <= T / 2 ^ 32 < 2 ^ 32).
    { split; [apply Z.div_pos; lia|]. apply Z.div_lt_upper_bound; lia. }
    assert (Hr1 : inrange L (<[(i + j)%nat := u32 T]> tmp)).
    { apply inrange_insert; [apply u32_range|exact Hr]. }
    assert (Hlen1 : (L <= length (<[(i + j)%nat := u32 T]> tmp))%nat).
    { rewrite length_insert. lia. }
    assert (Hb1 : forall k : nat, (S j <= k < S j + n)%nat -> 0 <= rd B k < 2 ^ 32).
    { intros k Hk. apply Hb. lia. }
    destruct (IH (S j) _ _ ltac:(lia) Hlen1 Hr1 Hq Ha Hb1 _ _ Heq) as (Hr' & Hc' & Hk' & Hv).
    split; [exact Hr'|]. split; [exact Hc'|]. split.
    + intros k Hk. rewrite Hk' by lia. apply rd_insert_ne. lia.
    + replace (i + S j + n)%nat with (i + j + S n)%nat in Hv by lia.
      rewrite Hv. rewrite value_insert_lt by lia.
      replace (i + S j)%nat with (S (i + j)) by lia. rewrite wpow_S.
      replace (S j + n)%nat with (j + S n)%nat by lia.
      rewrite (value_S j B). rewrite (wpow_add i j).
      pose proof (Z.div_mod T (2 ^ 32) ltac:(lia)) as Hdm.
      unfold u32.
      replace (rd tmp (i + j)) with (T - rd A i * rd B j - carry) by (unfold T; lia).
      set (q := T / 2 ^ 32) in *. set (r := T mod 2 ^ 32) in *.
      rewrite Hdm. ring.
Qed.

Lemma mul_outer_spec (w : nat) (A B : list Z) n : forall i tmp,
  (i + n <= w)%nat -> (2 * w <= length tmp)%nat ->
  inrange (2 * w) tmp -> inrange w A -> inrange w B ->
  (forall k : nat, (i + w <= k)%nat -> rd tmp k = 0) ->
  inrange (2 * w) (mul_outer n i w A B tmp) /\
  length (mul_outer n i w A B tmp) = length tmp /\
  value (2 * w) (mul_outer n i w A B tmp)
  = value (2 * w) tmp + (value (i + n) A - value i A) * value w B.
Proof.
  induction n as [|n IH]; intros i tmp Hin Hlen Hr HA HB Hz.
  - cbn [mul_outer]. rewrite Nat.add_0_r. split; [exact Hr|]. split; [reflexivity|]. lia.
  - cbn [mul_outer]. destruct (mul_inner w i 0 A B tmp 0) as [tmp1 carry] eqn:Hinner.
    assert (Hlen1 : length tmp1 = length tmp).
    { pose proof (mul_inner_length w i 0 A B tmp 0) as Hl. rewrite Hinner in Hl. exact Hl. }
    destruct (mul_inner_spec (2 * w) A B i w 0 tmp 0 ltac:(lia) Hlen Hr ltac:(lia)
                ltac:(apply HA; lia) ltac:(intros k Hk; apply HB; lia) _ _ Hinner)
      as (Hr1 & Hc & Hk1 & Hv).
    assert (Hcell : rd tmp1 (i + w) = 0).
    { rewrite Hk1 by lia. apply Hz. lia. }
    rewrite Hcell. rewrite (u64_small (0 + carry)) by lia.
    set (tmp2 := <[(i + w)%nat := 0 + carry]> tmp1).
    assert (Hr2 : inrange (2 * w) tmp2) by (apply inrange_insert; [lia|exact Hr1]).
    assert (Hlen2 : (2 * w <= length tmp2)%nat).
    { unfold tmp2. rewrite length_insert. lia. }
    assert (Hz2 : forall k : nat, (S i + w <= k)%nat -> rd tmp2 k = 0).
    { intros k Hk. unfold tmp2. rewrite rd_insert_ne by lia. rewrite Hk1 by lia.
      apply Hz. lia. }
    destruct (IH (S i) tmp2 ltac:(lia) Hlen2 Hr2 HA HB Hz2) as (Hr3 & Hlen3 & Hv3).
    split; [exact Hr3|]. split.
    + rewrite Hlen3. unfold tmp2. rewrite length_insert. exact Hlen1.
    + rewrite Hv3. unfold tmp2. rewrite value_insert_lt by lia. rewrite Hcell.
      replace (S i + n)%nat with (i + S n)%nat by lia.
      rewrite (value_S i A).
      change (0 + w)%nat with w in Hv. rewrite value_0 in Hv.
      replace (i + 0 + w)%nat with (i + w)%nat in Hv by lia.
      replace (i + 0)%nat with i in Hv by lia. lia.
Qed.

(** The double-width product held by [tmp] after the product loops. *)
Lemma product_value (w : nat) (A B : list Z) :
  (w <= MAX_WORDS)%nat -> inrange w A -> inrange w B ->
  let tmp := mul_outer w 0 w A B (zero_loop (2 * w) 0 (replicate (2 * MAX_WORDS) 0)) in
  inrange (2 * w) tmp /\ length tmp = (2 * MAX_WORDS)%nat /\
  value (2 * w) tmp = value w A * value w B.
Proof.
  intros Hw HA HB. rewrite zero_loop_zeros.
  destruct (mul_outer_spec w A B w 0 (replicate (2 * MAX_WORDS) 0)) as (Hr & Hlen & Hv).
  - lia.
  - rewrite length_replicate. lia.
  - intros k Hk. rewrite rd_zeros. lia.
  - exact HA.
  - exact HB.
  - intros k Hk. apply rd_zeros.
  - cbv zeta. split; [exact Hr|]. split.
    + rewrite Hlen. apply length_replicate.
    + rewrite Hv, value_zeros, value_0. simpl. lia.
Qed.

Lemma low_loop_length n : forall i R tmp, length (low_loop n i R tmp) = length R.
Proof.
  induction n as [|n IH]; intros; simpl; [reflexivity|]. rewrite IH. apply length_insert.
Qed.

Lemma low_loop_rd n : forall i R tmp k,
  (i + n <= length R)%nat ->
  rd (low_loop n i R tmp) k
  = if decide (i <= k < i + n)%nat then u32 (rd tmp k) else rd R k.
Proof.
  induction n as [|n IH]; intros i R tmp k Hlen; simpl.
  - destruct (decide _); [lia|reflexivity].
  - rewrite IH by (rewrite length_insert; lia).
    destruct (decide (S i <= k < S i + n)%nat), (decide (i <= k < i + S n)%nat);
      try lia; try reflexivity.
    + destruct (decide (k = i)) as [->|Hne].
      * rewrite rd_insert_eq by lia. reflexivity.
      * lia.
    + apply rd_insert_ne. lia.
Qed.

Lemma low_loop_inrange (w : nat) (R tmp : list Z) :
  (w <= length R)%nat -> inrange w (low_loop w 0 R tmp).
Proof.
  intros Hlen k Hk. rewrite low_loop_rd by lia. destruct (decide _); [|lia]. apply u32_range.
Qed.

Lemma low_words (w : nat) (A B R : list Z) :
  (w <= MAX_WORDS)%nat -> inrange w A -> inrange w B -> (w <= length R)%nat ->
  let tmp := mul_outer w 0 w A B (zero_loop (2 * w) 0 (replicate (2 * MAX_WORDS) 0)) in
  inrange w (low_loop w 0 R tmp) /\
  length (low_loop w 0 R tmp) = length R /\
  (forall k : nat, (w <= k)%nat -> rd (low_loop w 0 R tmp) k = rd R k) /\
  value w (low_loop w 0 R tmp) = (value w A * value w B) mod wpow w.
Proof.
  intros Hw HA HB Hlen tmp.
  destruct (product_value w A B Hw HA HB) as (Hr & Hl & Hv). fold tmp in Hr, Hl, Hv.
  assert (Hrd : forall k : nat, (k < w)%nat -> rd (low_loop w 0 R tmp) k = rd tmp k).
  { intros k Hk. rewrite low_loop_rd by lia. destruct (decide _); [|lia].
    apply u32_small. apply Hr. lia. }
  split; [|split; [|split]].
  - intros k Hk. rewrite Hrd by lia. apply Hr. lia.
  - apply low_loop_length.
  - intros k Hk. rewrite low_loop_rd by lia. destruct (decide _); [lia|reflexivity].
  - rewrite (value_ext w _ tmp Hrd). rewrite <- Hv.
    replace (2 * w)%nat with (w + w)%nat in * by lia.
    symmetry. apply value_low_mod. exact Hr.
Qed.

Lemma cmp_loop_spec w : forall R N,
  inrange w R -> inrange w N ->
  cmp_loop w R N = if value w N <? value w R then 1 else 0.
Proof.
  induction w as [|w IH]; intros R N HR HN.
  - reflexivity.
  - simpl. rewrite !value_S.
    assert (H1 : 0 <= value w R < wpow w) by (apply value_bounds; eapply inrange_le; [|exact HR]; lia).
    assert (H2 : 0 <= value w N < wpow w) by (apply value_bounds; eapply inrange_le; [|exact HN]; lia).
    assert (H3 : 0 <= rd R w < 2 ^ 32) by (apply HR; lia).
    assert (H4 : 0 <= rd N w < 2 ^ 32) by (apply HN; lia).
    destruct (Z.gtb_spec (rd R w) (rd N w)) as [Hgt|Hle].
    + destruct (Z.ltb_spec (value w N + rd N w * wpow w) (value w R + rd R w * wpow w));
        [reflexivity|nia].
    + destruct (Z.ltb_spec (rd R w) (rd N w)) as [Hlt|Hge].
      * destruct (Z.ltb_spec (value w N + rd N w * wpow w) (value w R + rd R w * wpow w));
          [nia|reflexivity].
      * assert (Heq : rd R w = rd N w) by lia. rewrite Heq.
        rewrite IH by (eapply inrange_le; [|eassumption]; lia).
        destruct (Z.ltb_spec (value w N) (value w R)),
          (Z.ltb_spec (value w N + rd N w * wpow w) (value w R + rd N w * wpow w));
          try reflexivity; lia.
Qed.

Lemma sub_loop_length n : forall i R N b, length (sub_loop n i R N b) = length R.
Proof.
  induction n as [|n IH]; intros; simpl; [reflexivity|]. rewrite IH. apply length_insert.
Qed.

Lemma sub_step (x y b : Z) :
  0 <= x < 2 ^ 32 -> 0 <= y < 2 ^ 32 -> 0 <= b <= 1 ->
  let t := u64 (u64 (x - y) - b) in
  0 <= Z.land (Z.shiftr t 63) 1 <= 1 /\
  u32 t - Z.land (Z.shiftr t 63) 1 * 2 ^ 32 = x - y - b.
Proof.
  intros Hx Hy Hb. cbv zeta.
  assert (Ht : u64 (u64 (x - y) - b) = (x - y - b) mod 2 ^ 64).
  { unfold u64. rewrite Zminus_mod_idemp_l. reflexivity. }
  rewrite Ht. rewrite Z.shiftr_div_pow2 by lia. rewrite land_1. unfold u32.
  destruct (Z_lt_le_dec (x - y - b) 0) as [Hneg|Hpos].
  - replace ((x - y - b) mod 2 ^ 64) with (x - y - b + 2 ^ 64).
    2:{ symmetry. rewrite <- (Z_mod_plus_full _ 1 (2 ^ 64)). apply Z.mod_small. lia. }
    replace ((x - y - b + 2 ^ 64) / 2 ^ 63) with 1.
    2:{ apply Z.div_unique with (r := x - y - b + 2 ^ 63); lia. }
    replace ((x - y - b + 2 ^ 64) mod 2 ^ 32) with (x - y - b + 2 ^ 32).
    2:{ apply Z.mod_unique with (q := 2 ^ 32 - 1); lia. }
    change (1 mod 2) with 1. lia.
  - rewrite (Z.mod_small (x - y - b) (2 ^ 64)) by lia.
    rewrite (Z.div_small (x - y - b) (2 ^ 63)) by lia.
    rewrite (Z.mod_small (x - y - b) (2 ^ 32)) by lia.
    change (0 mod 2) with 0. lia.
Qed.

Lemma sub_loop_spec (N : list Z) n : forall i R b,
  (i + n <= length R)%nat -> inrange (i + n) R -> inrange (i + n) N -> 0 <= b <= 1 ->
  inrange (i + n) (sub_loop n i R N b) /\
  (forall k : nat, (i + n <= k)%nat -> rd (sub_loop n i R N b) k = rd R k) /\
  exists b', 0 <= b' <= 1 /\
    value (i + n) (sub_loop n i R N b) - b' * wpow (i + n)
    = value (i + n) R - (value (i + n) N - value i N) - b * wpow i.
Proof.
  induction n as [|n IH]; intros i R b Hlen HR HN Hb.
  - cbn [sub_loop]. rewrite Nat.add_0_r in *. split; [exact HR|]. split; [reflexivity|].
    exists b. split; [exact Hb|]. lia.
  - cbn [sub_loop].
    assert (Hx : 0 <= rd R i < 2 ^ 32) by (apply HR; lia).
    assert (Hy : 0 <= rd N i < 2 ^ 32) by (apply HN; lia).
    destruct (sub_step (rd R i) (rd N i) b Hx Hy Hb) as (Hb1 & Hstep).
    set (t := u64 (u64 (rd R i - rd N i) - b)) in *.
    set (b1 := Z.land (Z.shiftr t 63) 1) in *.
    replace (i + S n)%nat with (S i + n)%nat by lia.
    destruct (IH (S i) (<[i := u32 t]> R) b1) as (Hr' & Hk' & b' & Hb' & Hv).
    + rewrite length_insert. lia.
    + apply inrange_insert; [apply u32_range|]. replace (S i + n)%nat with (i + S n)%nat by lia.
      exact HR.
    + replace (S i + n)%nat with (i + S n)%nat by lia. exact HN.
    + exact Hb1.
    + split; [exact Hr'|]. split.
      * intros k Hk. rewrite Hk' by lia. apply rd_insert_ne. lia.
      * exists b'. split; [exact Hb'|]. rewrite Hv.
        rewrite value_insert_lt by lia. rewrite (value_S i N), wpow_S.
        pose proof (wpow_pos i). nia.
Qed.

Lemma sub_loop_value (w : nat) (R N : list Z) :
  (w <= length R)%nat -> inrange w R -> inrange w N -> value w N <= value w R ->
  inrange w (sub_loop w 0 R N 0) /\
  length (sub_loop w 0 R N 0) = length R /\
  (forall k : nat, (w <= k)%nat -> rd (sub_loop w 0 R N 0) k = rd R k) /\
  value w (sub_loop w 0 R N 0) = value w R - value w N.
Proof.
  intros Hlen HR HN Hle.
  destruct (sub_loop_spec N w 0 R 0 Hlen HR HN ltac:(lia)) as (Hr' & Hk' & b' & Hb' & Hv).
  change (0 + w)%nat with w in *.
  split; [exact Hr'|]. split; [apply sub_loop_length|]. split; [exact Hk'|].
  rewrite value_0 in Hv.
  pose proof (value_bounds w _ Hr') as H1. pose proof (value_bounds w _ HR) as H2.
  pose proof (value_bounds w _ HN) as H3. pose proof (wpow_pos w) as H4.
  assert (b' = 0 \/ b' = 1) as [->| ->] by lia; lia.
Qed.

Lemma red_step (N r : Z) : 1 <= N -> N < r -> red N (r - N) = red N r.
Proof.
  intros HN Hr. unfold red.
  destruct (Z.leb_spec r N); [lia|].
  assert (Hm : (r - N - 1) mod N = (r - 1) mod N).
  { replace (r - 1) with (r - N - 1 + 1 * N) by lia. rewrite Z_mod_plus_full. reflexivity. }
  destruct (Z.leb_spec (r - N) N).
  - rewrite <- Hm. rewrite Z.mod_small by lia. lia.
  - rewrite Hm. reflexivity.
Qed.

Lemma red_le (N r : Z) : 1 <= N -> 0 <= r -> 0 <= red N r <= N.
Proof.
  intros HN Hr. unfold red. destruct (Z.leb_spec r N); [lia|].
  pose proof (Z.mod_pos_bound (r - 1) N ltac:(lia)). lia.
Qed.

Lemma red_mod (N p : Z) : 1 <= N -> 0 <= p -> p mod N <> 0 -> red N p = p mod N.
Proof.
  intros HN Hp Hnz. unfold red.
  pose proof (Z.mod_pos_bound p N ltac:(lia)) as Hb.
  pose proof (Z.div_mod p N ltac:(lia)) as Hdm.
  destruct (Z.leb_spec p N) as [Hle|Hgt].
  - assert (p <> N) by (intros ->; rewrite Z.mod_same in Hnz by lia; lia).
    symmetry. apply Z.mod_small. lia.
  - assert ((p - 1) mod N = p mod N - 1); [|lia].
    symmetry. apply Z.mod_unique with (q := p / N); lia.
Qed.

Lemma red_fits (N x a : Z) : 1 <= N -> 0 <= x <= N -> 0 <= a <= N -> 0 <= x * a <= N * N.
Proof. intros. nia. Qed.

Lemma reduce_loop_spec (w : nat) (N : list Z) fuel : forall R,
  (w <= length R)%nat -> inrange w R -> inrange w N -> 1 <= value w N ->
  value w R / value w N < Z.of_nat fuel ->
  exists R', reduce_loop fuel R N w = Some R' /\
    length R' = length R /\ inrange w R' /\
    (forall k : nat, (w <= k)%nat -> rd R' k = rd R k) /\
    value w R' = red (value w N) (value w R).
Proof.
  induction fuel as [|fuel IH]; intros R Hlen HR HN HN1 Hfuel.
  - pose proof (value_bounds w _ HR) as H2.
    pose proof (Z.div_pos (value w R) (value w N) ltac:(lia) ltac:(lia)). lia.
  - cbn [reduce_loop]. rewrite cmp_loop_spec by assumption.
    destruct (Z.ltb_spec (value w N) (value w R)) as [Hgt|Hle].
    + change (1 =? 0) with false. cbv iota.
      destruct (sub_loop_value w R N Hlen HR HN ltac:(lia)) as (Hr1 & Hlen1 & Hk1 & Hv1).
      destruct (IH (sub_loop w 0 R N 0)) as (R' & Hrun & Hlen' & Hr' & Hk' & Hv').
      * rewrite Hlen1. exact Hlen.
      * exact Hr1.
      * exact HN.
      * exact HN1.
      * rewrite Hv1. replace (value w R - value w N) with (value w R + (-1) * value w N) by lia.
        rewrite Z.div_add by lia. lia.
      * exists R'. split; [exact Hrun|]. split; [lia|]. split; [exact Hr'|]. split.
        -- intros k Hk. rewrite Hk' by lia. apply Hk1. lia.
        -- rewrite Hv', Hv1. apply red_step; lia.
    + change (0 =? 0) with true. cbv iota. exists R.
      split; [reflexivity|]. split; [reflexivity|]. split; [exact HR|].
      split; [reflexivity|]. unfold red. destruct (Z.leb_spec (value w R) (value w N)); lia.
Qed.

Lemma reduce_loop_mono (w : nat) (N : list Z) fuel : forall fuel' R R',
  (fuel <= fuel')%nat -> reduce_loop fuel R N w = Some R' ->
  reduce_loop fuel' R N w = Some R'.
Proof.
  induction fuel as [|fuel IH]; intros fuel' R R' Hle Hrun; [discriminate|].
  destruct fuel' as [|fuel']; [lia|]. cbn [reduce_loop] in *.
  destruct (cmp_loop w R N =? 0); [exact Hrun|]. apply IH; [lia|exact Hrun].
Qed.

Lemma reduce_loop_diverges (w : nat) (N : list Z) fuel : forall R,
  (w <= length R)%nat -> inrange w R -> inrange w N ->
  value w N = 0 -> 0 < value w R ->
  reduce_loop fuel R N w = None.
Proof.
  induction fuel as [|fuel IH]; intros R Hlen HR HN HN0 HR0; [reflexivity|].
  cbn [reduce_loop]. rewrite cmp_loop_spec by assumption.
  destruct (Z.ltb_spec (value w N) (value w R)) as [Hgt|Hle]; [|lia].
  change (1 =? 0) with false. cbv iota.
  destruct (sub_loop_value w R N Hlen HR HN ltac:(lia)) as (Hr1 & Hlen1 & Hk1 & Hv1).
  apply IH; try assumption; lia.
Qed.

Lemma modmul_val_wpow (w : nat) (N a b : Z) : modmul_val w N a b = red N ((a * b) mod wpow w).
Proof. reflexivity. Qed.

(** [modmul_sw] on values: the low words of the product, reduced while
    they are above [N]. *)
Lemma modmul_sw_value (fuel : nat) (A B N R : list Z) (w : nat) :
  (w <= MAX_WORDS)%nat -> inrange w A -> inrange w B -> inrange w N ->
  (w <= length R)%nat -> 1 <= value w N ->
  ((value w A * value w B) mod wpow w) / value w N < Z.of_nat fuel ->
  exists R', modmul_sw fuel A B N R w = Some R' /\
    length R' = length R /\ inrange w R' /\
    (forall k : nat, (w <= k)%nat -> rd R' k = rd R k) /\
    value w R' = modmul_val w (value w N) (value w A) (value w B).
Proof.
  intros Hw HA HB HN Hlen HN1 Hfuel. unfold modmul_sw.
  destruct (low_words w A B R Hw HA HB Hlen) as (Hr & Hl & Hk & Hv).
  set (R1 := low_loop w 0 R _) in *.
  destruct (reduce_loop_spec w N fuel R1) as (R' & Hrun & Hlen' & Hr' & Hk' & Hv').
  - rewrite Hl. exact Hlen.
  - exact Hr.
  - exact HN.
  - exact HN1.
  - rewrite Hv. exact Hfuel.
  - exists R'. split; [exact Hrun|]. split; [lia|]. split; [exact Hr'|]. split.
    + intros k Hk0. rewrite Hk' by lia. apply Hk. lia.
    + rewrite Hv', Hv. reflexivity.
Qed.

(** One [modmul_sw] call on operands not above a modulus whose square
    fits in [w] words. *)
Lemma modmul_sw_small (fuel : nat) (A B N R : list Z) (w : nat) :
  (w <= MAX_WORDS)%nat -> inrange w A -> inrange w B -> inrange w N ->
  (w <= length R)%nat -> 1 <= value w N ->
  value w N * value w N < wpow w ->
  value w A <= value w N -> value w B <= value w N ->
  value w N < Z.of_nat fuel ->
  exists R', modmul_sw fuel A B N R w = Some R' /\
    length R' = length R /\ inrange w R' /\
    (forall k : nat, (w <= k)%nat -> rd R' k = rd R k) /\
    value w R' = red (value w N) (value w A * value w B) /\
    value w R' <= value w N.
Proof.
  intros Hw HA HB HN Hlen HN1 Hsq HAle HBle Hfuel.
  pose proof (value_bounds w A HA) as HAb. pose proof (value_bounds w B HB) as HBb.
  pose proof (red_fits (value w N) (value w A) (value w B) HN1 ltac:(lia) ltac:(lia)) as Hp.
  assert (Hmod : (value w A * value w B) mod wpow w = value w A * value w B).
  { apply Z.mod_small. lia. }
  destruct (modmul_sw_value fuel A B N R w Hw HA HB HN Hlen HN1) as (R' & Hrun & Hl & Hr & Hk & Hv).
  - rewrite Hmod. apply Z.le_lt_trans with (value w N); [|exact Hfuel].
    apply Z.div_le_upper_bound; lia.
  - exists R'. rewrite modmul_val_wpow, Hmod in Hv.
    split; [exact Hrun|]. split; [exact Hl|]. split; [exact Hr|]. split; [exact Hk|].
    split; [exact Hv|]. rewrite Hv. apply red_le; lia.
Qed.

(** C9.  For every width [w >= 1] and every modulus [N] of [w] words:
    - each pass of the reduction that subtracts (the comparison found the
      low words above [N]) lowers their value by exactly [value N];
    - when [value N >= 1] the reduction loop, and with it [modmul_sw],
      returns: some number of loop passes [n] is enough for every
      operand pair, and more fuel changes nothing;
    - when [value N = 0] and the low [w] words of the product are not
      zero, [modmul_sw] returns for no amount of fuel: the precondition
      [value N >= 1] is necessary. *)
Theorem modmul_sw_terminates (w : nat) (A B N R : list Z) :
  (1 <= w)%nat -> bignum w N -> (w <= length R)%nat ->
  (forall R1 : list Z,
     bignum w R1 -> cmp_loop w R1 N <> 0 ->
     value w (sub_loop w 0 R1 N 0) = value w R1 - value w N) /\
  (1 <= value w N ->
   exists (n : nat) (R' : list Z),
     forall fuel : nat, (n <= fuel)%nat -> modmul_sw fuel A B N R w = Some R') /\
  ((w <= MAX_WORDS)%nat -> bignum w A -> bignum w B ->
   value w N = 0 -> (value w A * value w B) mod 2 ^ (32 * Z.of_nat w) <> 0 ->
   forall fuel : nat, modmul_sw fuel A B N R w = None).
Proof.
  intros Hw HN Hlen. pose proof (bignum_inrange w N HN) as HNr. split; [|split].
  - intros R1 HR1 Hcmp. pose proof (bignum_inrange w R1 HR1) as HR1r.
    rewrite cmp_loop_spec in Hcmp by assumption.
    destruct (Z.ltb_spec (value w N) (value w R1)) as [Hgt|Hle]; [|contradiction].
    apply (sub_loop_value w R1 N (proj1 HR1) HR1r HNr). lia.
  - intros HN1. unfold modmul_sw.
    set (R1 := low_loop w 0 R _).
    assert (Hr1 : inrange w R1) by (apply low_loop_inrange; exact Hlen).
    assert (Hl1 : (w <= length R1)%nat) by (unfold R1; rewrite low_loop_length; exact Hlen).
    pose proof (value_bounds w R1 Hr1) as Hb.
    set (n := S (Z.to_nat (value w R1 / value w N))).
    destruct (reduce_loop_spec w N n R1 Hl1 Hr1 HNr HN1) as (R' & Hrun & _).
    { pose proof (Z.div_pos (value w R1) (value w N) ltac:(lia) ltac:(lia)). lia. }
    exists n, R'. intros fuel Hfuel. eapply reduce_loop_mono; [exact Hfuel|exact Hrun].
  - intros Hmax HA HB HN0 Hprod fuel. unfold modmul_sw.
    destruct (low_words w A B R Hmax (bignum_inrange w A HA) (bignum_inrange w B HB) Hlen)
      as (Hr & Hl & _ & Hv).
    apply reduce_loop_diverges; try assumption.
    + rewrite Hl. exact Hlen.
    + rewrite Hv. fold (wpow w) in Hprod.
      pose proof (Z.mod_pos_bound (value w A * value w B) (wpow w) (wpow_pos w)). lia.
Qed.

Lemma modmul_sw_terminates_witness :
  value 32 (sub_loop 32 0 (pad 32 20) (pad 32 15) 0) = value 32 (pad 32 20) - value 32 (pad 32 15) /\
  (exists (n : nat) (R' : list Z),
     forall fuel : nat, (n <= fuel)%nat ->
       modmul_sw fuel (pad 32 3) (pad 32 5) (pad 32 15) (replicate 32 0) 32 = Some R') /\
  (forall fuel : nat,
     modmul_sw fuel (pad 32 3) (pad 32 5) (pad 32 0) (replicate 32 0) 32 = None).
Proof.
  split; [|split].
  - apply (modmul_sw_terminates 32 (pad 32 3) (pad 32 5) (pad 32 15) (replicate 32 0)).
    + lia.
    + apply bignumb_true. vm_compute. reflexivity.
    + vm_compute. lia.
    + apply bignumb_true. vm_compute. reflexivity.
    + vm_compute. discriminate.
  - apply (modmul_sw_terminates 32 (pad 32 3) (pad 32 5) (pad 32 15) (replicate 32 0)).
    + lia.
    + apply bignumb_true. vm_compute. reflexivity.
    + vm_compute. lia.
    + vm_compute. discriminate.
  - apply (modmul_sw_terminates 32 (pad 32 3) (pad 32 5) (pad 32 0) (replicate 32 0)).
    + lia.
    + apply bignumb_true. vm_compute. reflexivity.
    + vm_compute. lia.
    + vm_compute. lia.
    + apply bignumb_true. vm_compute. reflexivity.
    + apply bignumb_true. vm_compute. reflexivity.
    + vm_compute. reflexivity.
    + vm_compute. discriminate.
Defined.

(** C2, at a failing input.  [A = B = 2^512] and [N = 2^1024 - 1] on 32
    words: the operands are reduced and [N] is odd, [(A * B) mod N = 1],
    and [modmul_sw] returns 0.  The high half of the product in [tmp]
    never reaches [R]. *)
Theorem modmul_sw_drops_high_half :
  let A := <[16%nat := 1]> (replicate 32 0) in
  let N := replicate 32 (2 ^ 32 - 1) in
  bignum 32 A /\ bignum 32 N /\ Z.odd (value 32 N) = true /\ value 32 A < value 32 N /\
  (value 32 A * value 32 A) mod value 32 N = 1 /\
  exists R', modmul_sw 1 A A N (replicate 32 0) 32 = Some R' /\ value 32 R' = 0.
Proof.
  cbv zeta. split; [apply bignumb_true; vm_compute; reflexivity|].
  split; [apply bignumb_true; vm_compute; reflexivity|].
  split; [vm_compute; reflexivity|]. split; [vm_compute; reflexivity|].
  split; [vm_compute; reflexivity|].
  eexists. split; vm_compute; reflexivity.
Qed.

(** C4, at a failing input.  [A = 3], [B = 5] and [N = 15] on 32 words:
    [modmul_sw] returns a number equal to [N], not below it.  The
    comparison answers 0 on equal arrays and the reduction stops. *)
Theorem modmul_sw_stops_at_modulus :
  let A := pad 32 3 in
  let B := pad 32 5 in
  let N := pad 32 15 in
  bignum 32 A /\ bignum 32 B /\ bignum 32 N /\
  value 32 A < value 32 N /\ value 32 B < value 32 N /\
  exists R', modmul_sw 1 A B N (replicate 32 0) 32 = Some R' /\
    value 32 R' = value 32 N /\ cmp_loop 32 R' N = 0.
Proof.
  cbv zeta. split; [apply bignumb_true; vm_compute; reflexivity|].
  split; [apply bignumb_true; vm_compute; reflexivity|].
  split; [apply bignumb_true; vm_compute; reflexivity|].
  split; [vm_compute; reflexivity|]. split; [vm_compute; reflexivity|].
  eexists. split; [vm_compute; reflexivity|]. split; vm_compute; reflexivity.
Qed.

(** ** The inverse modulo 2^32 *)

Lemma odd_coprime_pow2 (k n : Z) : 0 <= k -> Z.odd n = true -> Z.coprime (2 ^ k) n.
Proof.
  intros Hk Hodd. apply Z.coprime_pow_l; [exact Hk|].
  apply Z.coprime_prime_l; [exact Z.prime_2|].
  intros [m Hm]. apply Z.odd_spec in Hodd as [j Hj]. lia.
Qed.

(** The loop of [modinv32] from a state of the extended Euclidean
    algorithm on [2^32] and [n]: the coefficients alternate in sign and
    stay within [2^32] in absolute value, so no operation overflows. *)
Lemma modinv32_loop_spec (n : Z) fuel : forall t new_t r new_r,
  0 <= new_r <= r -> 0 < r <= 2 ^ 32 -> r * new_r < 2 ^ Z.of_nat fuel ->
  (t * n) mod 2 ^ 32 = r mod 2 ^ 32 ->
  (new_t * n) mod 2 ^ 32 = new_r mod 2 ^ 32 ->
  (t <= 0 <= new_t /\ new_t * r - t * new_r = 2 ^ 32) \/
  (new_t <= 0 <= t /\ t * new_r - new_t * r = 2 ^ 32) ->
  - 2 ^ 32 <= t <= 2 ^ 32 ->
  exists t', modinv32_loop (S fuel) t new_t r new_r = Some t' /\
    - 2 ^ 32 <= t' <= 2 ^ 32 /\
    (t' * n) mod 2 ^ 32 = Z.gcd r new_r mod 2 ^ 32.
Proof.
  induction fuel as [|fuel IH]; intros t new_t r new_r Hnr Hr Hprod Ht Hnt Hdet Hbt.
  - assert (new_r = 0) by (change (2 ^ Z.of_nat 0) with 1 in Hprod; nia). subst new_r.
    exists t. cbn. split; [reflexivity|]. split; [exact Hbt|].
    rewrite Z.gcd_0_r, Z.abs_eq by lia. exact Ht.
  - cbn [modinv32_loop]. destruct (Z.eqb_spec new_r 0) as [->|Hne].
    + exists t. split; [reflexivity|]. split; [exact Hbt|].
      rewrite Z.gcd_0_r, Z.abs_eq by lia. exact Ht.
    + rewrite Z.quot_div_nonneg by lia.
      pose proof (Z.div_mod r new_r Hne) as Hdm.
      pose proof (Z.mod_pos_bound r new_r ltac:(lia)) as Hm.
      assert (Hq : 1 <= r / new_r) by (apply Z.div_le_lower_bound; lia).
      assert (Hqr : 0 <= r / new_r * new_r <= r) by nia.
      set (q := r / new_r) in *.
      assert (Hqt : - 2 ^ 32 <= q * new_t <= 2 ^ 32) by nia.
      assert (Hnt' : - 2 ^ 32 <= t - q * new_t <= 2 ^ 32) by nia.
      rewrite (int64_fits q) by lia. cbn [mbind option_bind].
      rewrite (int64_fits (q * new_t)) by lia. cbn [mbind option_bind].
      rewrite (int64_fits (t - q * new_t)) by lia. cbn [mbind option_bind].
      rewrite (int64_fits (q * new_r)) by lia. cbn [mbind option_bind].
      replace (r - q * new_r) with (r mod new_r) by lia.
      rewrite (int64_fits (r mod new_r)) by lia. cbn [mbind option_bind].
      destruct (IH new_t (t - q * new_t) new_r (r mod new_r)) as (t' & Hrun & Hb & Hres).
      * lia.
      * lia.
      * rewrite Nat2Z.inj_succ, Z.pow_succ_r in Hprod by lia. nia.
      * exact Hnt.
      * rewrite Z.mul_sub_distr_r, Zminus_mod.
        rewrite <- Z.mul_assoc, (Z.mul_mod q), Hnt, <- Z.mul_mod by lia.
        rewrite Ht. rewrite <- Zminus_mod. f_equal. lia.
      * replace (r mod new_r) with (r - q * new_r) by lia.
        destruct Hdet as [(Hs & Hd)|(Hs & Hd)]; [right|left]; split; nia.
      * nia.
      * exists t'. split; [exact Hrun|]. split; [exact Hb|]. rewrite Hres. f_equal.
        rewrite (Z.gcd_comm new_r (r mod new_r)), (Z.gcd_mod r new_r Hne). apply Z.gcd_comm.
Qed.

Lemma modinv32_run (n : Z) :
  0 <= n < 2 ^ 32 ->
  exists t, modinv32_loop 80 0 1 (2 ^ 32) n = Some t /\
    - 2 ^ 32 <= t <= 2 ^ 32 /\ (t * n) mod 2 ^ 32 = Z.gcd (2 ^ 32) n mod 2 ^ 32.
Proof.
  intros Hn. apply (modinv32_loop_spec n 79).
  - lia.
  - lia.
  - change (2 ^ Z.of_nat 79) with (2 ^ 32 * 2 ^ 47). nia.
  - reflexivity.
  - f_equal. lia.
  - left. lia.
  - lia.
Qed.

(** [modinv32] returns on every 32-bit argument. *)
Lemma modinv32_total (n : Z) : 0 <= n < 2 ^ 32 -> exists v, modinv32 n = Some v.
Proof.
  intros Hn. unfold modinv32. change (u64 (Z.shiftl 1 32)) with (2 ^ 32).
  change (Z.shiftl 1 32) with (2 ^ 32).
  rewrite (int64_fits (2 ^ 32)) by lia. cbn [mbind option_bind].
  destruct (modinv32_run n Hn) as (t & Hrun & Hb & _). rewrite Hrun. cbn [mbind option_bind].
  destruct (Z.ltb_spec t 0).
  - rewrite (int64_fits (t + 2 ^ 32)) by lia. eexists. reflexivity.
  - eexists. reflexivity.
Qed.

(** C6.  For every odd 32-bit [n], [modinv32] returns (no [int64_t]
    operation overflows and the loop ends) a value [v] in [0, 2^32) with
    [v * n = 1] modulo [2^32]. *)
Theorem modinv32_inverse (n : Z) :
  0 <= n < 2 ^ 32 -> Z.odd n = true ->
  exists v, modinv32 n = Some v /\ 0 <= v < 2 ^ 32 /\ (v * n) mod 2 ^ 32 = 1.
Proof.
  intros Hn Hodd. unfold modinv32. change (u64 (Z.shiftl 1 32)) with (2 ^ 32).
  change (Z.shiftl 1 32) with (2 ^ 32).
  rewrite (int64_fits (2 ^ 32)) by lia. cbn [mbind option_bind].
  destruct (modinv32_run n Hn) as (t & Hrun & Hb & Hres). rewrite Hrun. cbn [mbind option_bind].
  rewrite (odd_coprime_pow2 32 n ltac:(lia) Hodd) in Hres.
  destruct (Z.ltb_spec t 0).
  - rewrite (int64_fits (t + 2 ^ 32)) by lia. cbn [mbind option_bind].
    eexists. split; [reflexivity|]. split; [apply u32_range|].
    unfold u32. rewrite Z.mul_mod_idemp_l by lia.
    rewrite Z.mul_add_distr_r, (Z.mul_comm (2 ^ 32) n), Z_mod_plus_full. exact Hres.
  - cbn [mbind option_bind]. eexists. split; [reflexivity|]. split; [apply u32_range|].
    unfold u32. rewrite Z.mul_mod_idemp_l by lia. exact Hres.
Qed.

Lemma modinv32_inverse_witness :
  exists v, modinv32 3233 = Some v /\ 0 <= v < 2 ^ 32 /\ (v * 3233) mod 2 ^ 32 = 1.
Proof. apply (modinv32_inverse 3233); [lia|reflexivity]. Defined.

(** ** The Montgomery parameters of the toy key *)

Lemma double_loop_spec (n0 : Z) k : forall r,
  1 <= n0 < 2 ^ 32 -> 0 <= r < 2 ^ 32 ->
  double_loop k r n0 = if k is O then r else (r * 2 ^ Z.of_nat k) mod n0.
Proof.
  induction k as [|k IH]; intros r Hn Hr; [reflexivity|].
  cbn [double_loop]. rewrite (u64_small (r * 2)) by lia.
  pose proof (Z.mod_pos_bound (r * 2) n0 ltac:(lia)) as Hb.
  rewrite IH by lia. destruct k as [|k].
  - change (2 ^ Z.of_nat 1) with 2. reflexivity.
  - rewrite (Nat2Z.inj_succ (S k)), (Z.pow_succ_r 2 (Z.of_nat (S k))) by lia.
    rewrite Z.mul_mod_idemp_l by lia. f_equal. lia.
Qed.

Lemma compute_R2_modN_32_spec (n0 : Z) (w : nat) :
  1 <= n0 < 2 ^ 32 -> (1 <= w)%nat -> 32 * Z.of_nat w < 2 ^ 32 ->
  compute_R2_modN_32 n0 w = (wpow w * wpow w) mod n0.
Proof.
  intros Hn Hw Hbits. unfold compute_R2_modN_32.
  rewrite (u32_small (32 * Z.of_nat w)) by lia.
  rewrite double_loop_spec by lia.
  destruct (Z.to_nat (32 * Z.of_nat w)) as [|k] eqn:Hk; [lia|]. rewrite <- Hk.
  rewrite Z2Nat.id by lia. rewrite Z.mul_1_l. fold (wpow w).
  pose proof (Z.mod_pos_bound (wpow w) n0 ltac:(lia)) as Hb.
  rewrite (u64_small (_ * _)) by nia.
  rewrite <- Z.mul_mod by lia.
  apply u32_small. pose proof (Z.mod_pos_bound (wpow w * wpow w) n0 ltac:(lia)). lia.
Qed.

Lemma RSA_N_value (w : nat) : (1 <= w <= MAX_WORDS)%nat -> value w RSA_N = 3233.
Proof.
  intros Hw. rewrite value_low_word; [reflexivity|lia|].
  intros k Hk. unfold RSA_N. destruct k as [|k]; [lia|].
  change (rd (3233 :: replicate (MAX_WORDS - 1) 0) (S k)) with (rd (replicate (MAX_WORDS - 1) 0) k).
  apply rd_zeros.
Qed.

Lemma RSA_N_inrange (w : nat) : inrange w RSA_N.
Proof.
  intros k Hk. unfold RSA_N. destruct k as [|k].
  - change (rd (3233 :: _) 0) with 3233. lia.
  - change (rd (3233 :: replicate (MAX_WORDS - 1) 0) (S k)) with (rd (replicate (MAX_WORDS - 1) 0) k).
    rewrite rd_zeros. lia.
Qed.

Lemma RSA_N_bignum (w : nat) : (w <= MAX_WORDS)%nat -> bignum w RSA_N.
Proof. intros Hw. apply inrange_bignum; [exact Hw|apply RSA_N_inrange]. Qed.

(** The Montgomery parameters the program derives for the toy key. *)
Lemma init_mont_params_for_size_spec (w : nat) (R2_out : list Z) :
  (1 <= w <= MAX_WORDS)%nat -> (w <= length R2_out)%nat ->
  exists R2 nprime, init_mont_params_for_size w R2_out = Some (R2, nprime) /\
    length R2 = length R2_out /\ inrange w R2 /\
    value w R2 = (wpow w * wpow w) mod 3233 /\
    (forall k : nat, (w <= k)%nat -> rd R2 k = rd R2_out k).
Proof.
  intros Hw Hlen. unfold init_mont_params_for_size.
  change (rd RSA_N 0) with 3233.
  destruct (modinv32_total 3233 ltac:(lia)) as (inv & Hinv). rewrite Hinv.
  eexists _, _. split; [reflexivity|].
  assert (Hw32 : 32 * Z.of_nat w < 2 ^ 32) by (unfold MAX_WORDS, NWORDS_2048 in Hw; lia).
  rewrite compute_R2_modN_32_spec by lia.
  pose proof (Z.mod_pos_bound (wpow w * wpow w) 3233 ltac:(lia)) as Hb.
  set (r2 := (wpow w * wpow w) mod 3233) in *.
  assert (Hl : length (zero_loop w 0 R2_out) = length R2_out) by apply zero_loop_length.
  assert (Hrd : forall k : nat, rd (<[0%nat := r2]> (zero_loop w 0 R2_out)) k
                = if decide (k = 0%nat) then r2 else if decide (k < w)%nat then 0 else rd R2_out k).
  { intros k. destruct (decide (k = 0%nat)) as [->|Hne].
    - apply rd_insert_eq. lia.
    - rewrite rd_insert_ne by lia. rewrite zero_loop_rd by lia.
      destruct (decide (0 <= k < 0 + w)%nat), (decide (k < w)%nat); try lia; reflexivity. }
  split; [rewrite length_insert; exact Hl|]. split; [|split].
  - intros k Hk. rewrite Hrd. destruct (decide (k = 0%nat)); [lia|].
    destruct (decide (k < w)%nat); lia.
  - rewrite value_low_word.
    + rewrite Hrd. reflexivity.
    + lia.
    + intros k Hk. rewrite Hrd. destruct (decide (k = 0%nat)); [lia|].
      destruct (decide (k < w)%nat); [reflexivity|lia].
  - intros k Hk. rewrite Hrd. destruct (decide (k = 0%nat)); [lia|].
    destruct (decide (k < w)%nat); [lia|reflexivity].
Qed.

(** ** The accelerator port *)

Lemma leading_busy_le (vs : list Z) : (leading_busy vs <= length vs)%nat.
Proof.
  induction vs as [|v vs IH]; cbn [leading_busy length]; [lia|].
  destruct (busy v); lia.
Qed.

Lemma leading_busy_all (vs : list Z) :
  leading_busy vs = length vs <-> Forall (fun v => Z.land v 1 = 0) vs.
Proof.
  induction vs as [|v vs IH]; cbn [leading_busy length].
  - split; [constructor|reflexivity].
  - unfold busy. destruct (Z.eqb_spec (Z.land v 1) 0) as [Hz|Hnz].
    + split.
      * intros Heq. constructor; [exact Hz|]. apply IH. lia.
      * intros Hall. inversion Hall; subst. f_equal. apply IH. assumption.
    + split; [lia|]. intros Hall. inversion Hall; subst. contradiction.
Qed.

Lemma quiet_app (l1 l2 : list event) : quiet l1 -> quiet l2 -> quiet (l1 ++ l2).
Proof. unfold quiet. intros. apply Forall_app. auto. Qed.

Lemma quiet_operand_events (base_addr : Z) (A B N : list Z) n : forall i,
  quiet (operand_events n i base_addr A B N).
Proof.
  induction n as [|n IH]; intros i; cbn [operand_events]; [constructor|].
  repeat (constructor; [reflexivity|]). apply IH.
Qed.

Lemma quiet_start_events (base_addr : Z) (w : nat) (A B N : list Z) (nprime : Z) :
  quiet (start_events base_addr w A B N nprime).
Proof.
  unfold start_events. apply quiet_app; [apply quiet_operand_events|].
  repeat (constructor; [reflexivity|]). constructor.
Qed.

Lemma quiet_status_events (base_addr : Z) (vs : list Z) : quiet (status_events base_addr vs).
Proof.
  unfold quiet, status_events. apply Forall_map. apply Forall_forall. reflexivity.
Qed.

Lemma quiet_result_events (base_addr : Z) vs : forall i, quiet (result_events base_addr i vs).
Proof.
  induction vs as [|v vs IH]; intros i; cbn [result_events]; [constructor|].
  constructor; [reflexivity|apply IH].
Qed.

Create HintDb trace.
#[local] Hint Resolve quiet_app quiet_operand_events quiet_start_events
  quiet_status_events quiet_result_events : trace.

Lemma outcome_app (label : string) (base_addr ok : Z) (seg1 seg2 : list event) :
  quiet seg1 -> outcome label base_addr ok seg2 -> outcome label base_addr ok (seg1 ++ seg2).
Proof.
  intros Hq [(Hok & Hq2)|(Hok & seg0 & Heq & Hq0)].
  - left. split; [exact Hok|]. auto with trace.
  - right. split; [exact Hok|]. exists (seg1 ++ seg0). split.
    + rewrite Heq, app_assoc. reflexivity.
    + auto with trace.
Qed.

Section Port.
Context {D : Type} `{Device D}.

Lemma bind_run {A B : Type} (c : M D A) (f : A -> M D B) (s : world D) :
  (c ≫= f) s = match c s with Some (a, s') => f a s' | None => None end.
Proof. reflexivity. Qed.

Lemma ret_run {A : Type} (a : A) (s : world D) : (mret a : M D A) s = Some (a, s).
Proof. reflexivity. Qed.

Lemma Xil_Out32_run (addr val : Z) (s : world D) :
  Xil_Out32 addr val s
  = Some (tt, World (reg_write (dev s) addr val) (trace s ++ [EvOut addr val])).
Proof. reflexivity. Qed.

Lemma Xil_In32_run (addr : Z) (s : world D) :
  Xil_In32 addr s
  = Some (u32 (reg_read (dev s) addr).1,
          World (reg_read (dev s) addr).2 (trace s ++ [EvIn addr (u32 (reg_read (dev s) addr).1)])).
Proof. unfold Xil_In32. destruct (reg_read (dev s) addr). reflexivity. Qed.

Lemma write_operands_run (base_addr : Z) (A B N : list Z) n : forall i s,
  exists s', write_operands n i base_addr A B N s = Some (tt, s') /\
    trace s' = trace s ++ operand_events n i base_addr A B N.
Proof.
  induction n as [|n IH]; intros i s.
  - exists s. cbn [write_operands operand_events]. rewrite ret_run, app_nil_r. auto.
  - cbn [write_operands operand_events]. rewrite !bind_run, Xil_Out32_run.
    rewrite !bind_run, Xil_Out32_run. rewrite !bind_run, Xil_Out32_run.
    destruct (IH (S i) (World (reg_write (reg_write (reg_write (dev s) (REG_A base_addr i)
                 (rd A i)) (REG_B base_addr i) (rd B i)) (REG_N base_addr i) (rd N i))
                 (((trace s ++ [EvOut (REG_A base_addr i) (rd A i)])
                   ++ [EvOut (REG_B base_addr i) (rd B i)])
                   ++ [EvOut (REG_N base_addr i) (rd N i)]))) as (s' & Hrun & Htr).
    exists s'. cbn [dev trace] in *. split; [exact Hrun|]. rewrite Htr.
    rewrite <- !app_assoc. reflexivity.
Qed.

Lemma write_operands_dev (base_addr : Z) (A B N : list Z) n : forall i (s s' : world D),
  write_operands n i base_addr A B N s = Some (tt, s') ->
  dev s' = after_operands n i base_addr A B N (dev s).
Proof.
  induction n as [|n IH]; intros i s s' Hrun.
  - cbn [write_operands] in Hrun. rewrite ret_run in Hrun. injection Hrun as <-. reflexivity.
  - cbn [write_operands after_operands] in *.
    rewrite !bind_run, Xil_Out32_run in Hrun. rewrite !bind_run, Xil_Out32_run in Hrun.
    rewrite !bind_run, Xil_Out32_run in Hrun. apply IH in Hrun. exact Hrun.
Qed.

Lemma started_run (base_addr : Z) (w : nat) (A B N : list Z) (nprime : Z) (s : world D) :
  exists s1, started base_addr w A B N nprime s = Some (tt, s1) /\
    trace s1 = trace s ++ start_events base_addr w A B N nprime.
Proof.
  unfold started, start_events.
  destruct (write_operands_run base_addr A B N w 0 s) as (s0 & Hrun & Htr).
  rewrite bind_run, Hrun, bind_run, Xil_Out32_run, Xil_Out32_run. cbn [dev trace].
  eexists. split; [reflexivity|]. cbn [trace]. rewrite Htr, <- !app_assoc. reflexivity.
Qed.

Lemma started_dev (base_addr : Z) (w : nat) (A B N : list Z) (nprime : Z) (s s1 : world D) :
  started base_addr w A B N nprime s = Some (tt, s1) ->
  dev s1 = after_start base_addr w A B N nprime (dev s).
Proof.
  unfold started, after_start. rewrite bind_run.
  destruct (write_operands w 0 base_addr A B N s) as [[[] s0]|] eqn:Hw; [|discriminate].
  apply write_operands_dev in Hw. rewrite bind_run, Xil_Out32_run, Xil_Out32_run.
  intros Heq. injection Heq as <-. cbn [dev]. rewrite Hw. reflexivity.
Qed.

Lemma status_reads_S (n : nat) (base_addr : Z) (d : D) :
  status_reads (S n) base_addr d
  = u32 (reg_read d (REG_STATUS base_addr)).1
      :: status_reads n base_addr (reg_read d (REG_STATUS base_addr)).2.
Proof. cbn [status_reads]. destruct (reg_read d (REG_STATUS base_addr)). reflexivity. Qed.

Lemma status_reads_length (n : nat) (base_addr : Z) : forall d : D,
  length (status_reads n base_addr d) = n.
Proof.
  induction n as [|n IH]; intros d; [reflexivity|].
  rewrite status_reads_S. cbn [length]. rewrite IH. reflexivity.
Qed.

(** The bounded poll.  With [polls] failed polls behind it, the loop
    reads the status at most [timeout - polls + 1] more times: it leaves
    at the first value with bit 0 set and gives up when all of them have
    it clear. *)
Lemma poll_loop_spec (timeout base_addr : Z) (label : string) fuel : forall polls s,
  0 <= polls <= timeout -> timeout < 2 ^ 32 - 1 ->
  (Z.to_nat (timeout - polls) < fuel)%nat ->
  let vs := status_reads (S (Z.to_nat (timeout - polls))) base_addr (dev s) in
  let k := leading_busy vs in
  exists s',
    ((k < length vs)%nat /\
     poll_loop fuel timeout polls base_addr label s = Some (1, s') /\
     trace s' = trace s ++ status_events base_addr (take (S k) vs) /\
     dev s' = after_status (S k) base_addr (dev s))
    \/
    (k = length vs /\
     poll_loop fuel timeout polls base_addr label s = Some (0, s') /\
     trace s' = trace s ++ status_events base_addr vs ++ [EvTimeout label base_addr]).
Proof.
  induction fuel as [|fuel IH]; intros polls s Hp Ht Hfuel; [lia|].
  cbv zeta. rewrite status_reads_S. cbn [leading_busy poll_loop].
  rewrite bind_run, Xil_In32_run.
  set (v := u32 (reg_read (dev s) (REG_STATUS base_addr)).1).
  set (d1 := (reg_read (dev s) (REG_STATUS base_addr)).2).
  unfold busy. destruct (Z.land v 1 =? 0) eqn:Hbit.
  - rewrite (u32_small (polls + 1)) by lia.
    destruct (Z.gtb_spec (polls + 1) timeout) as [Hgt|Hle].
    + assert (Hz : Z.to_nat (timeout - polls) = 0%nat) by lia. rewrite Hz.
      cbn [status_reads leading_busy length].
      rewrite bind_run. eexists. right. split; [reflexivity|]. split; [reflexivity|].
      cbn [trace status_events map]. rewrite <- app_assoc. reflexivity.
    + assert (Hz : Z.to_nat (timeout - polls) = S (Z.to_nat (timeout - (polls + 1)))) by lia.
      rewrite Hz.
      destruct (IH (polls + 1) (World d1 (trace s ++ [EvIn (REG_STATUS base_addr) v]))
                  ltac:(lia) Ht ltac:(lia)) as (s' & Hshape).
      cbv zeta in Hshape. cbn [dev trace] in Hshape.
      set (vs := status_reads (S (Z.to_nat (timeout - (polls + 1)))) base_addr d1) in *.
      exists s'. cbn [length].
      destruct Hshape as [(Hlt & Hrun & Htr & Hdev)|(Heq & Hrun & Htr)].
      * left. split; [lia|]. split; [exact Hrun|]. split.
        -- rewrite Htr. cbn [take status_events map]. rewrite <- app_assoc. reflexivity.
        -- rewrite Hdev. reflexivity.
      * right. split; [lia|]. split; [exact Hrun|]. rewrite Htr. cbn [status_events map].
        rewrite <- app_assoc. reflexivity.
  - cbn [length]. rewrite ret_run. eexists. left. split; [lia|]. split; [reflexivity|].
    cbn [trace dev take status_events map]. split; reflexivity.
Qed.

Lemma result_reads_S (n i : nat) (base_addr : Z) (d : D) :
  result_reads (S n) i base_addr d
  = u32 (reg_read d (REG_RES base_addr i)).1
      :: result_reads n (S i) base_addr (reg_read d (REG_RES base_addr i)).2.
Proof. cbn [result_reads]. destruct (reg_read d (REG_RES base_addr i)). reflexivity. Qed.

Lemma result_reads_length (base_addr : Z) n : forall (i : nat) (d : D),
  length (result_reads n i base_addr d) = n.
Proof.
  induction n as [|n IH]; intros i d; [reflexivity|].
  rewrite result_reads_S. cbn [length]. rewrite IH. reflexivity.
Qed.

Lemma read_result_run (base_addr : Z) n : forall i R s,
  exists s', read_result n i base_addr R s
             = Some (store_words i (result_reads n i base_addr (dev s)) R, s') /\
    trace s' = trace s ++ result_events base_addr i (result_reads n i base_addr (dev s)).
Proof.
  induction n as [|n IH]; intros i R s.
  - exists s. cbn. rewrite app_nil_r. auto.
  - rewrite result_reads_S. cbn [read_result store_words result_events].
    rewrite bind_run, Xil_In32_run.
    destruct (IH (S i) (<[i := u32 (reg_read (dev s) (REG_RES base_addr i)).1]> R)
                (World (reg_read (dev s) (REG_RES base_addr i)).2
                   (trace s ++ [EvIn (REG_RES base_addr i)
                                  (u32 (reg_read (dev s) (REG_RES base_addr i)).1)])))
      as (s' & Hrun & Htr).
    cbn [dev trace] in *. exists s'. split; [exact Hrun|]. rewrite Htr, <- app_assoc.
    reflexivity.
Qed.

Lemma read_result_dev (base_addr : Z) n : forall i R (s : world D) R' s',
  read_result n i base_addr R s = Some (R', s') ->
  dev s' = after_results n i base_addr (dev s).
Proof.
  induction n as [|n IH]; intros i R s R' s' Hrun.
  - cbn [read_result] in Hrun. rewrite ret_run in Hrun. injection Hrun as _ <-. reflexivity.
  - cbn [read_result after_results] in *. rewrite bind_run, Xil_In32_run in Hrun.
    apply IH in Hrun. exact Hrun.
Qed.

(** The bound of the program is one the poll lemmas cover. *)
Lemma HW_DONE_TIMEOUT_range : 0 <= HW_DONE_TIMEOUT < 2 ^ 32 - 1.
Proof. unfold HW_DONE_TIMEOUT. lia. Qed.

Lemma montgomery_mul_hw_started (fuel : nat) (timeout base_addr : Z) (w : nat)
    (A B N : list Z) (nprime : Z) (R : list Z) (label : string) (s : world D) :
  montgomery_mul_hw fuel timeout base_addr w A B N nprime R label s
  = match started base_addr w A B N nprime s with
    | Some (_, s1) =>
        (done ← poll_loop fuel timeout 0 base_addr label;
         if done =? 0 then mret (0, R)
         else R' ← read_result w 0 base_addr R; mret (1, R')) s1
    | None => None
    end.
Proof.
  unfold started, montgomery_mul_hw. rewrite !bind_run.
  destruct (write_operands w 0 base_addr A B N s) as [[[] s0]|]; reflexivity.
Qed.

(** C7.  One call of [montgomery_mul_hw], on any device.  Let [vs] be
    the values the status register presents to the reads made with
    [polls = 0, 1, ..., timeout], from the device state the start command
    leaves.  The call returns 0 exactly when bit 0 is clear in all of
    [vs].  On that path [R] is unchanged and nothing is read but the
    status register: after the writes, the trace holds the status reads
    and the timeout report.  On the other path the call returns 1: it
    stops polling at the first value with bit 0 set and then reads
    exactly [nwords] result words, which become the first [nwords] words
    of [R].  [timeout] stands for [HW_DONE_TIMEOUT]; the bound
    [timeout < 2^32 - 1] keeps the poll counter from wrapping. *)
Theorem montgomery_mul_hw_timeout (fuel : nat) (timeout base_addr : Z) (w : nat)
    (A B N : list Z) (nprime : Z) (R : list Z) (label : string) (s : world D) :
  0 <= timeout < 2 ^ 32 - 1 -> (Z.to_nat timeout < fuel)%nat -> (w <= length R)%nat ->
  exists s1, started base_addr w A B N nprime s = Some (tt, s1) /\
    trace s1 = trace s ++ start_events base_addr w A B N nprime /\
    let vs := status_reads (S (Z.to_nat timeout)) base_addr (dev s1) in
    exists ok R' s',
      montgomery_mul_hw fuel timeout base_addr w A B N nprime R label s = Some ((ok, R'), s') /\
      (ok = 0 <-> Forall (fun v => Z.land v 1 = 0) vs) /\
      (ok = 0 ->
         R' = R /\
         trace s' = trace s1 ++ status_events base_addr vs ++ [EvTimeout label base_addr]) /\
      (ok <> 0 ->
         ok = 1 /\
         exists res, length res = w /\ R' = res ++ drop w R /\
           trace s' = trace s1 ++ status_events base_addr (take (S (leading_busy vs)) vs)
                        ++ result_events base_addr 0 res).
Proof.
  intros Ht Hfuel Hlen.
  destruct (started_run base_addr w A B N nprime s) as (s1 & Hstart & Htr1).
  exists s1. split; [exact Hstart|]. split; [exact Htr1|]. cbv zeta.
  rewrite montgomery_mul_hw_started, Hstart.
  destruct (poll_loop_spec timeout base_addr label fuel 0 s1 ltac:(lia) ltac:(lia)
              ltac:(rewrite Z.sub_0_r; exact Hfuel)) as (s2 & Hpoll).
  cbv zeta in Hpoll. rewrite Z.sub_0_r in Hpoll.
  set (vs := status_reads (S (Z.to_nat timeout)) base_addr (dev s1)) in *.
  destruct Hpoll as [(Hlt & Hrun & Htr & Hdev)|(Heq & Hrun & Htr)].
  - destruct (read_result_run base_addr w 0 R s2) as (s3 & Hread & Htr3).
    exists 1, (store_words 0 (result_reads w 0 base_addr (dev s2)) R), s3.
    rewrite bind_run, Hrun. change (1 =? 0) with false. cbv iota.
    rewrite bind_run, Hread, ret_run.
    split; [reflexivity|]. split; [|split].
    + split; [discriminate|]. intros Hall. apply leading_busy_all in Hall. lia.
    + discriminate.
    + intros _. split; [reflexivity|].
      exists (result_reads w 0 base_addr (dev s2)).
      pose proof (result_reads_length base_addr w 0 (dev s2)) as Hl.
      split; [exact Hl|]. split.
      * rewrite store_words_0 by lia. rewrite Hl. reflexivity.
      * rewrite Htr3, Htr, <- app_assoc. reflexivity.
  - exists 0, R, s2. rewrite bind_run, Hrun. change (0 =? 0) with true. cbv iota.
    rewrite ret_run. split; [reflexivity|]. split; [|split].
    + split; [|reflexivity]. intros _. apply leading_busy_all. exact Heq.
    + intros _. split; [reflexivity|exact Htr].
    + intros Hne. contradiction.
Qed.

(** The outcome of one call: it returns 1 without a timeout report, or
    it returns 0, leaves [R] alone and its last event is its report. *)
Lemma montgomery_mul_hw_shape (fuel : nat) (timeout base_addr : Z) (w : nat)
    (A B N : list Z) (nprime : Z) (R : list Z) (label : string) (s : world D) :
  0 <= timeout < 2 ^ 32 - 1 -> (Z.to_nat timeout < fuel)%nat ->
  exists ok R' s' seg,
    montgomery_mul_hw fuel timeout base_addr w A B N nprime R label s = Some ((ok, R'), s') /\
    trace s' = trace s ++ seg /\
    ((ok = 1 /\ quiet seg) \/
     (ok = 0 /\ R' = R /\
      exists seg0, seg = seg0 ++ [EvTimeout label base_addr] /\ quiet seg0)).
Proof.
  intros Ht Hfuel.
  destruct (started_run base_addr w A B N nprime s) as (s1 & Hstart & Htr1).
  rewrite montgomery_mul_hw_started, Hstart.
  destruct (poll_loop_spec timeout base_addr label fuel 0 s1 ltac:(lia) ltac:(lia)
              ltac:(rewrite Z.sub_0_r; exact Hfuel)) as (s2 & Hpoll).
  cbv zeta in Hpoll. rewrite Z.sub_0_r in Hpoll.
  set (vs := status_reads (S (Z.to_nat timeout)) base_addr (dev s1)) in *.
  destruct Hpoll as [(Hlt & Hrun & Htr & Hdev)|(Heq & Hrun & Htr)].
  - destruct (read_result_run base_addr w 0 R s2) as (s3 & Hread & Htr3).
    eexists 1, _, s3, _. rewrite bind_run, Hrun. change (1 =? 0) with false. cbv iota.
    rewrite bind_run, Hread, ret_run. split; [reflexivity|]. split.
    + rewrite Htr3, Htr, Htr1, <- !app_assoc. reflexivity.
    + left. split; [reflexivity|]. auto with trace.
  - eexists 0, R, s2, _. rewrite bind_run, Hrun. change (0 =? 0) with true. cbv iota.
    rewrite ret_run. split; [reflexivity|]. split.
    + rewrite Htr, Htr1, <- !app_assoc. reflexivity.
    + right. split; [reflexivity|]. split; [reflexivity|].
      exists (start_events base_addr w A B N nprime ++ status_events base_addr vs).
      split; [rewrite <- app_assoc; reflexivity|]. auto with trace.
Qed.

(** A call that returns 0 has not touched [R]. *)
Lemma montgomery_mul_hw_failure (fuel : nat) (timeout base_addr : Z) (w : nat)
    (A B N : list Z) (nprime : Z) (R : list Z) (label : string) (s : world D)
    (ok : Z) (R' : list Z) (s' : world D) :
  montgomery_mul_hw fuel timeout base_addr w A B N nprime R label s = Some ((ok, R'), s') ->
  ok = 0 -> R' = R.
Proof.
  rewrite montgomery_mul_hw_started.
  destruct (started base_addr w A B N nprime s) as [[[] s1]|]; [|discriminate].
  rewrite bind_run. destruct (poll_loop fuel timeout 0 base_addr label s1) as [[done s2]|];
    [|discriminate].
  destruct (done =? 0).
  - rewrite ret_run. intros Heq _. injection Heq as _ <- _. reflexivity.
  - rewrite bind_run. destruct (read_result w 0 base_addr R s2) as [[R1 s3]|]; [|discriminate].
    rewrite ret_run. intros Heq Hok. injection Heq as <- _ _. discriminate.
Qed.

(** A call on a device whose status bit comes up in time: the result
    words are read from the device state the poll has left. *)
Lemma montgomery_mul_hw_success (fuel : nat) (timeout base_addr : Z) (w : nat)
    (A B N : list Z) (nprime : Z) (R : list Z) (label : string) (s : world D) :
  0 <= timeout < 2 ^ 32 - 1 -> (Z.to_nat timeout < fuel)%nat ->
  let d1 := after_start base_addr w A B N nprime (dev s) in
  let k := leading_busy (status_reads (S (Z.to_nat timeout)) base_addr d1) in
  let d2 := after_status (S k) base_addr d1 in
  (k <= Z.to_nat timeout)%nat ->
  exists s',
    montgomery_mul_hw fuel timeout base_addr w A B N nprime R label s
    = Some ((1, store_words 0 (result_reads w 0 base_addr d2) R), s') /\
    dev s' = after_results w 0 base_addr d2.
Proof.
  intros Ht Hfuel d1 k d2 Hk.
  destruct (started_run base_addr w A B N nprime s) as (s1 & Hstart & _).
  pose proof (started_dev _ _ _ _ _ _ _ _ Hstart) as Hd1. fold d1 in Hd1.
  rewrite montgomery_mul_hw_started, Hstart.
  destruct (poll_loop_spec timeout base_addr label fuel 0 s1 ltac:(lia) ltac:(lia)
              ltac:(rewrite Z.sub_0_r; exact Hfuel)) as (s2 & Hpoll).
  cbv zeta in Hpoll. rewrite Z.sub_0_r, Hd1 in Hpoll. fold k in Hpoll. fold d2 in Hpoll.
  rewrite status_reads_length in Hpoll.
  destruct Hpoll as [(_ & Hrun & _ & Hdev)|(Heq & _)]; [|lia].
  destruct (read_result_run base_addr w 0 R s2) as (s3 & Hread & _).
  pose proof (read_result_dev _ _ _ _ _ _ _ Hread) as Hd3.
  rewrite Hdev in Hread, Hd3.
  exists s3. rewrite bind_run, Hrun. change (1 =? 0) with false. cbv iota.
  rewrite bind_run, Hread, ret_run. split; [reflexivity|exact Hd3].
Qed.

End Port.

Lemma montgomery_mul_hw_timeout_witness :
  exists s1,
    started 4096 1 [3] [5] [15] 0 (sim_world 4096 1 0 (Some 0%nat)) = Some (tt, s1) /\
    trace s1 = trace (sim_world 4096 1 0 (Some 0%nat)) ++ start_events 4096 1 [3] [5] [15] 0 /\
    let vs := status_reads (S (Z.to_nat 2)) 4096 (dev s1) in
    exists ok R' s',
      montgomery_mul_hw 4 2 4096 1 [3] [5] [15] 0 [7] lbl (sim_world 4096 1 0 (Some 0%nat))
      = Some ((ok, R'), s') /\
      (ok = 0 <-> Forall (fun v => Z.land v 1 = 0) vs) /\
      (ok = 0 ->
         R' = [7] /\ trace s' = trace s1 ++ status_events 4096 vs ++ [EvTimeout lbl 4096]) /\
      (ok <> 0 ->
         ok = 1 /\
         exists res, length res = 1%nat /\ R' = res ++ drop 1 [7] /\
           trace s' = trace s1 ++ status_events 4096 (take (S (leading_busy vs)) vs)
                        ++ result_events 4096 0 res).
Proof.
  apply (montgomery_mul_hw_timeout 4 2 4096 1 [3] [5] [15] 0 [7] lbl
           (sim_world 4096 1 0 (Some 0%nat))).
  - lia.
  - vm_compute. lia.
  - cbn. lia.
Defined.

(** ** Failures of the hardware exponentiation *)

Section Exponentiation.
Context {D : Type} `{Device D}.

Lemma montgomery_mul_hw_outcome (fuel : nat) (timeout base_addr : Z) (w : nat)
    (A B N : list Z) (nprime : Z) (R : list Z) (label : string) (s : world D) :
  0 <= timeout < 2 ^ 32 - 1 -> (Z.to_nat timeout < fuel)%nat ->
  exists ok R' s' seg,
    montgomery_mul_hw fuel timeout base_addr w A B N nprime R label s = Some ((ok, R'), s') /\
    trace s' = trace s ++ seg /\ outcome label base_addr ok seg.
Proof.
  intros Ht Hfuel.
  destruct (montgomery_mul_hw_shape fuel timeout base_addr w A B N nprime R label s Ht Hfuel)
    as (ok & R' & s' & seg & Hrun & Htr & Hout).
  exists ok, R', s', seg. split; [exact Hrun|]. split; [exact Htr|].
  destruct Hout as [(Hok & Hq)|(Hok & _ & Hseg)]; [left|right]; auto.
Qed.

Lemma hw_exp_loop_outcome (fuel : nat) (timeout base_addr exp : Z) (N : list Z)
    (nprime : Z) (w : nat) (label : string) n : forall bit x a (s : world D),
  0 <= timeout < 2 ^ 32 - 1 -> (Z.to_nat timeout < fuel)%nat ->
  exists ok x' a' s' seg,
    hw_exp_loop n fuel timeout base_addr bit exp N nprime x a w label s
    = Some ((ok, x', a'), s') /\
    trace s' = trace s ++ seg /\ outcome label base_addr ok seg.
Proof.
  induction n as [|n IH]; intros bit x a s Ht Hfuel.
  - exists 1, x, a, s, []. cbn [hw_exp_loop]. rewrite ret_run, app_nil_r.
    split; [reflexivity|]. split; [reflexivity|]. left. split; [reflexivity|constructor].
  - cbn [hw_exp_loop]. rewrite bind_run.
    assert (Hfirst : exists ok1 x1 s1 seg1,
      (if negb (Z.land (Z.shiftr exp bit) 1 =? 0)
       then montgomery_mul_hw fuel timeout base_addr w x a N nprime x label
       else mret (1, x)) s = Some ((ok1, x1), s1) /\
      trace s1 = trace s ++ seg1 /\ outcome label base_addr ok1 seg1).
    { destruct (negb (Z.land (Z.shiftr exp bit) 1 =? 0)).
      - apply montgomery_mul_hw_outcome; assumption.
      - exists 1, x, s, []. rewrite ret_run, app_nil_r. split; [reflexivity|].
        split; [reflexivity|]. left. split; [reflexivity|constructor]. }
    destruct Hfirst as (ok1 & x1 & s1 & seg1 & Hrun1 & Htr1 & Hout1). rewrite Hrun1.
    destruct Hout1 as [(-> & Hq1)|(-> & Hfail)].
    + change (1 =? 0) with false. cbv iota. rewrite bind_run.
      destruct (montgomery_mul_hw_outcome fuel timeout base_addr w a a N nprime a label s1
                  Ht Hfuel) as (ok2 & a2 & s2 & seg2 & Hrun2 & Htr2 & Hout2).
      rewrite Hrun2. destruct Hout2 as [(-> & Hq2)|(-> & Hfail)].
      * change (1 =? 0) with false. cbv iota.
        destruct (IH (bit + 1) x1 a2 s2 Ht Hfuel) as (ok & x' & a' & s' & seg & Hrun & Htr & Hout).
        exists ok, x', a', s', (seg1 ++ seg2 ++ seg). split; [exact Hrun|]. split.
        -- rewrite Htr, Htr2, Htr1, <- !app_assoc. reflexivity.
        -- apply outcome_app; [exact Hq1|]. apply outcome_app; [exact Hq2|exact Hout].
      * change (0 =? 0) with true. cbv iota. rewrite ret_run.
        exists 0, x1, a2, s2, (seg1 ++ seg2). split; [reflexivity|]. split.
        -- rewrite Htr2, Htr1, <- app_assoc. reflexivity.
        -- apply outcome_app; [exact Hq1|]. right. split; [reflexivity|exact Hfail].
    + change (0 =? 0) with true. cbv iota. rewrite ret_run.
      exists 0, x1, a, s1, seg1. split; [reflexivity|]. split; [exact Htr1|].
      right. split; [reflexivity|exact Hfail].
Qed.

(** C8.  A run of [modexp_hw_scalar], on any device.  First conjunct:
    every call of [montgomery_mul_hw] the run can make returns 1 and
    reports no timeout, or returns 0 and ends with its timeout report;
    so the calls that fail are the ones that report.  Second conjunct:
    the run returns 1 when no call has failed, and 0 when one has; the
    report of the failed call is then the last event of the run: no
    register is written or read after it, so no further call is made. *)
Theorem modexp_hw_scalar_aborts (fuel : nat) (timeout base_addr : Z) (base : list Z)
    (exp exp_bits : Z) (N : list Z) (nprime : Z) (R2 result : list Z) (w : nat)
    (label : string) (s : world D) :
  0 <= timeout < 2 ^ 32 - 1 -> (Z.to_nat timeout < fuel)%nat ->
  (forall (A B R : list Z) (s0 : world D),
     exists ok R' s' seg,
       montgomery_mul_hw fuel timeout base_addr w A B N nprime R label s0
       = Some ((ok, R'), s') /\
       trace s' = trace s0 ++ seg /\
       ((ok = 1 /\ quiet seg) \/
        (ok = 0 /\ exists seg0, seg = seg0 ++ [EvTimeout label base_addr] /\ quiet seg0))) /\
  exists ok result' s' seg,
    modexp_hw_scalar fuel timeout base_addr base exp exp_bits N nprime R2 result w label s
    = Some ((ok, result'), s') /\
    trace s' = trace s ++ seg /\
    ((ok = 1 /\ quiet seg) \/
     (ok = 0 /\ exists seg0, seg = seg0 ++ [EvTimeout label base_addr] /\ quiet seg0)).
Proof.
  intros Ht Hfuel. split.
  { intros A B R s0. apply montgomery_mul_hw_outcome; assumption. }
  unfold modexp_hw_scalar.
  set (one := bigint_set_u32 (replicate MAX_WORDS 0) 1 w).
  rewrite bind_run.
  destruct (montgomery_mul_hw_outcome fuel timeout base_addr w one R2 N nprime
              (replicate MAX_WORDS 0) label s Ht Hfuel)
    as (ok1 & x1 & s1 & seg1 & Hrun1 & Htr1 & Hout1).
  rewrite Hrun1. destruct Hout1 as [(-> & Hq1)|(-> & Hfail)].
  2:{ change (0 =? 0) with true. cbv iota. rewrite ret_run.
      exists 0, result, s1, seg1. split; [reflexivity|]. split; [exact Htr1|].
      right. split; [reflexivity|exact Hfail]. }
  change (1 =? 0) with false. cbv iota. rewrite bind_run.
  destruct (montgomery_mul_hw_outcome fuel timeout base_addr w base R2 N nprime
              (replicate MAX_WORDS 0) label s1 Ht Hfuel)
    as (ok2 & a2 & s2 & seg2 & Hrun2 & Htr2 & Hout2).
  rewrite Hrun2. destruct Hout2 as [(-> & Hq2)|(-> & Hfail)].
  2:{ change (0 =? 0) with true. cbv iota. rewrite ret_run.
      exists 0, result, s2, (seg1 ++ seg2). split; [reflexivity|]. split.
      - rewrite Htr2, Htr1, <- app_assoc. reflexivity.
      - apply (outcome_app label base_addr 0); [exact Hq1|].
        right. split; [reflexivity|exact Hfail]. }
  change (1 =? 0) with false. cbv iota. rewrite bind_run.
  destruct (hw_exp_loop_outcome fuel timeout base_addr exp N nprime w label (Z.to_nat exp_bits)
              0 x1 a2 s2 Ht Hfuel) as (ok3 & x3 & a3 & s3 & seg3 & Hrun3 & Htr3 & Hout3).
  rewrite Hrun3. destruct Hout3 as [(-> & Hq3)|(-> & Hfail)].
  2:{ change (0 =? 0) with true. cbv iota. rewrite ret_run.
      exists 0, result, s3, (seg1 ++ seg2 ++ seg3). split; [reflexivity|]. split.
      - rewrite Htr3, Htr2, Htr1, <- !app_assoc. reflexivity.
      - apply (outcome_app label base_addr 0); [exact Hq1|].
        apply (outcome_app label base_addr 0); [exact Hq2|].
        right. split; [reflexivity|exact Hfail]. }
  change (1 =? 0) with false. cbv iota. rewrite bind_run.
  destruct (montgomery_mul_hw_outcome fuel timeout base_addr w x3 one N nprime
              result label s3 Ht Hfuel)
    as (ok4 & r4 & s4 & seg4 & Hrun4 & Htr4 & Hout4).
  rewrite Hrun4.
  assert (Hall : outcome label base_addr ok4 (seg1 ++ seg2 ++ seg3 ++ seg4)).
  { apply outcome_app; [exact Hq1|]. apply outcome_app; [exact Hq2|].
    apply outcome_app; [exact Hq3|exact Hout4]. }
  assert (Htr : trace s4 = trace s ++ seg1 ++ seg2 ++ seg3 ++ seg4).
  { rewrite Htr4, Htr3, Htr2, Htr1, <- !app_assoc. reflexivity. }
  destruct Hout4 as [(-> & _)|(-> & _)].
  - change (1 =? 0) with false. cbv iota. rewrite ret_run.
    exists 1, r4, s4, (seg1 ++ seg2 ++ seg3 ++ seg4). auto.
  - change (0 =? 0) with true. cbv iota. rewrite ret_run.
    exists 0, r4, s4, (seg1 ++ seg2 ++ seg3 ++ seg4). auto.
Qed.

(** C10.  Whenever [modexp_hw_scalar] returns 0, the array [result]
    holds what it held before the call. *)
Theorem modexp_hw_scalar_failure_keeps_result (fuel : nat) (timeout base_addr : Z)
    (base : list Z) (exp exp_bits : Z) (N : list Z) (nprime : Z) (R2 result : list Z)
    (w : nat) (label : string) (s : world D) (ok : Z) (result' : list Z) (s' : world D) :
  modexp_hw_scalar fuel timeout base_addr base exp exp_bits N nprime R2 result w label s
  = Some ((ok, result'), s') ->
  ok = 0 -> result' = result.
Proof.
  unfold modexp_hw_scalar. intros Hrun Hok. rewrite bind_run in Hrun.
  destruct (montgomery_mul_hw fuel timeout base_addr w _ R2 N nprime _ label s)
    as [[[ok1 x1] s1]|]; [|discriminate].
  destruct (ok1 =? 0).
  { rewrite ret_run in Hrun. injection Hrun as _ <- _. reflexivity. }
  rewrite bind_run in Hrun.
  destruct (montgomery_mul_hw fuel timeout base_addr w base R2 N nprime _ label s1)
    as [[[ok2 a2] s2]|]; [|discriminate].
  destruct (ok2 =? 0).
  { rewrite ret_run in Hrun. injection Hrun as _ <- _. reflexivity. }
  rewrite bind_run in Hrun.
  destruct (hw_exp_loop (Z.to_nat exp_bits) fuel timeout base_addr 0 exp N nprime x1 a2 w label s2)
    as [[[[ok3 x3] a3] s3]|]; [|discriminate].
  destruct (ok3 =? 0).
  { rewrite ret_run in Hrun. injection Hrun as _ <- _. reflexivity. }
  rewrite bind_run in Hrun.
  destruct (montgomery_mul_hw fuel timeout base_addr w x3 _ N nprime result label s3)
    as [[[ok4 r4] s4]|] eqn:Hlast; [|discriminate].
  destruct (Z.eqb_spec ok4 0) as [Hz|Hnz].
  - rewrite ret_run in Hrun. injection Hrun as _ <- _.
    eapply montgomery_mul_hw_failure; [exact Hlast|exact Hz].
  - rewrite ret_run in Hrun. injection Hrun as <- _ _. discriminate.
Qed.

End Exponentiation.

Lemma modexp_hw_scalar_aborts_witness :
  (forall (A B R : list Z) (s0 : world sim),
     exists ok R' s' seg,
       montgomery_mul_hw 4 2 4096 1 A B [3233] 0 R lbl s0 = Some ((ok, R'), s') /\
       trace s' = trace s0 ++ seg /\
       ((ok = 1 /\ quiet seg) \/
        (ok = 0 /\ exists seg0, seg = seg0 ++ [EvTimeout lbl 4096] /\ quiet seg0))) /\
  exists ok result' s' seg,
    modexp_hw_scalar 4 2 4096 [42] RSA_E RSA_E_BITS [3233] 0 [1] [7] 1 lbl
      (sim_world 4096 1 1 (Some 2%nat)) = Some ((ok, result'), s') /\
    trace s' = trace (sim_world 4096 1 1 (Some 2%nat)) ++ seg /\
    ((ok = 1 /\ quiet seg) \/
     (ok = 0 /\ exists seg0, seg = seg0 ++ [EvTimeout lbl 4096] /\ quiet seg0)).
Proof.
  apply (modexp_hw_scalar_aborts 4 2 4096 [42] RSA_E RSA_E_BITS [3233] 0 [1] [7] 1 lbl
           (sim_world 4096 1 1 (Some 2%nat))).
  - lia.
  - vm_compute. lia.
Defined.

Lemma modexp_hw_scalar_failure_keeps_result_witness :
  match modexp_hw_scalar 4 2 4096 [42] RSA_E RSA_E_BITS [3233] 0 [1] [7] 1 lbl
          (sim_world 4096 1 1 (Some 2%nat)) with
  | Some ((ok, result'), _) => ok = 0 /\ result' = [7]
  | None => False
  end.
Proof.
  destruct (modexp_hw_scalar 4 2 4096 [42] RSA_E RSA_E_BITS [3233] 0 [1] [7] 1 lbl
              (sim_world 4096 1 1 (Some 2%nat))) as [[[ok result'] s']|] eqn:Hrun.
  - assert (Hok : ok = 0) by (vm_compute in Hrun; congruence).
    split; [exact Hok|].
    exact (modexp_hw_scalar_failure_keeps_result _ _ _ _ _ _ _ _ _ _ _ _ _ _ _ _ Hrun Hok).
  - vm_compute in Hrun. discriminate.
Defined.

(** ** Exponentiation on values *)

Lemma coprime_mod_nonzero (N p : Z) : 1 < N -> Z.coprime p N -> p mod N <> 0.
Proof.
  intros HN Hc Hz. apply Z.coprime_mod_l_iff in Hc. rewrite Hz in Hc.
  unfold Z.coprime in Hc. rewrite Z.gcd_0_l in Hc. lia.
Qed.

Lemma exp_bits_step (E : Z) (n : nat) :
  0 <= E -> E mod 2 ^ Z.of_nat (S n) = E mod 2 + 2 * ((E / 2) mod 2 ^ Z.of_nat n).
Proof.
  intros HE. rewrite Nat2Z.inj_succ, Z.pow_succ_r by lia.
  apply Z.rem_mul_r; [lia|]. apply Z.pow_pos_nonneg; lia.
Qed.

Lemma shiftr_succ (exp bit : Z) : 0 <= bit -> Z.shiftr exp (bit + 1) = Z.shiftr exp bit / 2.
Proof.
  intros Hb. rewrite !Z.shiftr_div_pow2 by lia. rewrite Z.pow_add_r by lia.
  rewrite Z.div_div by (try lia; apply Z.pow_pos_nonneg; lia). reflexivity.
Qed.

Lemma pow_bit_step (a b k : Z) : 0 <= b -> 0 <= k -> a ^ (b + 2 * k) = a ^ b * (a * a) ^ k.
Proof.
  intros Hb Hk. rewrite Z.pow_add_r by lia. rewrite Z.pow_mul_r by lia.
  rewrite Z.pow_2_r. reflexivity.
Qed.

Lemma mul_pow_mod (x a k N : Z) : 0 < N -> (x * (a mod N) ^ k) mod N = (x * a ^ k) mod N.
Proof.
  intros HN. rewrite (Z.mul_mod x ((a mod N) ^ k)) by lia.
  rewrite <- Zpower_mod by lia. rewrite <- Z.mul_mod by lia. reflexivity.
Qed.

(** Square-and-multiply on values, for a base coprime to the modulus. *)
Lemma sw_exp_val_pow (exp N : Z) n : forall bit x a,
  1 < N -> 0 <= exp -> 0 <= bit ->
  0 <= x < N -> 0 <= a < N -> Z.coprime x N -> Z.coprime a N ->
  sw_exp_val n bit exp N x a = (x * a ^ (Z.shiftr exp bit mod 2 ^ Z.of_nat n)) mod N.
Proof.
  induction n as [|n IH]; intros bit x a HN Hexp Hbit Hx Ha Hcx Hca.
  - cbn [sw_exp_val]. change (2 ^ Z.of_nat 0) with 1. rewrite Z.mod_1_r, Z.pow_0_r, Z.mul_1_r.
    symmetry. apply Z.mod_small. exact Hx.
  - cbn [sw_exp_val].
    assert (HE : 0 <= Z.shiftr exp bit) by (apply Z.shiftr_nonneg; exact Hexp).
    set (E := Z.shiftr exp bit) in *.
    assert (Haa : red N (a * a) = (a * a) mod N).
    { apply red_mod; [lia|nia|]. apply coprime_mod_nonzero; [lia|].
      apply Z.coprime_mul_l; assumption. }
    assert (Hxa : red N (x * a) = (x * a) mod N).
    { apply red_mod; [lia|nia|]. apply coprime_mod_nonzero; [lia|].
      apply Z.coprime_mul_l; assumption. }
    rewrite Haa, Hxa. rewrite land_1.
    pose proof (Z.mod_pos_bound E 2 ltac:(lia)) as HE2.
    pose proof (Z.mod_pos_bound ((E / 2) mod 2 ^ Z.of_nat n) 1 ltac:(lia)) as _.
    assert (Hk : 0 <= (E / 2) mod 2 ^ Z.of_nat n).
    { apply Z.mod_pos_bound. apply Z.pow_pos_nonneg; lia. }
    rewrite exp_bits_step by exact HE. rewrite pow_bit_step by lia.
    assert (Hcaa : Z.coprime ((a * a) mod N) N).
    { apply Z.coprime_mod_l_iff. apply Z.coprime_mul_l; assumption. }
    destruct (Z.eqb_spec (E mod 2) 0) as [Hz|Hnz]; cbn [negb].
    + rewrite IH; try assumption; try lia.
      * rewrite shiftr_succ by lia. fold E. rewrite Hz, Z.pow_0_r, Z.mul_1_l.
        apply mul_pow_mod. lia.
      * apply Z.mod_pos_bound. lia.
    + assert (Ho : E mod 2 = 1) by lia. rewrite Ho, Z.pow_1_r.
      rewrite IH; try assumption; try lia.
      * rewrite shiftr_succ by lia. fold E. rewrite mul_pow_mod by lia.
        rewrite Z.mul_mod_idemp_l by lia. f_equal. lia.
      * apply Z.mod_pos_bound. lia.
      * apply Z.mod_pos_bound. lia.
      * apply Z.coprime_mod_l_iff. apply Z.coprime_mul_l; assumption.
Qed.

Lemma modexp_sw_val_pow (base exp exp_bits N : Z) :
  1 < N -> 0 <= exp -> 0 <= base < N -> Z.coprime base N ->
  modexp_sw_val base exp exp_bits N = (base ^ exp_low exp (Z.max 0 exp_bits)) mod N.
Proof.
  intros HN Hexp Hb Hc. unfold modexp_sw_val, exp_low.
  rewrite sw_exp_val_pow; try assumption; try lia.
  - rewrite Z.shiftr_0_r, Z.mul_1_l.
    replace (Z.of_nat (Z.to_nat exp_bits)) with (Z.max 0 exp_bits) by lia. reflexivity.
  - apply Z.coprime_1_l.
Qed.

Lemma sw_exp_loop_value (fuel : nat) (exp : Z) (N : list Z) (w : nat) n : forall bit x a,
  (w <= MAX_WORDS)%nat -> inrange w N -> 1 <= value w N ->
  value w N * value w N < wpow w -> value w N < Z.of_nat fuel ->
  inrange w x -> inrange w a -> (w <= length x)%nat -> (w <= length a)%nat ->
  value w x <= value w N -> value w a <= value w N ->
  exists x' a', sw_exp_loop n fuel bit exp N x a w = Some (x', a') /\
    length x' = length x /\ inrange w x' /\
    value w x' = sw_exp_val n bit exp (value w N) (value w x) (value w a) /\
    value w x' <= value w N.
Proof.
  induction n as [|n IH]; intros bit x a Hw HN HN1 Hsq Hfuel Hx Ha Hlx Hla Hxle Hale.
  - exists x, a. cbn [sw_exp_loop sw_exp_val]. auto.
  - cbn [sw_exp_loop sw_exp_val].
    destruct (modmul_sw_small fuel x a N x w Hw Hx Ha HN Hlx HN1 Hsq Hxle Hale Hfuel)
      as (x1 & Hrun1 & Hl1 & Hr1 & _ & Hv1 & Hle1).
    destruct (modmul_sw_small fuel a a N a w Hw Ha Ha HN Hla HN1 Hsq Hale Hale Hfuel)
      as (a1 & Hrun2 & Hl2 & Hr2 & _ & Hv2 & Hle2).
    rewrite Hrun2.
    destruct (negb (Z.land (Z.shiftr exp bit) 1 =? 0)).
    + rewrite Hrun1.
      destruct (IH (bit + 1) x1 a1 Hw HN HN1 Hsq Hfuel Hr1 Hr2 ltac:(lia) ltac:(lia) Hle1 Hle2)
        as (x' & a' & Hrun & Hl & Hr & Hv & Hle).
      exists x', a'. rewrite Hrun.
      split; [reflexivity|]. split; [lia|]. split; [exact Hr|]. split; [|exact Hle].
      rewrite Hv, Hv1, Hv2. reflexivity.
    + destruct (IH (bit + 1) x a1 Hw HN HN1 Hsq Hfuel Hx Hr2 ltac:(lia) ltac:(lia) Hxle Hle2)
        as (x' & a' & Hrun & Hl & Hr & Hv & Hle).
      exists x', a'. rewrite Hrun.
      split; [reflexivity|]. split; [lia|]. split; [exact Hr|]. split; [|exact Hle].
      rewrite Hv, Hv2. reflexivity.
Qed.

(** [modexp_sw_scalar] on values. *)
Lemma modexp_sw_scalar_value (fuel : nat) (base : list Z) (exp exp_bits : Z)
    (N result : list Z) (w : nat) :
  (1 <= w <= MAX_WORDS)%nat -> inrange w base -> inrange w N ->
  (w <= length result)%nat ->
  1 <= value w N -> value w N * value w N < wpow w ->
  value w base <= value w N -> value w N < Z.of_nat fuel ->
  exists r, modexp_sw_scalar fuel base exp exp_bits N result w = Some r /\
    length r = length result /\ inrange w r /\
    (forall k : nat, (w <= k)%nat -> rd r k = rd result k) /\
    value w r = modexp_sw_val (value w base) exp exp_bits (value w N) /\
    value w r <= value w N.
Proof.
  intros Hw Hb HN Hlen HN1 Hsq Hble Hfuel. unfold modexp_sw_scalar.
  assert (Hcap : (w <= length (replicate MAX_WORDS 0))%nat) by (rewrite length_replicate; lia).
  destruct (bigint_set_u32_spec (replicate MAX_WORDS 0) 1 w ltac:(split; [lia|exact Hcap]))
    as (Hlx & Hx0 & Hxz & _).
  destruct (bigint_copy_spec (replicate MAX_WORDS 0) base w Hcap) as (Hla & Hak & _).
  set (x := bigint_set_u32 (replicate MAX_WORDS 0) 1 w) in *.
  set (a := bigint_copy (replicate MAX_WORDS 0) base w) in *.
  rewrite length_replicate in Hlx, Hla.
  assert (Hvx : value w x = 1) by (rewrite value_low_word by (try lia; exact Hxz); exact Hx0).
  assert (Hva : value w a = value w base) by (apply value_ext; exact Hak).
  assert (Hrx : inrange w x).
  { intros k Hk. destruct k as [|k]; [rewrite Hx0; lia|]. rewrite Hxz by lia. lia. }
  assert (Hra : inrange w a) by (intros k Hk; rewrite Hak by lia; apply Hb; lia).
  destruct (sw_exp_loop_value fuel exp N w (Z.to_nat exp_bits) 0 x a ltac:(lia) HN HN1 Hsq
              Hfuel Hrx Hra ltac:(lia) ltac:(lia) ltac:(lia) ltac:(lia))
    as (x' & a' & Hrun & Hl & Hr & Hv & Hle).
  rewrite Hrun. destruct (bigint_copy_spec result x' w Hlen) as (Hlr & Hrk & Hrk').
  exists (bigint_copy result x' w). split; [reflexivity|]. split; [exact Hlr|].
  assert (Hvr : value w (bigint_copy result x' w) = value w x') by (apply value_ext; exact Hrk).
  split; [intros k Hk; rewrite Hrk by lia; apply Hr; lia|]. split; [exact Hrk'|].
  split; [|rewrite Hvr; exact Hle].
  rewrite Hvr, Hv, Hvx, Hva. reflexivity.
Qed.

Lemma cong_cancel (R N u v : Z) :
  0 < N -> Z.coprime R N -> (u * R) mod N = (v * R) mod N -> u mod N = v mod N.
Proof.
  intros HN Hc Heq.
  assert (Hz : ((u - v) * R) mod N = 0).
  { rewrite Z.mul_sub_distr_r, Zminus_mod, Heq, Z.sub_diag. apply Z.mod_0_l. lia. }
  apply Z.cong_mul_cancel_r_coprime in Hz; [|lia|exact Hc].
  apply Z.mod_divide in Hz; [|lia]. destruct Hz as [k Hk].
  replace u with (v + k * N) by lia. apply Z_mod_plus_full.
Qed.

Lemma wpow_coprime (w : nat) (N : Z) : Z.odd N = true -> Z.coprime (wpow w) N.
Proof. intros Hodd. unfold wpow. apply odd_coprime_pow2; [lia|exact Hodd]. Qed.

Section HwValue.
Context {D : Type} `{Device D}.
Variable Inv : D -> Prop.
Variables (fuel : nat) (timeout base_addr : Z) (w : nat).
Hypothesis Hacc : accelerator_correct Inv fuel timeout base_addr w.
Variables (N : list Z) (nprime : Z) (label : string).
Hypothesis HN : bignum w N.
Hypothesis Hodd : Z.odd (value w N) = true.
Hypothesis HN1 : 1 < value w N.

(** One call in the Montgomery domain: from [A = X R] and [B = Y R]
    (mod N) to [X Y R] (mod N). *)
Lemma montgomery_mul_hw_domain (A B R : list Z) (X Y : Z) (s : world D) :
  Inv (dev s) -> bignum w A -> bignum w B -> (w <= length R)%nat ->
  value w A < value w N -> value w B < value w N ->
  value w A mod value w N = (X * wpow w) mod value w N ->
  value w B mod value w N = (Y * wpow w) mod value w N ->
  exists R' s',
    montgomery_mul_hw fuel timeout base_addr w A B N nprime R label s = Some ((1, R'), s') /\
    Inv (dev s') /\ bignum w R' /\ length R' = length R /\ value w R' < value w N /\
    value w R' mod value w N = (X * Y * wpow w) mod value w N.
Proof.
  intros HI HA HB Hlen HAlt HBlt HAX HBY.
  destruct (Hacc s A B N nprime R label HI HA HB HN Hlen Hodd HAlt HBlt)
    as (R' & s' & Hrun & HI' & HR' & Hl & Hlt & Hval).
  exists R', s'. split; [exact Hrun|]. split; [exact HI'|]. split; [exact HR'|].
  split; [exact Hl|]. split; [exact Hlt|].
  apply (cong_cancel (wpow w)); [lia|apply wpow_coprime; exact Hodd|].
  fold (wpow w) in Hval. rewrite Hval. rewrite Z.mul_mod, HAX, HBY, <- Z.mul_mod by lia.
  f_equal. ring.
Qed.

Lemma hw_exp_loop_value (exp : Z) n : forall bit x a X A (s : world D),
  0 <= exp -> 0 <= bit -> Inv (dev s) -> bignum w x -> bignum w a ->
  value w x < value w N -> value w a < value w N ->
  value w x mod value w N = (X * wpow w) mod value w N ->
  value w a mod value w N = (A * wpow w) mod value w N ->
  exists x' a' s',
    hw_exp_loop n fuel timeout base_addr bit exp N nprime x a w label s
    = Some ((1, x', a'), s') /\
    Inv (dev s') /\ bignum w x' /\ value w x' < value w N /\
    value w x' mod value w N
    = (X * A ^ (Z.shiftr exp bit mod 2 ^ Z.of_nat n) * wpow w) mod value w N.
Proof.
  induction n as [|n IH]; intros bit x a X A s Hexp Hbit HI Hx Ha Hxlt Halt HxX HaA.
  - exists x, a, s. cbn [hw_exp_loop]. rewrite ret_run.
    change (2 ^ Z.of_nat 0) with 1. rewrite Z.mod_1_r, Z.pow_0_r, Z.mul_1_r. auto.
  - cbn [hw_exp_loop]. rewrite bind_run.
    assert (HE : 0 <= Z.shiftr exp bit) by (apply Z.shiftr_nonneg; exact Hexp).
    assert (Hk : 0 <= (Z.shiftr exp bit / 2) mod 2 ^ Z.of_nat n).
    { apply Z.mod_pos_bound. apply Z.pow_pos_nonneg; lia. }
    pose proof (Z.mod_pos_bound (Z.shiftr exp bit) 2 ltac:(lia)) as HE2.
    rewrite exp_bits_step by exact HE. rewrite pow_bit_step by lia.
    rewrite land_1.
    destruct (Z.eqb_spec (Z.shiftr exp bit mod 2) 0) as [Hz|Hnz]; cbn [negb].
    + rewrite ret_run. change (1 =? 0) with false. cbv iota. rewrite bind_run.
      destruct (montgomery_mul_hw_domain a a a A A s HI Ha Ha (proj1 Ha) Halt Halt HaA HaA)
        as (a1 & s1 & Hrun1 & HI1 & Ha1 & _ & Ha1lt & Ha1v).
      rewrite Hrun1. change (1 =? 0) with false. cbv iota.
      destruct (IH (bit + 1) x a1 X (A * A) s1 Hexp ltac:(lia) HI1 Hx Ha1 Hxlt Ha1lt HxX Ha1v)
        as (x' & a' & s' & Hrun & HI' & Hx' & Hx'lt & Hx'v).
      exists x', a', s'. split; [exact Hrun|]. split; [exact HI'|]. split; [exact Hx'|].
      split; [exact Hx'lt|]. rewrite Hx'v, shiftr_succ by lia.
      rewrite Hz, Z.pow_0_r. f_equal. ring.
    + assert (Ho : Z.shiftr exp bit mod 2 = 1) by lia.
      destruct (montgomery_mul_hw_domain x a x X A s HI Hx Ha (proj1 Hx) Hxlt Halt HxX HaA)
        as (x1 & s1 & Hrun1 & HI1 & Hx1 & _ & Hx1lt & Hx1v).
      rewrite Hrun1. change (1 =? 0) with false. cbv iota. rewrite bind_run.
      destruct (montgomery_mul_hw_domain a a a A A s1 HI1 Ha Ha (proj1 Ha) Halt Halt HaA HaA)
        as (a1 & s2 & Hrun2 & HI2 & Ha1 & _ & Ha1lt & Ha1v).
      rewrite Hrun2. change (1 =? 0) with false. cbv iota.
      destruct (IH (bit + 1) x1 a1 (X * A) (A * A) s2 Hexp ltac:(lia) HI2 Hx1 Ha1 Hx1lt Ha1lt
                  Hx1v Ha1v) as (x' & a' & s' & Hrun & HI' & Hx' & Hx'lt & Hx'v).
      exists x', a', s'. split; [exact Hrun|]. split; [exact HI'|]. split; [exact Hx'|].
      split; [exact Hx'lt|]. rewrite Hx'v, shiftr_succ by lia.
      rewrite Ho, Z.pow_1_r. f_equal. ring.
Qed.

(** [modexp_hw_scalar] on values, behind a correct accelerator and with
    [R2 = R^2 mod N]. *)
Lemma modexp_hw_scalar_value (base : list Z) (exp exp_bits : Z) (R2 result : list Z)
    (s : world D) :
  (1 <= w <= MAX_WORDS)%nat -> Inv (dev s) ->
  bignum w base -> bignum w R2 -> (w <= length result)%nat ->
  value w base < value w N ->
  value w R2 = (wpow w * wpow w) mod value w N ->
  0 <= exp ->
  exists r s',
    modexp_hw_scalar fuel timeout base_addr base exp exp_bits N nprime R2 result w label s
    = Some ((1, r), s') /\
    Inv (dev s') /\ bignum w r /\ length r = length result /\
    value w r = (value w base ^ exp_low exp (Z.max 0 exp_bits)) mod value w N.
Proof.
  intros Hw HI Hb HR2 Hlen Hblt HR2v Hexp. unfold modexp_hw_scalar.
  assert (Hcap : (w <= length (replicate MAX_WORDS 0))%nat) by (rewrite length_replicate; lia).
  destruct (bigint_set_u32_spec (replicate MAX_WORDS 0) 1 w ltac:(split; [lia|exact Hcap]))
    as (Hl1 & H10 & H1z & _).
  set (one := bigint_set_u32 (replicate MAX_WORDS 0) 1 w) in *.
  rewrite length_replicate in Hl1.
  assert (Hv1 : value w one = 1) by (rewrite value_low_word by (try lia; exact H1z); exact H10).
  assert (Hone : bignum w one).
  { apply inrange_bignum; [lia|]. intros k Hk.
    destruct k as [|k]; [rewrite H10; lia|]. rewrite H1z by lia. lia. }
  pose proof (Z.mod_pos_bound (wpow w * wpow w) (value w N) ltac:(lia)) as HR2b.
  rewrite bind_run.
  (* x = mont(one, R2) *)
  destruct (Hacc s one R2 N nprime (replicate MAX_WORDS 0) label HI Hone HR2 HN Hcap Hodd
              ltac:(lia) ltac:(lia)) as (x & s1 & Hrun1 & HI1 & Hx & _ & Hxlt & Hxv).
  rewrite Hrun1. change (1 =? 0) with false. cbv iota. rewrite bind_run.
  assert (HxX : value w x mod value w N = (1 * wpow w) mod value w N).
  { apply (cong_cancel (wpow w)); [lia|apply wpow_coprime; exact Hodd|].
    fold (wpow w) in Hxv. rewrite Hxv, Hv1, HR2v, Z.mul_1_l, Z.mod_mod by lia.
    f_equal. ring. }
  (* a = mont(base, R2) *)
  destruct (Hacc s1 base R2 N nprime (replicate MAX_WORDS 0) label HI1 Hb HR2 HN Hcap Hodd
              Hblt ltac:(lia)) as (a & s2 & Hrun2 & HI2 & Ha & _ & Halt & Hav).
  rewrite Hrun2. change (1 =? 0) with false. cbv iota. rewrite bind_run.
  assert (HaA : value w a mod value w N = (value w base * wpow w) mod value w N).
  { apply (cong_cancel (wpow w)); [lia|apply wpow_coprime; exact Hodd|].
    fold (wpow w) in Hav. rewrite Hav, HR2v, Z.mul_mod_idemp_r by lia.
    f_equal. ring. }
  destruct (hw_exp_loop_value exp (Z.to_nat exp_bits) 0 x a 1 (value w base) s2 Hexp ltac:(lia)
              HI2 Hx Ha Hxlt Halt HxX HaA) as (x3 & a3 & s3 & Hrun3 & HI3 & Hx3 & Hx3lt & Hx3v).
  rewrite Hrun3. change (1 =? 0) with false. cbv iota. rewrite bind_run.
  (* result = mont(x, one) *)
  destruct (Hacc s3 x3 one N nprime result label HI3 Hx3 Hone HN Hlen Hodd Hx3lt ltac:(lia))
    as (r & s4 & Hrun4 & HI4 & Hr & Hlr & Hrlt & Hrv).
  rewrite Hrun4. change (1 =? 0) with false. cbv iota. rewrite ret_run.
  exists r, s4. split; [reflexivity|]. split; [exact HI4|]. split; [exact Hr|].
  split; [exact Hlr|].
  pose proof (value_bounds w r (bignum_inrange w r Hr)) as Hrb.
  rewrite <- (Z.mod_small (value w r) (value w N)) by lia.
  apply (cong_cancel (wpow w)); [lia|apply wpow_coprime; exact Hodd|].
  fold (wpow w) in Hrv. rewrite Hrv, Hv1, Z.mul_1_r, Hx3v.
  unfold exp_low. rewrite Z.shiftr_0_r, Z.mul_1_l.
  replace (Z.of_nat (Z.to_nat exp_bits)) with (Z.max 0 exp_bits) by lia. reflexivity.
Qed.

End HwValue.

(** ** The simulated accelerator *)

Lemma mont_halve_spec (N x : Z) :
  Z.odd N = true -> 0 <= x < N ->
  0 <= mont_halve N x < N /\ (mont_halve N x * 2) mod N = x mod N.
Proof.
  intros Hodd Hx. unfold mont_halve.
  apply Z.odd_spec in Hodd as [n Hn].
  destruct (Z.even x) eqn:He.
  - apply Z.even_spec in He as [y Hy]. subst x.
    rewrite (Z.mul_comm 2 y), Z.div_mul by lia. split; [lia|reflexivity].
  - assert (Ho : Z.odd x = true) by (rewrite <- Z.negb_even, He; reflexivity).
    apply Z.odd_spec in Ho as [y Hy]. subst x N.
    replace (2 * y + 1 + (2 * n + 1)) with ((y + n + 1) * 2) by lia.
    rewrite Z.div_mul by lia. split; [lia|].
    replace ((y + n + 1) * 2) with (2 * y + 1 + 1 * (2 * n + 1)) by lia.
    apply Z_mod_plus_full.
Qed.

Lemma mont_halve_iter (N : Z) k : forall x,
  Z.odd N = true -> 0 <= x < N ->
  0 <= Nat.iter k (mont_halve N) x < N /\
  (Nat.iter k (mont_halve N) x * 2 ^ Z.of_nat k) mod N = x mod N.
Proof.
  induction k as [|k IH]; intros x Hodd Hx.
  - cbn [Nat.iter]. change (2 ^ Z.of_nat 0) with 1. rewrite Z.mul_1_r. auto.
  - change (Nat.iter (S k) (mont_halve N) x) with (mont_halve N (Nat.iter k (mont_halve N) x)).
    destruct (IH x Hodd Hx) as (Hb & Hv).
    destruct (mont_halve_spec N _ Hodd Hb) as (Hb' & Hv'). split; [exact Hb'|].
    rewrite Nat2Z.inj_succ, Z.pow_succ_r by lia.
    set (y := Nat.iter k (mont_halve N) x) in *.
    replace (mont_halve N y * (2 * 2 ^ Z.of_nat k))
      with (mont_halve N y * 2 * 2 ^ Z.of_nat k) by ring.
    rewrite (Z.mul_mod (mont_halve N y * 2)) by lia.
    rewrite Hv', <- Z.mul_mod by lia. exact Hv.
Qed.

Lemma mont_product_spec (w : nat) (X Y N : Z) :
  Z.odd N = true -> 0 < N ->
  0 <= mont_product w X Y N < N /\
  (mont_product w X Y N * wpow w) mod N = (X * Y) mod N.
Proof.
  intros Hodd HN. unfold mont_product.
  destruct (mont_halve_iter N (32 * w) ((X * Y) mod N) Hodd
              (Z.mod_pos_bound (X * Y) N HN)) as (Hb & Hv).
  split; [exact Hb|]. rewrite Z.mod_mod in Hv by lia.
  unfold wpow. rewrite Nat2Z.inj_mul in Hv. exact Hv.
Qed.

Lemma reg_offset (base c : Z) (i : nat) :
  0 <= c + 4 * Z.of_nat i < 2 ^ 32 ->
  u32 (u32 (u32 (base + c) + u32 (4 * Z.of_nat i)) - base) = c + 4 * Z.of_nat i.
Proof.
  intros Hr. unfold u32. rewrite <- Z.add_mod by lia. rewrite Zminus_mod_idemp_l.
  replace (base + c + 4 * Z.of_nat i - base) with (c + 4 * Z.of_nat i) by lia.
  apply Z.mod_small. exact Hr.
Qed.

Lemma reg_offset_fixed (base c : Z) : 0 <= c < 2 ^ 32 -> u32 (u32 (base + c) - base) = c.
Proof.
  intros Hr. unfold u32. rewrite Zminus_mod_idemp_l.
  replace (base + c - base) with c by lia. apply Z.mod_small. exact Hr.
Qed.

Lemma bank_index (c : Z) (i : nat) :
  (i < 128)%nat -> c mod 512 = 0 -> Z.to_nat (((c + 4 * Z.of_nat i) mod 512) / 4) = i.
Proof. intros Hi Hc. zdm. Qed.

Lemma sim_write_A (d : sim) (base : Z) (i : nat) (v : Z) :
  sim_base d = base -> (i < 128)%nat ->
  sim_write d (REG_A base i) v
  = Sim (sim_base d) (sim_width d) (sim_latency d) (sim_good d) (sim_wait d)
        (<[i := v]> (sim_A d)) (sim_B d) (sim_N d) (sim_RES d) (sim_nprime d).
Proof.
  intros <- Hi. unfold sim_write, REG_A. rewrite reg_offset by lia.
  rewrite (bank_index 0 i Hi eq_refl). sim_branch. reflexivity.
Qed.

Lemma sim_write_B (d : sim) (base : Z) (i : nat) (v : Z) :
  sim_base d = base -> (i < 128)%nat ->
  sim_write d (REG_B base i) v
  = Sim (sim_base d) (sim_width d) (sim_latency d) (sim_good d) (sim_wait d)
        (sim_A d) (<[i := v]> (sim_B d)) (sim_N d) (sim_RES d) (sim_nprime d).
Proof.
  intros <- Hi. unfold sim_write, REG_B. rewrite reg_offset by lia.
  rewrite (bank_index 512 i Hi eq_refl). sim_branch. reflexivity.
Qed.

Lemma sim_write_N (d : sim) (base : Z) (i : nat) (v : Z) :
  sim_base d = base -> (i < 128)%nat ->
  sim_write d (REG_N base i) v
  = Sim (sim_base d) (sim_width d) (sim_latency d) (sim_good d) (sim_wait d)
        (sim_A d) (sim_B d) (<[i := v]> (sim_N d)) (sim_RES d) (sim_nprime d).
Proof.
  intros <- Hi. unfold sim_write, REG_N. rewrite reg_offset by lia.
  rewrite (bank_index 1024 i Hi eq_refl). sim_branch. reflexivity.
Qed.

Lemma sim_write_nprime (d : sim) (base v : Z) :
  sim_base d = base ->
  sim_write d (REG_NPRIME base) v
  = Sim (sim_base d) (sim_width d) (sim_latency d) (sim_good d) (sim_wait d)
        (sim_A d) (sim_B d) (sim_N d) (sim_RES d) v.
Proof. intros <-. unfold sim_write, REG_NPRIME. rewrite reg_offset_fixed by lia. reflexivity. Qed.

Lemma sim_write_control (d : sim) (base : Z) :
  sim_base d = base -> sim_write d (REG_CONTROL base) 1 = sim_start d.
Proof. intros <-. unfold sim_write, REG_CONTROL. rewrite reg_offset_fixed by lia. reflexivity. Qed.

Lemma sim_read_status (d : sim) (base : Z) :
  sim_base d = base ->
  sim_read d (REG_STATUS base)
  = match sim_wait d with
    | None => (0, d)
    | Some O => (1, d)
    | Some (S k) =>
        (0, Sim (sim_base d) (sim_width d) (sim_latency d) (sim_good d) (Some k)
                (sim_A d) (sim_B d) (sim_N d) (sim_RES d) (sim_nprime d))
    end.
Proof. intros <-. unfold sim_read, REG_STATUS. rewrite reg_offset_fixed by lia. reflexivity. Qed.

Lemma sim_read_result (d : sim) (base : Z) (i : nat) :
  sim_base d = base -> (i < 128)%nat -> sim_read d (REG_RES base i) = (rd (sim_RES d) i, d).
Proof.
  intros <- Hi. unfold sim_read, REG_RES. rewrite reg_offset by lia.
  rewrite (bank_index 1536 i Hi eq_refl). sim_branch. reflexivity.
Qed.

Lemma sim_after_operands (A B N : list Z) n : forall i (d : sim),
  (i + n <= 128)%nat ->
  after_operands n i (sim_base d) A B N d
  = Sim (sim_base d) (sim_width d) (sim_latency d) (sim_good d) (sim_wait d)
        (copy_loop n i (sim_A d) A) (copy_loop n i (sim_B d) B) (copy_loop n i (sim_N d) N)
        (sim_RES d) (sim_nprime d).
Proof.
  induction n as [|n IH]; intros i d Hin.
  - destruct d. reflexivity.
  - cbn [after_operands copy_loop]. change (@reg_write sim sim_device) with sim_write.
    rewrite (sim_write_A d) by (reflexivity || lia).
    rewrite (sim_write_B _ (sim_base d)) by (reflexivity || lia).
    rewrite (sim_write_N _ (sim_base d)) by (reflexivity || lia).
    cbn [sim_base sim_width sim_latency sim_good sim_wait sim_A sim_B sim_N sim_RES sim_nprime].
    set (d3 := Sim _ _ _ _ _ _ _ _ _ _).
    change (sim_base d) with (sim_base d3). rewrite IH by lia. reflexivity.
Qed.

Lemma sim_after_start (w : nat) (A B N : list Z) (nprime : Z) (d : sim) :
  (w <= 128)%nat ->
  after_start (sim_base d) w A B N nprime d
  = sim_start (Sim (sim_base d) (sim_width d) (sim_latency d) (sim_good d) (sim_wait d)
                 (copy_loop w 0 (sim_A d) A) (copy_loop w 0 (sim_B d) B)
                 (copy_loop w 0 (sim_N d) N) (sim_RES d) nprime).
Proof.
  intros Hw. unfold after_start. rewrite sim_after_operands by lia.
  change (@reg_write sim sim_device) with sim_write.
  rewrite (sim_write_nprime _ (sim_base d)) by reflexivity.
  rewrite (sim_write_control _ (sim_base d)) by reflexivity. reflexivity.
Qed.

Lemma sim_poll L : forall (n : nat) (d : sim),
  sim_wait d = Some L -> (L < n)%nat ->
  leading_busy (status_reads n (sim_base d) d) = L /\
  after_status (S L) (sim_base d) d
  = Sim (sim_base d) (sim_width d) (sim_latency d) (sim_good d) (Some O)
        (sim_A d) (sim_B d) (sim_N d) (sim_RES d) (sim_nprime d).
Proof.
  induction L as [|L IH]; intros n d Hwait Hn; (destruct n as [|n]; [lia|]).
  - rewrite status_reads_S. cbn [leading_busy after_status].
    change (@reg_read sim sim_device) with sim_read.
    rewrite (sim_read_status d) by reflexivity. rewrite Hwait.
    cbn [fst snd]. split; [reflexivity|]. destruct d; cbn in *. rewrite Hwait. reflexivity.
  - rewrite status_reads_S. cbn [leading_busy after_status].
    change (@reg_read sim sim_device) with sim_read.
    rewrite (sim_read_status d) by reflexivity. rewrite Hwait.
    cbn [fst snd].
    set (d1 := Sim _ _ _ _ (Some L) _ _ _ _ _).
    destruct (IH n d1 eq_refl ltac:(lia)) as (Hlb & Hafter).
    change (sim_base d) with (sim_base d1). split.
    + change (busy (u32 0)) with true. cbv iota. rewrite Hlb. reflexivity.
    + exact Hafter.
Qed.

Lemma sim_result_reads n : forall (i : nat) (d : sim),
  (i + n <= 128)%nat ->
  after_results n i (sim_base d) d = d /\
  forall k : nat, (k < n)%nat ->
    rd (result_reads n i (sim_base d) d) k = u32 (rd (sim_RES d) (i + k)).
Proof.
  induction n as [|n IH]; intros i d Hin.
  - split; [reflexivity|]. intros k Hk. lia.
  - rewrite result_reads_S. cbn [after_results].
    change (@reg_read sim sim_device) with sim_read.
    rewrite (sim_read_result d) by (reflexivity || lia).
    cbn [fst snd]. destruct (IH (S i) d ltac:(lia)) as (Hafter & Hrd).
    split; [exact Hafter|]. intros k Hk. destruct k as [|k].
    + rewrite Nat.add_0_r. reflexivity.
    + change (rd (?x :: ?l) (S k)) with (rd l k). rewrite Hrd by lia. f_equal. f_equal. lia.
Qed.

(** The simulated accelerator performs one Montgomery multiplication per
    call and never times out. *)
Lemma sim_accelerator_correct (base : Z) (w : nat) (timeout : Z) (fuel : nat) :
  (w <= 128)%nat -> 0 <= timeout < 2 ^ 32 - 1 -> (Z.to_nat timeout < fuel)%nat ->
  accelerator_correct (sim_inv base w timeout) fuel timeout base w.
Proof.
  intros Hw Ht Hfuel s A B N nprime R label HI HA HB HN Hlen Hodd HAlt HBlt.
  destruct HI as (Hbase & Hwidth & Hgood & Hlat & HlA & HlB & HlN & HlR). subst base.
  pose proof (value_bounds w A (bignum_inrange w A HA)) as HAb.
  pose proof (value_bounds w N (bignum_inrange w N HN)) as HNb.
  destruct (montgomery_mul_hw_success fuel timeout (sim_base (dev s)) w A B N nprime R label s
              Ht Hfuel)
    as (s' & Hrun & Hdev).
  - rewrite sim_after_start by exact Hw.
    set (d0 := Sim _ _ _ _ _ _ _ _ _ _).
    destruct (sim_poll (sim_latency (dev s)) (S (Z.to_nat timeout)) (sim_start d0)) as (Hlb & _).
    + unfold sim_start, d0. cbn [sim_good sim_wait sim_latency]. rewrite Hgood. reflexivity.
    + lia.
    + change (sim_base (sim_start d0)) with (sim_base (dev s)) in Hlb. rewrite Hlb. lia.
  - rewrite sim_after_start in Hrun, Hdev by exact Hw.
    set (d0 := Sim (sim_base (dev s)) (sim_width (dev s)) (sim_latency (dev s))
                 (sim_good (dev s)) (sim_wait (dev s)) (copy_loop w 0 (sim_A (dev s)) A)
                 (copy_loop w 0 (sim_B (dev s)) B) (copy_loop w 0 (sim_N (dev s)) N)
                 (sim_RES (dev s)) nprime) in *.
    destruct (sim_poll (sim_latency (dev s)) (S (Z.to_nat timeout)) (sim_start d0))
      as (Hlb & Hafter).
    { unfold sim_start, d0. cbn [sim_good sim_wait sim_latency]. rewrite Hgood. reflexivity. }
    { lia. }
    change (sim_base (sim_start d0)) with (sim_base (dev s)) in Hlb, Hafter.
    rewrite Hlb, Hafter in Hrun, Hdev.
    set (r := mont_product w (value w (copy_loop w 0 (sim_A (dev s)) A))
                (value w (copy_loop w 0 (sim_B (dev s)) B))
                (value w (copy_loop w 0 (sim_N (dev s)) N))).
    set (d2 := Sim (sim_base (dev s)) (sim_width (sim_start d0))
                 (sim_latency (sim_start d0)) (sim_good (sim_start d0)) (Some 0%nat)
                 (sim_A (sim_start d0)) (sim_B (sim_start d0)) (sim_N (sim_start d0))
                 (sim_RES (sim_start d0)) (sim_nprime (sim_start d0))) in *.
    assert (HRES : sim_RES d2 = to_words w r ++ drop w (sim_RES (dev s))).
    { unfold d2, sim_start, d0, r.
      cbn [sim_RES sim_width sim_A sim_B sim_N]. rewrite Hwidth. reflexivity. }
    destruct (sim_result_reads w 0 d2 ltac:(lia)) as (Hres_dev & Hres_rd).
    change (sim_base d2) with (sim_base (dev s)) in Hres_dev, Hres_rd.
    rewrite Hres_dev in Hdev.
    set (vs := result_reads w 0 (sim_base (dev s)) d2) in *.
    assert (Hvs : length vs = w) by apply result_reads_length.
    assert (Hr : 0 <= r < value w N /\ (r * wpow w) mod value w N
                                      = (value w A * value w B) mod value w N).
    { unfold r. rewrite !copy_loop_value by lia.
      apply mont_product_spec; [exact Hodd|lia]. }
    assert (Hword : forall k : nat, (k < w)%nat ->
                rd (store_words 0 vs R) k = (r / wpow k) mod 2 ^ 32).
    { intros k Hk. rewrite store_words_rd by lia.
      destruct (decide (0 <= k < 0 + length vs)%nat); [|lia].
      replace (k - 0)%nat with k by lia. rewrite Hres_rd by lia.
      rewrite HRES, rd_app_l by (rewrite to_words_length; lia).
      change (0 + k)%nat with k. rewrite rd_to_words by lia.
      apply u32_small. apply Z.mod_pos_bound. lia. }
    exists (store_words 0 vs R), s'. split; [exact Hrun|].
    assert (Hval : value w (store_words 0 vs R) = r).
    { rewrite (value_of_words w _ r) by (try lia; exact Hword). apply Z.mod_small. lia. }
    split; [|split; [|split; [|split]]].
    + rewrite Hdev. unfold sim_inv, d2, sim_start, d0.
      cbn [sim_base sim_width sim_latency sim_good sim_A sim_B sim_N sim_RES].
      rewrite Hgood, !copy_loop_length, length_app, to_words_length, length_drop.
      repeat split; try assumption; try lia.
    + apply inrange_bignum; [rewrite store_words_length; exact Hlen|].
      intros k Hk. rewrite Hword by lia. apply Z.mod_pos_bound. lia.
    + apply store_words_length.
    + rewrite Hval. lia.
    + rewrite Hval. fold (wpow w). apply Hr.
Qed.

Lemma sim_world_inv (base : Z) (w latency : nat) (timeout : Z) :
  Z.of_nat latency <= timeout -> sim_inv base w timeout (dev (sim_world base w latency None)).
Proof. intros Hl. unfold sim_inv. cbn. repeat split; try reflexivity. exact Hl. Qed.

(** ** Hardware against software *)

(** C1, amended.  Let the accelerator perform one Montgomery
    multiplication per call and never time out ([accelerator_correct]).
    For an odd modulus [N > 1] whose square fits in [w] words, a base
    below [N] and coprime to it, [R2 = R^2 mod N] with [R = 2^(32 w)], a
    32-bit exponent and a bit-length from 0 to 32, [modexp_hw_scalar]
    returns 1 and its result holds the same [w] words as the result of
    [modexp_sw_scalar]: the number [base ^ (exp mod 2^exp_bits) mod N].
    [n'] is arbitrary.  The reduction loop of the software multiply is
    given more than [value N] passes. *)
Theorem modexp_hw_sw_agree {D : Type} `{Device D} (Inv : D -> Prop)
    (fuel : nat) (timeout base_addr : Z) (w : nat) (fuel_sw : nat)
    (base : list Z) (exp exp_bits : Z) (N : list Z) (nprime : Z)
    (R2 result_hw result_sw : list Z) (label : string) (s : world D) :
  accelerator_correct Inv fuel timeout base_addr w -> Inv (dev s) ->
  (1 <= w <= MAX_WORDS)%nat ->
  bignum w base -> bignum w N -> bignum w R2 ->
  (w <= length result_hw)%nat -> (w <= length result_sw)%nat ->
  Z.odd (value w N) = true -> 1 < value w N ->
  value w N * value w N < 2 ^ (32 * Z.of_nat w) ->
  value w base < value w N -> Z.gcd (value w base) (value w N) = 1 ->
  value w R2 = (2 ^ (32 * Z.of_nat w) * 2 ^ (32 * Z.of_nat w)) mod value w N ->
  0 <= exp < 2 ^ 32 -> 0 <= exp_bits <= 32 ->
  value w N < Z.of_nat fuel_sw ->
  exists r_hw s' r_sw,
    modexp_hw_scalar fuel timeout base_addr base exp exp_bits N nprime R2 result_hw w label s
    = Some ((1, r_hw), s') /\
    modexp_sw_scalar fuel_sw base exp exp_bits N result_sw w = Some r_sw /\
    take w r_hw = take w r_sw /\ bigint_equal r_hw r_sw w = 1 /\
    value w r_hw = (value w base ^ exp_low exp exp_bits) mod value w N.
Proof.
  intros Hacc HI Hw Hb HN HR2 Hlh Hls Hodd HN1 Hsq Hblt Hco HR2v Hexp Hbits Hfuel.
  pose proof (value_bounds w base (bignum_inrange w base Hb)) as Hbb.
  destruct (modexp_hw_scalar_value Inv fuel timeout base_addr w Hacc N nprime label HN Hodd HN1
              base exp exp_bits R2 result_hw s Hw HI Hb HR2 Hlh Hblt HR2v ltac:(lia))
    as (r_hw & s' & Hhw & _ & Hrhw & Hlhw & Hvhw).
  destruct (modexp_sw_scalar_value fuel_sw base exp exp_bits N result_sw w Hw
              (bignum_inrange w base Hb) (bignum_inrange w N HN) Hls ltac:(lia) Hsq
              ltac:(lia) Hfuel) as (r_sw & Hsw & Hlsw & Hrsw & _ & Hvsw & _).
  rewrite modexp_sw_val_pow in Hvsw by (try lia; exact Hco).
  replace (Z.max 0 exp_bits) with exp_bits in * by lia.
  exists r_hw, s', r_sw. split; [exact Hhw|]. split; [exact Hsw|].
  destruct (bignum_eq_of_value w r_hw r_sw) as (Htake & Heq).
  - lia.
  - lia.
  - apply bignum_inrange. exact Hrhw.
  - exact Hrsw.
  - rewrite Hvhw, Hvsw. reflexivity.
  - split; [exact Htake|]. split; [exact Heq|exact Hvhw].
Qed.

Lemma modexp_hw_sw_agree_witness :
  exists r_hw s' r_sw,
    modexp_hw_scalar 3 1 4096 (pad 32 42) RSA_E RSA_E_BITS RSA_N 0
      (pad 32 ((2 ^ 1024 * 2 ^ 1024) mod 3233)) (replicate 32 0) 32 lbl
      (sim_world 4096 32 1 None) = Some ((1, r_hw), s') /\
    modexp_sw_scalar 3234 (pad 32 42) RSA_E RSA_E_BITS RSA_N (replicate 32 0) 32 = Some r_sw /\
    take 32 r_hw = take 32 r_sw /\ bigint_equal r_hw r_sw 32 = 1 /\
    value 32 r_hw = (value 32 (pad 32 42) ^ exp_low RSA_E RSA_E_BITS) mod value 32 RSA_N.
Proof.
  apply (modexp_hw_sw_agree (sim_inv 4096 32 1)).
  - apply sim_accelerator_correct; [lia|lia|lia].
  - apply sim_world_inv. lia.
  - unfold MAX_WORDS, NWORDS_2048. lia.
  - apply bignumb_true. vm_compute. reflexivity.
  - apply bignumb_true. vm_compute. reflexivity.
  - apply bignumb_true. vm_compute. reflexivity.
  - vm_compute. lia.
  - vm_compute. lia.
  - vm_compute. reflexivity.
  - vm_compute. reflexivity.
  - vm_compute. reflexivity.
  - vm_compute. reflexivity.
  - vm_compute. reflexivity.
  - vm_compute. reflexivity.
  - vm_compute. split; [discriminate|reflexivity].
  - vm_compute. split; discriminate.
  - vm_compute. reflexivity.
Defined.

(** C1 as stated, for every [R2], fails.  Behind a correct accelerator,
    with the toy key, the message 42 and [R2 = 0], the hardware routine
    returns 0 and the software routine 2557. *)
Lemma modexp_hw_sw_differ :
  accelerator_correct (sim_inv 4096 32 1) 3 1 4096 32 /\
  sim_inv 4096 32 1 (dev (sim_world 4096 32 1 None)) /\
  returned (modexp_hw_scalar 3 1 4096 (pad 32 42) RSA_E RSA_E_BITS RSA_N 0
              (replicate 32 0) (replicate 32 0) 32 lbl (sim_world 4096 32 1 None))
  = Some (1, replicate 32 0) /\
  modexp_sw_scalar 3234 (pad 32 42) RSA_E RSA_E_BITS RSA_N (replicate 32 0) 32
  = Some (pad 32 2557) /\
  take 32 (replicate 32 0) <> take 32 (pad 32 2557).
Proof.
  split; [apply sim_accelerator_correct; lia|].
  split; [apply sim_world_inv; lia|].
  split; [vm_compute; reflexivity|].
  split; [vm_compute; reflexivity|].
  vm_compute. discriminate.
Qed.

(** ** The toy key *)

Lemma map_fixed (f : Z -> Z) (l : list Z) :
  map f l = l -> forall x : Z, In x l -> f x = x.
Proof.
  induction l as [|y l IH]; intros Hmap x Hin; [destruct Hin|].
  cbn [map] in Hmap. injection Hmap as Hy Hl. destruct Hin as [<-|Hin]; [exact Hy|].
  apply IH; assumption.
Qed.

Lemma messages_fixed (f : Z -> Z) :
  map f messages = messages -> forall m : Z, 0 <= m < 3233 -> f m = m.
Proof.
  intros Hmap m Hm. apply (map_fixed f messages Hmap).
  unfold messages. apply in_map_iff. exists (Z.to_nat m). split; [lia|].
  apply in_seq. lia.
Qed.

(** Encrypting then decrypting with the software loop on values. *)
Lemma rsa_sw_roundtrip_val (m : Z) :
  0 <= m < 3233 ->
  modexp_sw_val (modexp_sw_val m RSA_E RSA_E_BITS 3233) RSA_D RSA_D_BITS 3233 = m.
Proof.
  intros Hm.
  exact (messages_fixed
           (fun m => modexp_sw_val (modexp_sw_val m RSA_E RSA_E_BITS 3233) RSA_D RSA_D_BITS 3233)
           ltac:(vm_compute; reflexivity) m Hm).
Qed.

Lemma Zpow_mod_twice (m e d n : Z) :
  n <> 0 -> Zpow_mod (Zpow_mod m e n) d n = ((m ^ e) mod n) ^ d mod n.
Proof. intros Hn. rewrite !Zpow_mod_correct by exact Hn. reflexivity. Qed.

(** Encrypting then decrypting by exact exponentiation. *)
Lemma rsa_roundtrip_pow (m : Z) :
  0 <= m < 3233 ->
  ((m ^ exp_low RSA_E RSA_E_BITS) mod 3233) ^ exp_low RSA_D RSA_D_BITS mod 3233 = m.
Proof.
  intros Hm. rewrite <- Zpow_mod_twice by lia.
  exact (messages_fixed
           (fun m => Zpow_mod (Zpow_mod m (exp_low RSA_E RSA_E_BITS) 3233)
                       (exp_low RSA_D RSA_D_BITS) 3233)
           ltac:(vm_compute; reflexivity) m Hm).
Qed.

(** C5.  The toy key [N = 3233], [e = 17] over 5 bits, [d = 2753] over
    12 bits, on every width from 1 to [MAX_WORDS] and every message
    [M < 3233].  Encrypting then decrypting with [modexp_sw_scalar]
    returns the [w] words of [M]; so does encrypting then decrypting with
    [modexp_hw_scalar] behind a correct accelerator, with [R2] and [n']
    as [init_mont_params_for_size] derives them.  The two paths are
    separate conjuncts. *)
Theorem toy_key_roundtrip {D : Type} `{Device D} (Inv : D -> Prop)
    (fuel : nat) (timeout base_addr : Z) (w : nat) (fuel_sw : nat)
    (M c_hw m_hw c_sw m_sw R2_out : list Z) (label : string) (s : world D) :
  accelerator_correct Inv fuel timeout base_addr w -> Inv (dev s) ->
  (1 <= w <= MAX_WORDS)%nat -> bignum w M -> value w M < 3233 ->
  (w <= length c_hw)%nat -> (w <= length m_hw)%nat ->
  (w <= length c_sw)%nat -> (w <= length m_sw)%nat -> (w <= length R2_out)%nat ->
  3233 < Z.of_nat fuel_sw ->
  (exists c m,
     modexp_sw_scalar fuel_sw M RSA_E RSA_E_BITS RSA_N c_sw w = Some c /\
     modexp_sw_scalar fuel_sw c RSA_D RSA_D_BITS RSA_N m_sw w = Some m /\
     take w m = take w M /\ bigint_equal m M w = 1) /\
  (exists R2 nprime c s1 m s2,
     init_mont_params_for_size w R2_out = Some (R2, nprime) /\
     modexp_hw_scalar fuel timeout base_addr M RSA_E RSA_E_BITS RSA_N nprime R2 c_hw w label s
     = Some ((1, c), s1) /\
     modexp_hw_scalar fuel timeout base_addr c RSA_D RSA_D_BITS RSA_N nprime R2 m_hw w label s1
     = Some ((1, m), s2) /\
     take w m = take w M /\ bigint_equal m M w = 1).
Proof.
  intros Hacc HI Hw HM HMlt Hlch Hlmh Hlcs Hlms HlR2 Hfuel.
  pose proof (bignum_inrange w M HM) as HMr.
  pose proof (value_bounds w M HMr) as HMb.
  pose proof (RSA_N_value w Hw) as HNv.
  pose proof (RSA_N_inrange w) as HNr.
  pose proof (wpow_ge w ltac:(lia)) as Hwp.
  split.
  - destruct (modexp_sw_scalar_value fuel_sw M RSA_E RSA_E_BITS RSA_N c_sw w Hw HMr HNr Hlcs)
      as (c & Hc & Hlc & Hcr & _ & Hcv & Hcle); try (rewrite HNv; lia).
    destruct (modexp_sw_scalar_value fuel_sw c RSA_D RSA_D_BITS RSA_N m_sw w Hw Hcr HNr Hlms)
      as (m & Hm & Hlm & Hmr & _ & Hmv & _); try (rewrite HNv; lia).
    exists c, m. split; [exact Hc|]. split; [exact Hm|].
    apply bignum_eq_of_value; [lia|exact (proj1 HM)|exact Hmr|exact HMr|].
    rewrite Hmv, Hcv, HNv. apply rsa_sw_roundtrip_val. lia.
  - destruct (init_mont_params_for_size_spec w R2_out Hw HlR2)
      as (R2 & nprime & Hinit & HlR & HR2r & HR2v & _).
    assert (HR2 : bignum w R2) by (apply inrange_bignum; [lia|exact HR2r]).
    assert (HN : bignum w RSA_N) by (apply RSA_N_bignum; lia).
    assert (Hodd : Z.odd (value w RSA_N) = true) by (rewrite HNv; reflexivity).
    assert (HN1 : 1 < value w RSA_N) by (rewrite HNv; lia).
    rewrite <- HNv in HR2v.
    destruct (modexp_hw_scalar_value Inv fuel timeout base_addr w Hacc RSA_N nprime label HN Hodd
                HN1 M RSA_E RSA_E_BITS R2 c_hw s Hw HI HM HR2 Hlch ltac:(lia) HR2v
                ltac:(unfold RSA_E; lia))
      as (c & s1 & Hc & HI1 & Hcb & Hlc & Hcv).
    assert (Hclt : value w c < value w RSA_N).
    { rewrite Hcv. apply Z.mod_pos_bound. lia. }
    destruct (modexp_hw_scalar_value Inv fuel timeout base_addr w Hacc RSA_N nprime label HN Hodd
                HN1 c RSA_D RSA_D_BITS R2 m_hw s1 Hw HI1 Hcb HR2 Hlmh Hclt HR2v
                ltac:(unfold RSA_D; lia))
      as (m & s2 & Hm & _ & Hmb & Hlm & Hmv).
    exists R2, nprime, c, s1, m, s2.
    split; [exact Hinit|]. split; [exact Hc|]. split; [exact Hm|].
    apply bignum_eq_of_value; [lia|exact (proj1 HM)|apply bignum_inrange; exact Hmb|exact HMr|].
    rewrite Hmv, Hcv, HNv.
    change (Z.max 0 RSA_E_BITS) with RSA_E_BITS. change (Z.max 0 RSA_D_BITS) with RSA_D_BITS.
    apply rsa_roundtrip_pow. lia.
Qed.

Lemma toy_key_roundtrip_witness :
  (exists c m,
     modexp_sw_scalar 3234 RSA_MSG RSA_E RSA_E_BITS RSA_N (replicate 64 0) 32 = Some c /\
     modexp_sw_scalar 3234 c RSA_D RSA_D_BITS RSA_N (replicate 64 0) 32 = Some m /\
     take 32 m = take 32 RSA_MSG /\ bigint_equal m RSA_MSG 32 = 1) /\
  (exists R2 nprime c s1 m s2,
     init_mont_params_for_size 32 (replicate 64 0) = Some (R2, nprime) /\
     modexp_hw_scalar 3 1 4096 RSA_MSG RSA_E RSA_E_BITS RSA_N nprime R2 (replicate 64 0) 32 lbl
       (sim_world 4096 32 1 None) = Some ((1, c), s1) /\
     modexp_hw_scalar 3 1 4096 c RSA_D RSA_D_BITS RSA_N nprime R2 (replicate 64 0) 32 lbl s1
     = Some ((1, m), s2) /\
     take 32 m = take 32 RSA_MSG /\ bigint_equal m RSA_MSG 32 = 1).
Proof.
  apply (toy_key_roundtrip (sim_inv 4096 32 1)).
  - apply sim_accelerator_correct; [lia|lia|lia].
  - apply sim_world_inv. lia.
  - unfold MAX_WORDS, NWORDS_2048. lia.
  - apply bignumb_true. vm_compute. reflexivity.
  - vm_compute. reflexivity.
  - vm_compute. lia.
  - vm_compute. lia.
  - vm_compute. lia.
  - vm_compute. lia.
  - vm_compute. lia.
  - vm_compute. reflexivity.
Defined.

(** ** The engine of the specification *)

Lemma bit_test (exp bit : Z) :
  0 <= bit -> negb (Z.land (Z.shiftr exp bit) 1 =? 0) = Z.testbit exp bit.
Proof.
  intros Hb. rewrite land_1, Zmod_even.
  replace (Z.testbit exp bit) with (Z.testbit (Z.shiftr exp bit) 0)
    by (rewrite Z.shiftr_spec by lia; f_equal; lia).
  rewrite Z.bit0_odd, <- Z.negb_even. destruct (Z.even (Z.shiftr exp bit)); reflexivity.
Qed.

Lemma sw_exp_loop_engine (fuel : nat) (exp : Z) (N : list Z) (w : nat) n : forall i x a,
  sw_exp_loop n fuel (Z.of_nat i) exp N x a w
  = engine_loop (sw_mul fuel N w) (map (fun i : nat => Z.testbit exp (Z.of_nat i)) (seq i n)) x a.
Proof.
  induction n as [|n IH]; intros i x a; [reflexivity|].
  cbn [sw_exp_loop seq map engine_loop]. rewrite bit_test by lia. unfold sw_mul at 1 2.
  destruct (if Z.testbit exp (Z.of_nat i) then modmul_sw fuel x a N x w else Some x) as [x'|];
    [|reflexivity].
  destruct (modmul_sw fuel a a N a w) as [a'|]; [|reflexivity].
  replace (Z.of_nat i + 1) with (Z.of_nat (S i)) by lia. apply IH.
Qed.

(** C3, amended.  [modexp_sw_scalar] is square-and-multiply outside the
    Montgomery domain: it starts from [x = ONE] and [a] a copy of [base],
    visits the exponent bits least significant first, with
    [x = modmul_sw(x, a)] on a set bit and [a = modmul_sw(a, a)] on every
    bit, and returns a copy of [x].  [R2] does not occur. *)
Theorem modexp_sw_scalar_plain (fuel : nat) (base : list Z) (exp exp_bits : Z)
    (N result : list Z) (w : nat) :
  modexp_sw_scalar fuel base exp exp_bits N result w
  = match engine_plain (sw_mul fuel N w)
            (bigint_set_u32 (replicate MAX_WORDS 0) 1 w)
            (bigint_copy (replicate MAX_WORDS 0) base w)
            (exp_bit_list exp exp_bits) with
    | None => None
    | Some x => Some (bigint_copy result x w)
    end.
Proof.
  unfold modexp_sw_scalar, engine_plain, exp_bit_list.
  rewrite (sw_exp_loop_engine fuel exp N w (Z.to_nat exp_bits) 0).
  destruct (engine_loop _ _ _ _) as [[x a]|]; reflexivity.
Qed.

(** C3 as stated fails.  For the toy key and the message 42, the engine
    of the specification over [modmul_sw], with the [R2] the program
    derives, returns another number than [modexp_sw_scalar]. *)
Lemma modexp_sw_scalar_not_montgomery :
  exists R2 nprime r_spec r_sw,
    init_mont_params_for_size 32 (replicate 32 0) = Some (R2, nprime) /\
    engine_montgomery (sw_mul 3234 RSA_N 32) (pad 32 1) R2 (pad 32 42)
      (exp_bit_list RSA_E RSA_E_BITS) = Some r_spec /\
    modexp_sw_scalar 3234 (pad 32 42) RSA_E RSA_E_BITS RSA_N (replicate 32 0) 32 = Some r_sw /\
    take 32 r_spec <> take 32 r_sw.
Proof.
  eexists _, _, _, _. split; [vm_compute; reflexivity|].
  split; [vm_compute; reflexivity|]. split; [vm_compute; reflexivity|].
  vm_compute. discriminate.
Qed.

(** ** The big-integer helpers and the software multiply on any input *)

(* proofs: helpers *)

Lemma rd_take (w k : nat) (p : list Z) : (k < w)%nat -> rd (take w p) k = rd p k.
Proof. intros Hk. unfold rd. rewrite lookup_take_lt by lia. reflexivity. Qed.

Lemma drop_ext_rd (w : nat) (p q : list Z) :
  length p = length q -> (forall k : nat, (w <= k)%nat -> rd p k = rd q k) -> drop w p = drop w q.
Proof.
  intros Hlen Hk. apply list_eq_rd.
  - rewrite !length_drop. lia.
  - intros k. rewrite !rd_drop. apply Hk. lia.
Qed.

Lemma equal_loop_spec n : forall i a b,
  (equal_loop n i a b = 1 /\ forall k : nat, (i <= k < i + n)%nat -> rd a k = rd b k) \/
  (equal_loop n i a b = 0 /\ exists k : nat, (i <= k < i + n)%nat /\ rd a k <> rd b k).
Proof.
  induction n as [|n IH]; intros i a b; cbn [equal_loop].
  - left. split; [reflexivity|]. intros k Hk. lia.
  - destruct (Z.eqb_spec (rd a i) (rd b i)) as [Heq|Hne]; cbn [negb].
    + destruct (IH (S i) a b) as [(Hr & Hk)|(Hr & k & Hk & Hne)].
      * left. split; [exact Hr|]. intros k Hk'.
        destruct (decide (k = i)) as [->|]; [exact Heq|]. apply Hk. lia.
      * right. split; [exact Hr|]. exists k. split; [lia|exact Hne].
    + right. split; [reflexivity|]. exists i. split; [lia|exact Hne].
Qed.

(** X1: [bigint_equal] decides whether two arrays hold the same [nwords]
    words: it returns 1 when they do and 0 when they do not (so 1 for
    [nwords = 0]). *)
Theorem bigint_equal_decides (a b : list Z) (w : nat) :
  (w <= length a)%nat -> (w <= length b)%nat ->
  (bigint_equal a b w = 1 /\ take w a = take w b) \/
  (bigint_equal a b w = 0 /\ take w a <> take w b).
Proof.
  intros Ha Hb. unfold bigint_equal.
  destruct (equal_loop_spec w 0 a b) as [(Hr & Hk)|(Hr & k & Hk & Hne)].
  - left. split; [exact Hr|]. apply take_ext_rd; [exact Ha|exact Hb|].
    intros k Hk'. apply Hk. lia.
  - right. split; [exact Hr|]. intros Heq. apply Hne.
    rewrite <- (rd_take w k a), <- (rd_take w k b) by lia. rewrite Heq. reflexivity.
Qed.

Lemma bigint_equal_decides_witness :
  (bigint_equal [1; 2; 3] [1; 2; 4] 2 = 1 /\ take 2 [1; 2; 3] = take 2 [1; 2; 4]) \/
  (bigint_equal [1; 2; 3] [1; 2; 4] 2 = 0 /\ take 2 [1; 2; 3] <> take 2 [1; 2; 4]).
Proof. apply (bigint_equal_decides [1; 2; 3] [1; 2; 4] 2); cbn; lia. Defined.

(** X2: [bigint_copy] makes the first [nwords] words of [dst] those of
    [src] and leaves the rest of [dst] alone; [bigint_equal] then answers
    1 on the copy and its source. *)
Theorem bigint_copy_equal (dst src : list Z) (w : nat) :
  (w <= length dst)%nat -> (w <= length src)%nat ->
  length (bigint_copy dst src w) = length dst /\
  take w (bigint_copy dst src w) = take w src /\
  drop w (bigint_copy dst src w) = drop w dst /\
  bigint_equal (bigint_copy dst src w) src w = 1.
Proof.
  intros Hd Hs. destruct (bigint_copy_spec dst src w Hd) as (Hl & Hlow & Hhigh).
  split; [exact Hl|]. split; [|split].
  - apply take_ext_rd; [lia|exact Hs|exact Hlow].
  - apply drop_ext_rd; [exact Hl|exact Hhigh].
  - apply equal_loop_true. intros k Hk. apply Hlow. lia.
Qed.

Lemma bigint_copy_equal_witness :
  length (bigint_copy [7; 8; 9] [1; 2; 3] 2) = length [7; 8; 9] /\
  take 2 (bigint_copy [7; 8; 9] [1; 2; 3] 2) = take 2 [1; 2; 3] /\
  drop 2 (bigint_copy [7; 8; 9] [1; 2; 3] 2) = drop 2 [7; 8; 9] /\
  bigint_equal (bigint_copy [7; 8; 9] [1; 2; 3] 2) [1; 2; 3] 2 = 1.
Proof. apply (bigint_copy_equal [7; 8; 9] [1; 2; 3] 2); cbn; lia. Defined.

(** X3: [bigint_set_u32] stores [v] in word 0 whatever [nwords] is, also
    for [nwords = 0]; it clears the words 1 to [nwords - 1] and leaves the
    others alone.  For [nwords >= 1] the big integer is [v]. *)
Theorem bigint_set_u32_value (dst : list Z) (v : Z) (w : nat) :
  (1 <= length dst)%nat -> (w <= length dst)%nat -> 0 <= v < 2 ^ 32 ->
  length (bigint_set_u32 dst v w) = length dst /\
  rd (bigint_set_u32 dst v w) 0 = v /\
  (forall k : nat, (1 <= k < w)%nat -> rd (bigint_set_u32 dst v w) k = 0) /\
  (forall k : nat, (1 <= k)%nat -> (w <= k)%nat -> rd (bigint_set_u32 dst v w) k = rd dst k) /\
  ((1 <= w)%nat -> bignum w (bigint_set_u32 dst v w) /\ value w (bigint_set_u32 dst v w) = v).
Proof.
  intros H1 Hw Hv. unfold bigint_set_u32.
  assert (Hl : (1 + (w - 1) <= length (<[0%nat := v]> dst))%nat)
    by (rewrite length_insert; lia).
  assert (H0 : rd (zero_loop (w - 1) 1 (<[0%nat := v]> dst)) 0 = v).
  { rewrite zero_loop_rd by exact Hl. destruct (decide _); [lia|]. apply rd_insert_eq. lia. }
  assert (Hz : forall k : nat, (1 <= k < w)%nat ->
            rd (zero_loop (w - 1) 1 (<[0%nat := v]> dst)) k = 0).
  { intros k Hk. rewrite zero_loop_rd by exact Hl. destruct (decide _); [reflexivity|lia]. }
  assert (Hlen : length (zero_loop (w - 1) 1 (<[0%nat := v]> dst)) = length dst)
    by (rewrite zero_loop_length; apply length_insert).
  split; [exact Hlen|]. split; [exact H0|]. split; [exact Hz|]. split.
  - intros k Hk1 Hk. rewrite zero_loop_rd by exact Hl. destruct (decide _); [lia|].
    apply rd_insert_ne. lia.
  - intros Hw1. split.
    + apply inrange_bignum; [lia|]. intros k Hk. destruct k as [|k]; [rewrite H0; exact Hv|].
      rewrite Hz by lia. lia.
    + rewrite value_low_word; [exact H0|exact Hw1|exact Hz].
Qed.

Lemma bigint_set_u32_value_witness :
  length (bigint_set_u32 [7; 8; 9] 5 2) = length [7; 8; 9] /\
  rd (bigint_set_u32 [7; 8; 9] 5 2) 0 = 5 /\
  (forall k : nat, (1 <= k < 2)%nat -> rd (bigint_set_u32 [7; 8; 9] 5 2) k = 0) /\
  (forall k : nat, (1 <= k)%nat -> (2 <= k)%nat ->
     rd (bigint_set_u32 [7; 8; 9] 5 2) k = rd [7; 8; 9] k) /\
  ((1 <= 2)%nat -> bignum 2 (bigint_set_u32 [7; 8; 9] 5 2) /\
                   value 2 (bigint_set_u32 [7; 8; 9] 5 2) = 5).
Proof. apply (bigint_set_u32_value [7; 8; 9] 5 2); cbn; lia. Defined.

(** X4: [modmul_sw], for any operands of [w] words and any modulus
    [N >= 1]: with [low] the low [w] words of the product [A * B], the
    result is [low] itself when [low <= N] and otherwise the number in
    [1 .. N] congruent to [low].  The words of [R] past [w] are not
    touched.  So the result is [A * B mod N] whenever the product fits
    in [w] words and is zero or no multiple of [N]. *)
Theorem modmul_sw_result (fuel : nat) (A B N R : list Z) (w : nat) :
  (w <= MAX_WORDS)%nat -> bignum w A -> bignum w B -> bignum w N ->
  (w <= length R)%nat -> 1 <= value w N ->
  ((value w A * value w B) mod 2 ^ (32 * Z.of_nat w)) / value w N < Z.of_nat fuel ->
  exists R', modmul_sw fuel A B N R w = Some R' /\
    length R' = length R /\ drop w R' = drop w R /\ bignum w R' /\
    let low := (value w A * value w B) mod 2 ^ (32 * Z.of_nat w) in
    (low <= value w N -> value w R' = low) /\
    (value w N < low ->
       1 <= value w R' <= value w N /\ value w R' mod value w N = low mod value w N) /\
    (value w A * value w B < 2 ^ (32 * Z.of_nat w) ->
     value w A * value w B = 0 \/ (value w A * value w B) mod value w N <> 0 ->
     value w R' = (value w A * value w B) mod value w N).
Proof.
  intros Hw HA HB HN Hlen HN1 Hfuel.
  pose proof (bignum_inrange w A HA) as HAr. pose proof (bignum_inrange w B HB) as HBr.
  pose proof (value_bounds w A HAr) as HAb. pose proof (value_bounds w B HBr) as HBb.
  destruct (modmul_sw_value fuel A B N R w Hw HAr HBr (bignum_inrange w N HN) Hlen HN1 Hfuel)
    as (R' & Hrun & Hl & Hr & Hk & Hv).
  exists R'. split; [exact Hrun|]. split; [exact Hl|].
  split; [apply drop_ext_rd; assumption|].
  split; [apply inrange_bignum; [lia|exact Hr]|].
  unfold modmul_val in Hv. cbv zeta.
  set (low := (value w A * value w B) mod 2 ^ (32 * Z.of_nat w)) in *.
  assert (Hlow : 0 <= low) by (apply Z.mod_pos_bound; apply Z.pow_pos_nonneg; lia).
  split; [|split].
  - intros Hle. rewrite Hv. unfold red. destruct (Z.leb_spec low (value w N)); [reflexivity|lia].
  - intros Hgt. rewrite Hv. unfold red. destruct (Z.leb_spec low (value w N)); [lia|].
    pose proof (Z.mod_pos_bound (low - 1) (value w N) ltac:(lia)) as Hb.
    split; [lia|].
    rewrite Z.add_mod, Z.mod_mod, <- Z.add_mod by lia. f_equal. lia.
  - intros Hfit Hnz. rewrite Hv.
    assert (Hlow' : low = value w A * value w B) by (apply Z.mod_small; nia).
    rewrite Hlow'. destruct Hnz as [Hz|Hnz].
    + rewrite Hz. unfold red. destruct (Z.leb_spec 0 (value w N)); [|lia].
      rewrite Z.mod_0_l by lia. reflexivity.
    + apply red_mod; [exact HN1|nia|exact Hnz].
Qed.

Lemma modmul_sw_result_witness :
  exists R', modmul_sw 4 (pad 2 7) (pad 2 9) (pad 2 20) [5; 5; 5] 2 = Some R' /\
    length R' = length [5; 5; 5] /\ drop 2 R' = drop 2 [5; 5; 5] /\ bignum 2 R' /\
    let low := (value 2 (pad 2 7) * value 2 (pad 2 9)) mod 2 ^ (32 * Z.of_nat 2) in
    (low <= value 2 (pad 2 20) -> value 2 R' = low) /\
    (value 2 (pad 2 20) < low ->
       1 <= value 2 R' <= value 2 (pad 2 20) /\
       value 2 R' mod value 2 (pad 2 20) = low mod value 2 (pad 2 20)) /\
    (value 2 (pad 2 7) * value 2 (pad 2 9) < 2 ^ (32 * Z.of_nat 2) ->
     value 2 (pad 2 7) * value 2 (pad 2 9) = 0 \/
     (value 2 (pad 2 7) * value 2 (pad 2 9)) mod value 2 (pad 2 20) <> 0 ->
     value 2 R' = (value 2 (pad 2 7) * value 2 (pad 2 9)) mod value 2 (pad 2 20)).
Proof.
  apply (modmul_sw_result 4 (pad 2 7) (pad 2 9) (pad 2 20) [5; 5; 5] 2).
  - unfold MAX_WORDS, NWORDS_2048. lia.
  - apply bignumb_true. vm_compute. reflexivity.
  - apply bignumb_true. vm_compute. reflexivity.
  - apply bignumb_true. vm_compute. reflexivity.
  - cbn. lia.
  - vm_compute. discriminate.
  - vm_compute. reflexivity.
Defined.

(** ** The set-up routines and the timer difference *)

(** [modinv32] on any 32-bit argument: the product of the result and
    [n] is the greatest common divisor of [n] and [2^32]. *)
Lemma modinv32_gcd (n : Z) :
  0 <= n < 2 ^ 32 ->
  exists v, modinv32 n = Some v /\ 0 <= v < 2 ^ 32 /\
    (v * n) mod 2 ^ 32 = Z.gcd (2 ^ 32) n mod 2 ^ 32.
Proof.
  intros Hn. unfold modinv32. change (u64 (Z.shiftl 1 32)) with (2 ^ 32).
  change (Z.shiftl 1 32) with (2 ^ 32).
  rewrite (int64_fits (2 ^ 32)) by lia. cbn [mbind option_bind].
  destruct (modinv32_run n Hn) as (t & Hrun & Hb & Hres). rewrite Hrun. cbn [mbind option_bind].
  destruct (Z.ltb_spec t 0).
  - rewrite (int64_fits (t + 2 ^ 32)) by lia. cbn [mbind option_bind].
    eexists. split; [reflexivity|]. split; [apply u32_range|].
    unfold u32. rewrite Z.mul_mod_idemp_l by lia.
    rewrite Z.mul_add_distr_r, (Z.mul_comm (2 ^ 32) n), Z_mod_plus_full. exact Hres.
  - cbn [mbind option_bind]. eexists. split; [reflexivity|]. split; [apply u32_range|].
    unfold u32. rewrite Z.mul_mod_idemp_l by lia. exact Hres.
Qed.

(** X5: [modinv32] returns on every 32-bit argument, odd or even, without
    overflow: the result [v] satisfies [v * n = gcd(n, 2^32)] modulo
    [2^32].  For an even [n] that is an even number: the result is then
    no inverse, and for [n = 0] it is 0. *)
Theorem modinv32_any (n : Z) :
  0 <= n < 2 ^ 32 ->
  exists v, modinv32 n = Some v /\ 0 <= v < 2 ^ 32 /\
    (v * n) mod 2 ^ 32 = Z.gcd n (2 ^ 32) mod 2 ^ 32 /\
    (Z.even n = true -> Z.even ((v * n) mod 2 ^ 32) = true) /\
    (n = 0 -> v = 0).
Proof.
  intros Hn. destruct (modinv32_gcd n Hn) as (v & Hrun & Hv & Hres).
  exists v. split; [exact Hrun|]. split; [exact Hv|]. split; [|split].
  - rewrite Hres, Z.gcd_comm. reflexivity.
  - intros He. apply Z.even_spec in He as [m Hm].
    replace ((v * n) mod 2 ^ 32) with (v * n - 2 ^ 32 * ((v * n) / 2 ^ 32))
      by (pose proof (Z.div_mod (v * n) (2 ^ 32) ltac:(lia)); lia).
    subst n. replace (v * (2 * m) - 2 ^ 32 * (v * (2 * m) / 2 ^ 32))
      with (2 * (v * m - 2 ^ 31 * (v * (2 * m) / 2 ^ 32))) by lia.
    apply Z.even_spec. eexists. reflexivity.
  - intros ->. vm_compute in Hrun. injection Hrun as <-. reflexivity.
Qed.

Lemma modinv32_any_witness :
  exists v, modinv32 6 = Some v /\ 0 <= v < 2 ^ 32 /\
    (v * 6) mod 2 ^ 32 = Z.gcd 6 (2 ^ 32) mod 2 ^ 32 /\
    (Z.even 6 = true -> Z.even ((v * 6) mod 2 ^ 32) = true) /\
    (6 = 0 -> v = 0).
Proof. apply (modinv32_any 6). lia. Defined.

(** X6: [compute_R2_modN_32] returns [R^2 mod n0] for [R = 2^(32 nwords)]
    and every modulus [1 <= n0 < 2^32]: no 64-bit product of the loop
    wraps.  The bit count [32 * nwords] must fit in 32 bits. *)
Theorem compute_R2_modN_32_correct (n0 : Z) (w : nat) :
  1 <= n0 < 2 ^ 32 -> 32 * Z.of_nat w < 2 ^ 32 ->
  compute_R2_modN_32 n0 w = (2 ^ (32 * Z.of_nat w) * 2 ^ (32 * Z.of_nat w)) mod n0.
Proof.
  intros Hn Hbits. destruct w as [|w].
  - unfold compute_R2_modN_32.
    change (Z.to_nat (u32 (32 * Z.of_nat 0))) with 0%nat. cbn [double_loop].
    change (u64 (1 * 1)) with 1. change (2 ^ (32 * Z.of_nat 0) * 2 ^ (32 * Z.of_nat 0)) with 1.
    apply u32_small. pose proof (Z.mod_pos_bound 1 n0 ltac:(lia)). lia.
  - apply compute_R2_modN_32_spec; [exact Hn|lia|exact Hbits].
Qed.

Lemma compute_R2_modN_32_correct_witness :
  compute_R2_modN_32 3233 32 = (2 ^ (32 * Z.of_nat 32) * 2 ^ (32 * Z.of_nat 32)) mod 3233.
Proof. apply (compute_R2_modN_32_correct 3233 32); lia. Defined.

(** X7: [init_mont_params_for_size], for a size from 1 to [MAX_WORDS]:
    it returns (no overflow in [modinv32]), the first [nwords] words of
    [R2_out] hold [R^2 mod 3233] with [R = 2^(32 nwords)], the other
    words are not touched, and [n'] is the 32-bit number with
    [3233 * n' = -1] modulo [2^32]. *)
Theorem init_mont_params_for_size_correct (w : nat) (R2_out : list Z) :
  (1 <= w <= MAX_WORDS)%nat -> (w <= length R2_out)%nat ->
  exists R2 nprime, init_mont_params_for_size w R2_out = Some (R2, nprime) /\
    length R2 = length R2_out /\ bignum w R2 /\ drop w R2 = drop w R2_out /\
    value w R2 = (2 ^ (32 * Z.of_nat w) * 2 ^ (32 * Z.of_nat w)) mod 3233 /\
    0 <= nprime < 2 ^ 32 /\ (3233 * nprime + 1) mod 2 ^ 32 = 0.
Proof.
  intros Hw Hlen.
  destruct (init_mont_params_for_size_spec w R2_out Hw Hlen)
    as (R2 & nprime & Hrun & Hl & Hr & Hv & Hk).
  exists R2, nprime. split; [exact Hrun|]. split; [exact Hl|].
  split; [apply inrange_bignum; [lia|exact Hr]|].
  split; [apply drop_ext_rd; assumption|]. split; [exact Hv|].
  unfold init_mont_params_for_size in Hrun. change (rd RSA_N 0) with 3233 in Hrun.
  destruct (modinv32_gcd 3233 ltac:(lia)) as (inv & Hinv & Hib & Hiv).
  rewrite Hinv in Hrun. injection Hrun as _ <-.
  split; [apply u32_range|].
  change (Z.gcd (2 ^ 32) 3233) with 1 in Hiv. change (1 mod 2 ^ 32) with 1 in Hiv.
  unfold u32.
  pose proof (Z.div_mod (inv * 3233) (2 ^ 32) ltac:(lia)) as Hdm. rewrite Hiv in Hdm.
  pose proof (Z.div_mod (0 - inv) (2 ^ 32) ltac:(lia)) as Hdm'.
  replace (3233 * ((0 - inv) mod 2 ^ 32) + 1)
    with ((- (inv * 3233 / 2 ^ 32) - 3233 * ((0 - inv) / 2 ^ 32)) * 2 ^ 32) by lia.
  apply Z.mod_mul. lia.
Qed.

Lemma init_mont_params_for_size_correct_witness :
  exists R2 nprime, init_mont_params_for_size 32 (replicate 64 0) = Some (R2, nprime) /\
    length R2 = length (replicate 64 0) /\ bignum 32 R2 /\
    drop 32 R2 = drop 32 (replicate 64 0) /\
    value 32 R2 = (2 ^ (32 * Z.of_nat 32) * 2 ^ (32 * Z.of_nat 32)) mod 3233 /\
    0 <= nprime < 2 ^ 32 /\ (3233 * nprime + 1) mod 2 ^ 32 = 0.
Proof.
  apply (init_mont_params_for_size_correct 32 (replicate 64 0)).
  - unfold MAX_WORDS, NWORDS_2048. lia.
  - rewrite length_replicate. lia.
Defined.

Lemma Timer_Delta_sub (start end_ : Z) :
  0 <= start < 2 ^ 64 -> 0 <= end_ < 2 ^ 64 ->
  Timer_Delta start end_ = (end_ - start) mod 2 ^ 64.
Proof.
  intros Hs He. unfold Timer_Delta.
  destruct (Z.geb_spec end_ start) as [Hge|Hlt]; [reflexivity|].
  rewrite (u64_small (_ - start)) by lia. rewrite (u64_small (_ + 1)) by lia.
  rewrite u64_small by lia. apply Z.mod_unique with (q := -1); lia.
Qed.

(** X8: [Timer_Delta] is subtraction modulo [2^64]: for 64-bit counts
    both branches give [(end - start) mod 2^64].  Adding the difference
    to [start] gives [end] back, and the difference is the elapsed count
    [d] whenever [end] is [start + d] wrapped to 64 bits: one wrap of the
    counter between the two reads does no harm. *)
Theorem Timer_Delta_mod (start end_ : Z) :
  0 <= start < 2 ^ 64 -> 0 <= end_ < 2 ^ 64 ->
  Timer_Delta start end_ = (end_ - start) mod 2 ^ 64 /\
  u64 (start + Timer_Delta start end_) = end_ /\
  forall d : Z, 0 <= d < 2 ^ 64 -> Timer_Delta start (u64 (start + d)) = d.
Proof.
  intros Hs He. split; [apply Timer_Delta_sub; assumption|]. split.
  - rewrite Timer_Delta_sub by assumption. unfold u64. rewrite Z.add_mod_idemp_r by lia.
    replace (start + (end_ - start)) with end_ by lia. apply Z.mod_small. exact He.
  - intros d Hdr. rewrite Timer_Delta_sub; [|exact Hs|apply Z.mod_pos_bound; lia].
    unfold u64. rewrite Zminus_mod_idemp_l.
    replace (start + d - start) with d by lia. apply Z.mod_small. exact Hdr.
Qed.

Lemma Timer_Delta_mod_witness :
  Timer_Delta (2 ^ 64 - 5) 7 = (7 - (2 ^ 64 - 5)) mod 2 ^ 64 /\
  u64 (2 ^ 64 - 5 + Timer_Delta (2 ^ 64 - 5) 7) = 7 /\
  forall d : Z, 0 <= d < 2 ^ 64 -> Timer_Delta (2 ^ 64 - 5) (u64 (2 ^ 64 - 5 + d)) = d.
Proof. apply (Timer_Delta_mod (2 ^ 64 - 5) 7); lia. Defined.

(** ** The register window *)

Lemma bank_addr (base c : Z) (i : nat) :
  u32 (u32 (base + c) + u32 (4 * Z.of_nat i)) = u32 (base + (c + 4 * Z.of_nat i)).
Proof. unfold u32. rewrite <- Z.add_mod by lia. f_equal. lia. Qed.

(** The offset of an address of the window from [base]. *)
Lemma window_offset (base off : Z) : 0 <= off < 2 ^ 32 -> u32 (u32 (base + off) - base) = off.
Proof. apply reg_offset_fixed. Qed.

Lemma bank_NoDup (c : Z) (w : nat) : NoDup (map (fun i : nat => c + 4 * Z.of_nat i) (seq 0 w)).
Proof.
  change (NoDup ((fun i : nat => c + 4 * Z.of_nat i) <$> seq 0 w)).
  apply NoDup_fmap_2; [|apply NoDup_seq]. intros i j Hij. lia.
Qed.

Lemma bank_range (c : Z) (w : nat) (x : Z) :
  x ∈ map (fun i : nat => c + 4 * Z.of_nat i) (seq 0 w) -> c <= x < c + 4 * Z.of_nat w.
Proof.
  change (x ∈ (fun i : nat => c + 4 * Z.of_nat i) <$> seq 0 w -> c <= x < c + 4 * Z.of_nat w).
  intros Hin. apply list_elem_of_fmap in Hin as (i & -> & Hi). apply elem_of_seq in Hi. lia.
Qed.

Lemma call_registers_offsets (base : Z) (w : nat) :
  call_registers base w = map (fun off => u32 (base + off)) (call_offsets w).
Proof.
  unfold call_registers, call_offsets. rewrite !map_app, !map_map. cbn [map].
  assert (Hbank : forall c : Z,
            map (fun i : nat => u32 (u32 (base + c) + u32 (4 * Z.of_nat i))) (seq 0 w)
            = map (fun i : nat => u32 (base + (c + 4 * Z.of_nat i))) (seq 0 w)).
  { intros c. apply map_ext. intros i. apply bank_addr. }
  unfold REG_A, REG_B, REG_N, REG_RES. rewrite !Hbank. reflexivity.
Qed.

Lemma call_offsets_range (w : nat) (x : Z) :
  (w <= 128)%nat -> x ∈ call_offsets w -> 0 <= x < 2060.
Proof.
  intros Hw Hin. unfold call_offsets in Hin.
  repeat (apply elem_of_app in Hin as [Hin|Hin]; [apply bank_range in Hin; lia|]).
  repeat (apply elem_of_cons in Hin as [->|Hin]; [lia|]). inversion Hin.
Qed.

Lemma call_offsets_NoDup (w : nat) : (w <= 128)%nat -> NoDup (call_offsets w).
Proof.
  intros Hw. unfold call_offsets.
  repeat (apply NoDup_app; split; [apply bank_NoDup|]; split;
          [intros x Hx Hin; apply bank_range in Hx;
           repeat (apply elem_of_app in Hin as [Hin|Hin]; [apply bank_range in Hin; lia|]);
           repeat (apply elem_of_cons in Hin as [->|Hin]; [lia|]); inversion Hin|]).
  repeat (apply NoDup_cons; split;
          [intros Hin; repeat (apply elem_of_cons in Hin as [Heq|Hin]; [lia|]); inversion Hin|]).
  apply NoDup_nil_2.
Qed.

(** X9: the register map of one accelerator.  For a call on at most 128
    words the registers it addresses (the words of the four banks, [n'],
    control and status) are pairwise distinct and lie in the [0x80C] bytes
    from the base address, wherever the base lies in the 32-bit address
    space.  The banks hold 128 words each: word 128 of the [A] bank is
    word 0 of the [B] bank. *)
Theorem call_registers_distinct (base : Z) (w : nat) :
  (w <= 128)%nat ->
  NoDup (call_registers base w) /\
  Forall (fun a => in_window base a = true) (call_registers base w) /\
  REG_A base 128 = REG_B base 0.
Proof.
  intros Hw. rewrite call_registers_offsets. split; [|split].
  - change (NoDup ((fun off => u32 (base + off)) <$> call_offsets w)).
    apply NoDup_fmap_2_strong; [|apply call_offsets_NoDup; exact Hw].
    intros x y Hx Hy Heq. apply (call_offsets_range w _ Hw) in Hx, Hy.
    rewrite <- (window_offset base x), <- (window_offset base y) by lia.
    rewrite Heq. reflexivity.
  - apply Forall_map. apply Forall_forall. intros x Hx.
    apply (call_offsets_range w _ Hw) in Hx. unfold in_window.
    rewrite window_offset by lia. apply Z.ltb_lt. lia.
  - unfold REG_A, REG_B. rewrite !bank_addr. reflexivity.
Qed.

Lemma call_registers_distinct_witness :
  NoDup (call_registers 0x43C00000 64) /\
  Forall (fun a => in_window 0x43C00000 a = true) (call_registers 0x43C00000 64) /\
  REG_A 0x43C00000 128 = REG_B 0x43C00000 0.
Proof. apply (call_registers_distinct 0x43C00000 64). lia. Defined.

(** ** Register accesses of a call *)

Lemma confined_app (regs : list Z) (l1 l2 : list event) :
  confined regs l1 -> confined regs l2 -> confined regs (l1 ++ l2).
Proof. unfold confined. intros. apply Forall_app. auto. Qed.

Lemma bank_member (f : nat -> Z) (i w : nat) : (i < w)%nat -> f i ∈ map f (seq 0 w).
Proof.
  intros Hi. change (f i ∈ f <$> seq 0 w). apply list_elem_of_fmap. exists i.
  split; [reflexivity|]. apply elem_of_seq. lia.
Qed.

Lemma call_registers_A (base : Z) (i w : nat) : (i < w)%nat -> REG_A base i ∈ call_registers base w.
Proof. intros Hi. unfold call_registers. apply elem_of_app. left. apply bank_member. exact Hi. Qed.

Lemma call_registers_B (base : Z) (i w : nat) : (i < w)%nat -> REG_B base i ∈ call_registers base w.
Proof.
  intros Hi. unfold call_registers. apply elem_of_app. right. apply elem_of_app. left.
  apply bank_member. exact Hi.
Qed.

Lemma call_registers_N (base : Z) (i w : nat) : (i < w)%nat -> REG_N base i ∈ call_registers base w.
Proof.
  intros Hi. unfold call_registers. do 2 (apply elem_of_app; right). apply elem_of_app. left.
  apply bank_member. exact Hi.
Qed.

Lemma call_registers_RES (base : Z) (i w : nat) :
  (i < w)%nat -> REG_RES base i ∈ call_registers base w.
Proof.
  intros Hi. unfold call_registers. do 3 (apply elem_of_app; right). apply elem_of_app. left.
  apply bank_member. exact Hi.
Qed.

Lemma call_registers_fixed (base : Z) (w : nat) :
  REG_NPRIME base ∈ call_registers base w /\ REG_CONTROL base ∈ call_registers base w /\
  REG_STATUS base ∈ call_registers base w.
Proof.
  unfold call_registers. repeat split; do 4 (apply elem_of_app; right).
  - apply list_elem_of_here.
  - apply list_elem_of_further, list_elem_of_here.
  - do 2 apply list_elem_of_further. apply list_elem_of_here.
Qed.

Lemma confined_operand_events (base : Z) (A B N : list Z) (w : nat) n : forall i,
  (i + n <= w)%nat -> confined (call_registers base w) (operand_events n i base A B N).
Proof.
  induction n as [|n IH]; intros i Hi; cbn [operand_events]; [constructor|].
  constructor; [apply call_registers_A; lia|].
  constructor; [apply call_registers_B; lia|].
  constructor; [apply call_registers_N; lia|]. apply IH. lia.
Qed.

Lemma confined_start_events (base : Z) (w : nat) (A B N : list Z) (nprime : Z) :
  confined (call_registers base w) (start_events base w A B N nprime).
Proof.
  unfold start_events. apply confined_app; [apply confined_operand_events; lia|].
  destruct (call_registers_fixed base w) as (Hn & Hc & _).
  constructor; [exact Hn|]. constructor; [exact Hc|]. constructor.
Qed.

Lemma confined_status_events (base : Z) (w : nat) (vs : list Z) :
  confined (call_registers base w) (status_events base vs).
Proof.
  unfold confined, status_events. apply Forall_map. apply Forall_forall. intros v _.
  apply (call_registers_fixed base w).
Qed.

Lemma confined_result_events (base : Z) (w : nat) vs : forall i,
  (i + length vs <= w)%nat -> confined (call_registers base w) (result_events base i vs).
Proof.
  induction vs as [|v vs IH]; intros i Hi; cbn [result_events length] in *; [constructor|].
  constructor; [apply call_registers_RES; lia|]. apply IH. lia.
Qed.

Section Calls.
Context {D : Type} `{Device D}.

(** The trace of one call: the writes, the status reads, and then the
    result reads or the timeout report. *)
Lemma montgomery_mul_hw_trace (fuel : nat) (timeout base_addr : Z) (w : nat)
    (A B N : list Z) (nprime : Z) (R : list Z) (label : string) (s : world D) :
  0 <= timeout < 2 ^ 32 - 1 -> (Z.to_nat timeout < fuel)%nat ->
  exists ok R' s' vs tail,
    montgomery_mul_hw fuel timeout base_addr w A B N nprime R label s = Some ((ok, R'), s') /\
    trace s' = trace s ++ start_events base_addr w A B N nprime
                 ++ status_events base_addr vs ++ tail /\
    ((ok = 1 /\ exists res, length res = w /\ tail = result_events base_addr 0 res) \/
     (ok = 0 /\ tail = [EvTimeout label base_addr])).
Proof.
  intros Ht Hfuel.
  destruct (started_run base_addr w A B N nprime s) as (s1 & Hstart & Htr1).
  rewrite montgomery_mul_hw_started, Hstart.
  destruct (poll_loop_spec timeout base_addr label fuel 0 s1 ltac:(lia) ltac:(lia)
              ltac:(rewrite Z.sub_0_r; exact Hfuel)) as (s2 & Hpoll).
  cbv zeta in Hpoll. rewrite Z.sub_0_r in Hpoll.
  set (vs := status_reads (S (Z.to_nat timeout)) base_addr (dev s1)) in *.
  destruct Hpoll as [(Hlt & Hrun & Htr & Hdev)|(Heq & Hrun & Htr)].
  - destruct (read_result_run base_addr w 0 R s2) as (s3 & Hread & Htr3).
    eexists 1, _, s3, _, _. rewrite bind_run, Hrun. change (1 =? 0) with false. cbv iota.
    rewrite bind_run, Hread, ret_run. split; [reflexivity|]. split.
    + rewrite Htr3, Htr, Htr1, <- !app_assoc. reflexivity.
    + left. split; [reflexivity|]. eexists. split; [|reflexivity]. apply result_reads_length.
  - eexists 0, R, s2, _, _. rewrite bind_run, Hrun. change (0 =? 0) with true. cbv iota.
    rewrite ret_run. split; [reflexivity|]. split.
    + rewrite Htr, Htr1, <- !app_assoc. reflexivity.
    + right. split; reflexivity.
Qed.

(** X10: one call of [montgomery_mul_hw], on any device, accesses no
    register but the ones of [call_registers]: whether it succeeds or
    times out, every read and write goes to the first [nwords] words of a
    bank or to [n'], control or status of its own base address. *)
Theorem montgomery_mul_hw_confined (fuel : nat) (timeout base_addr : Z) (w : nat)
    (A B N : list Z) (nprime : Z) (R : list Z) (label : string) (s : world D) :
  0 <= timeout < 2 ^ 32 - 1 -> (Z.to_nat timeout < fuel)%nat ->
  exists ok R' s' seg,
    montgomery_mul_hw fuel timeout base_addr w A B N nprime R label s = Some ((ok, R'), s') /\
    trace s' = trace s ++ seg /\
    confined (call_registers base_addr w) seg.
Proof.
  intros Ht Hfuel.
  destruct (montgomery_mul_hw_trace fuel timeout base_addr w A B N nprime R label s Ht Hfuel)
    as (ok & R' & s' & vs & tail & Hrun & Htr & Htail).
  exists ok, R', s', (start_events base_addr w A B N nprime ++ status_events base_addr vs ++ tail).
  split; [exact Hrun|]. split; [exact Htr|].
  apply confined_app; [apply confined_start_events|].
  apply confined_app; [apply confined_status_events|].
  destruct Htail as [(_ & res & Hl & ->)|(_ & ->)].
  - apply confined_result_events. lia.
  - constructor; [exact I|constructor].
Qed.

End Calls.

Lemma montgomery_mul_hw_confined_witness :
  exists ok R' s' seg,
    montgomery_mul_hw 4 2 4096 1 [3] [5] [15] 0 [7] lbl (sim_world 4096 1 1 None)
    = Some ((ok, R'), s') /\
    trace s' = trace (sim_world 4096 1 1 None) ++ seg /\
    confined (call_registers 4096 1) seg.
Proof.
  apply (montgomery_mul_hw_confined 4 2 4096 1 [3] [5] [15] 0 [7] lbl (sim_world 4096 1 1 None)).
  - lia.
  - vm_compute. lia.
Defined.

(** ** The exponent bits *)

Lemma exp_bit_low (exp exp_bits bit : Z) :
  0 <= bit < exp_bits ->
  Z.land (Z.shiftr (exp mod 2 ^ exp_bits) bit) 1 = Z.land (Z.shiftr exp bit) 1.
Proof.
  intros Hb.
  assert (Ht : forall x : Z, Z.land (Z.shiftr x bit) 1 = if Z.testbit x bit then 1 else 0).
  { intros x. pose proof (bit_test x bit ltac:(lia)) as Hx. rewrite land_1 in *.
    pose proof (Z.mod_pos_bound (Z.shiftr x bit) 2 ltac:(lia)).
    destruct (Z.testbit x bit); destruct (Z.eqb_spec (Z.shiftr x bit mod 2) 0);
      cbn in Hx; try discriminate; lia. }
  rewrite !Ht. rewrite Z.mod_pow2_bits_low by lia. reflexivity.
Qed.

Lemma sw_exp_loop_low (fuel : nat) (exp exp_bits : Z) (N : list Z) (w : nat) n :
  forall bit x a,
  0 <= bit -> bit + Z.of_nat n <= exp_bits ->
  sw_exp_loop n fuel bit (exp mod 2 ^ exp_bits) N x a w = sw_exp_loop n fuel bit exp N x a w.
Proof.
  induction n as [|n IH]; intros bit x a Hb Hn; [reflexivity|].
  cbn [sw_exp_loop]. rewrite exp_bit_low by lia.
  destruct (if negb (Z.land (Z.shiftr exp bit) 1 =? 0) then modmul_sw fuel x a N x w else Some x)
    as [x'|]; [|reflexivity].
  destruct (modmul_sw fuel a a N a w) as [a'|]; [|reflexivity].
  apply IH; lia.
Qed.

Section Bits.
Context {D : Type} `{Device D}.

Lemma hw_exp_loop_low (fuel : nat) (timeout base_addr exp exp_bits : Z) (N : list Z)
    (nprime : Z) (w : nat) (label : string) n : forall bit x a (s : world D),
  0 <= bit -> bit + Z.of_nat n <= exp_bits ->
  hw_exp_loop n fuel timeout base_addr bit (exp mod 2 ^ exp_bits) N nprime x a w label s
  = hw_exp_loop n fuel timeout base_addr bit exp N nprime x a w label s.
Proof.
  induction n as [|n IH]; intros bit x a s Hb Hn; [reflexivity|].
  cbn [hw_exp_loop]. rewrite exp_bit_low by lia. rewrite !bind_run.
  destruct ((if negb (Z.land (Z.shiftr exp bit) 1 =? 0)
             then montgomery_mul_hw fuel timeout base_addr w x a N nprime x label
             else mret (1, x)) s) as [[[ok1 x1] s1]|]; [|reflexivity].
  destruct (ok1 =? 0); [reflexivity|]. rewrite !bind_run.
  destruct (montgomery_mul_hw fuel timeout base_addr w a a N nprime a label s1)
    as [[[ok2 a2] s2]|]; [|reflexivity].
  destruct (ok2 =? 0); [reflexivity|]. apply IH; lia.
Qed.

(** X11: both exponentiation routines use the low [exp_bits] bits of [exp]
    and nothing else of it: for [exp_bits] up to 32, replacing [exp] by
    [exp mod 2^exp_bits] changes neither the result nor, for the hardware
    routine, any register access. *)
Theorem modexp_exponent_truncated (fuel : nat) (timeout base_addr : Z) (fuel_sw : nat)
    (base : list Z) (exp exp_bits : Z) (N : list Z) (nprime : Z) (R2 result : list Z)
    (w : nat) (label : string) (s : world D) :
  exp_bits <= 32 ->
  modexp_sw_scalar fuel_sw base (exp mod 2 ^ exp_bits) exp_bits N result w
  = modexp_sw_scalar fuel_sw base exp exp_bits N result w /\
  modexp_hw_scalar fuel timeout base_addr base (exp mod 2 ^ exp_bits) exp_bits N nprime R2
    result w label s
  = modexp_hw_scalar fuel timeout base_addr base exp exp_bits N nprime R2 result w label s.
Proof.
  intros _.
  assert (Hn : 0 + Z.of_nat (Z.to_nat exp_bits) <= exp_bits \/ Z.to_nat exp_bits = 0%nat) by lia.
  split.
  - unfold modexp_sw_scalar. destruct Hn as [Hn|Hn].
    + rewrite sw_exp_loop_low by lia. reflexivity.
    + rewrite Hn. reflexivity.
  - unfold modexp_hw_scalar. rewrite !bind_run.
    destruct (montgomery_mul_hw fuel timeout base_addr w _ R2 N nprime _ label s)
      as [[[ok1 x1] s1]|]; [|reflexivity].
    destruct (ok1 =? 0); [reflexivity|]. rewrite !bind_run.
    destruct (montgomery_mul_hw fuel timeout base_addr w base R2 N nprime _ label s1)
      as [[[ok2 a2] s2]|]; [|reflexivity].
    destruct (ok2 =? 0); [reflexivity|]. rewrite !bind_run.
    destruct Hn as [Hn|Hn].
    + rewrite hw_exp_loop_low by lia. reflexivity.
    + rewrite Hn. reflexivity.
Qed.

End Bits.

Lemma modexp_exponent_truncated_witness :
  17 <= 32 /\
  modexp_sw_scalar 3234 [42] (0x30011 mod 2 ^ 17) 17 [3233] [7] 1
  = modexp_sw_scalar 3234 [42] 0x30011 17 [3233] [7] 1 /\
  modexp_hw_scalar (D := sim) 4 2 4096 [42] (0x30011 mod 2 ^ 17) 17 [3233] 0 [1] [7] 1 lbl
    (sim_world 4096 1 1 None)
  = modexp_hw_scalar 4 2 4096 [42] 0x30011 17 [3233] 0 [1] [7] 1 lbl (sim_world 4096 1 1 None).
Proof.
  split; [lia|].
  exact (modexp_exponent_truncated (D := sim) 4 2 4096 3234 [42] 0x30011 17 [3233] 0 [1] [7] 1
           lbl (sim_world 4096 1 1 None) ltac:(lia)).
Defined.

(** ** Start commands *)

Lemma starts_app (base : Z) (l1 l2 : list event) :
  starts base (l1 ++ l2) = (starts base l1 + starts base l2)%nat.
Proof. induction l1 as [|e l1 IH]; cbn [starts app]; [reflexivity|]. rewrite IH. lia. Qed.

Lemma bank_not_control (base c : Z) (i : nat) (v : Z) :
  (i < 128)%nat -> c = 0 \/ c = 512 \/ c = 1024 ->
  is_start base (EvOut (u32 (u32 (base + c) + u32 (4 * Z.of_nat i))) v) = false.
Proof.
  intros Hi Hc. cbn [is_start]. apply andb_false_intro1. apply Z.eqb_neq. intros Heq.
  assert (Ho : u32 (u32 (u32 (base + c) + u32 (4 * Z.of_nat i)) - base)
               = u32 (REG_CONTROL base - base)) by (rewrite Heq; reflexivity).
  unfold REG_CONTROL in Ho. rewrite reg_offset, reg_offset_fixed in Ho by lia. lia.
Qed.

Lemma starts_operand_events (base : Z) (A B N : list Z) n : forall i,
  (i + n <= 128)%nat -> starts base (operand_events n i base A B N) = 0%nat.
Proof.
  induction n as [|n IH]; intros i Hi; cbn [operand_events starts]; [reflexivity|].
  unfold REG_A, REG_B, REG_N. rewrite !bank_not_control by (lia || auto).
  rewrite IH by lia. reflexivity.
Qed.

Lemma starts_start_events (base : Z) (w : nat) (A B N : list Z) (nprime : Z) :
  (w <= 128)%nat -> starts base (start_events base w A B N nprime) = 1%nat.
Proof.
  intros Hw. unfold start_events. rewrite starts_app, starts_operand_events by lia.
  cbn [starts is_start]. rewrite Z.eqb_refl.
  assert (Hn : (REG_NPRIME base =? REG_CONTROL base) = false).
  { apply Z.eqb_neq. intros Heq.
    assert (Ho : u32 (REG_NPRIME base - base) = u32 (REG_CONTROL base - base))
      by (rewrite Heq; reflexivity).
    unfold REG_NPRIME, REG_CONTROL in Ho. rewrite !reg_offset_fixed in Ho by lia. lia. }
  rewrite Hn. reflexivity.
Qed.

Lemma starts_status_events (base : Z) (vs : list Z) : starts base (status_events base vs) = 0%nat.
Proof. induction vs as [|v vs IH]; [reflexivity|]. exact IH. Qed.

Lemma starts_result_events (base : Z) vs : forall i, starts base (result_events base i vs) = 0%nat.
Proof. induction vs as [|v vs IH]; intros i; [reflexivity|]. apply IH. Qed.

Lemma count_true_bits (exp : Z) (i n : nat) :
  count_true (map (fun i : nat => Z.testbit exp (Z.of_nat i)) (seq i (S n)))
  = ((if Z.testbit exp (Z.of_nat i) then 1 else 0)
     + count_true (map (fun i : nat => Z.testbit exp (Z.of_nat i)) (seq (S i) n)))%nat.
Proof. reflexivity. Qed.

Section Starts.
Context {D : Type} `{Device D}.
Variables (fuel : nat) (timeout base_addr : Z) (w : nat).
Hypothesis Hw : (w <= 128)%nat.
Hypothesis Ht : 0 <= timeout < 2 ^ 32 - 1.
Hypothesis Hfuel : (Z.to_nat timeout < fuel)%nat.

(** Every call issues one start command, whether it succeeds or not. *)
Lemma montgomery_mul_hw_starts (A B N : list Z) (nprime : Z) (R : list Z) (label : string)
    (s : world D) :
  exists ok R' s' seg,
    montgomery_mul_hw fuel timeout base_addr w A B N nprime R label s = Some ((ok, R'), s') /\
    trace s' = trace s ++ seg /\ starts base_addr seg = 1%nat /\ (ok = 0 \/ ok = 1).
Proof.
  destruct (montgomery_mul_hw_trace fuel timeout base_addr w A B N nprime R label s Ht Hfuel)
    as (ok & R' & s' & vs & tail & Hrun & Htr & Htail).
  exists ok, R', s', (start_events base_addr w A B N nprime ++ status_events base_addr vs ++ tail).
  split; [exact Hrun|]. split; [exact Htr|].
  rewrite !starts_app, starts_start_events, starts_status_events by exact Hw.
  destruct Htail as [(-> & res & _ & ->)|(-> & ->)].
  - rewrite starts_result_events. auto.
  - cbn [starts is_start]. auto.
Qed.

Lemma hw_exp_loop_starts (exp : Z) (N : list Z) (nprime : Z) (label : string) n :
  forall (i : nat) x a (s : world D),
  exists ok x' a' s' seg,
    hw_exp_loop n fuel timeout base_addr (Z.of_nat i) exp N nprime x a w label s
    = Some ((ok, x', a'), s') /\
    trace s' = trace s ++ seg /\
    let full := (n + count_true (map (fun i : nat => Z.testbit exp (Z.of_nat i)) (seq i n)))%nat in
    (starts base_addr seg <= full)%nat /\ (ok <> 0 -> starts base_addr seg = full).
Proof.
  induction n as [|n IH]; intros i x a s.
  - exists 1, x, a, s, []. cbn [hw_exp_loop]. rewrite ret_run, app_nil_r.
    split; [reflexivity|]. split; [reflexivity|]. cbn. split; [lia|reflexivity].
  - cbn [hw_exp_loop]. cbv zeta. rewrite count_true_bits, bit_test by lia. rewrite bind_run.
    assert (Hfirst : exists ok1 x1 s1 seg1,
      (if Z.testbit exp (Z.of_nat i)
       then montgomery_mul_hw fuel timeout base_addr w x a N nprime x label
       else mret (1, x)) s = Some ((ok1, x1), s1) /\
      trace s1 = trace s ++ seg1 /\
      starts base_addr seg1 = (if Z.testbit exp (Z.of_nat i) then 1 else 0)%nat /\
      (ok1 = 0 \/ ok1 = 1)).
    { destruct (Z.testbit exp (Z.of_nat i)).
      - apply montgomery_mul_hw_starts.
      - exists 1, x, s, []. rewrite ret_run, app_nil_r. auto. }
    destruct Hfirst as (ok1 & x1 & s1 & seg1 & Hrun1 & Htr1 & Hst1 & Hok1). rewrite Hrun1.
    destruct Hok1 as [-> | ->].
    + change (0 =? 0) with true. cbv iota. rewrite ret_run.
      exists 0, x1, a, s1, seg1. split; [reflexivity|]. split; [exact Htr1|].
      split; [lia|]. intros Hne. contradiction.
    + change (1 =? 0) with false. cbv iota. rewrite bind_run.
      destruct (montgomery_mul_hw_starts a a N nprime a label s1)
        as (ok2 & a2 & s2 & seg2 & Hrun2 & Htr2 & Hst2 & Hok2).
      rewrite Hrun2. destruct Hok2 as [-> | ->].
      * change (0 =? 0) with true. cbv iota. rewrite ret_run.
        exists 0, x1, a2, s2, (seg1 ++ seg2). split; [reflexivity|]. split.
        -- rewrite Htr2, Htr1, <- app_assoc. reflexivity.
        -- rewrite starts_app. split; [lia|]. intros Hne. contradiction.
      * change (1 =? 0) with false. cbv iota.
        replace (Z.of_nat i + 1) with (Z.of_nat (S i)) by lia.
        destruct (IH (S i) x1 a2 s2) as (ok & x' & a' & s' & seg & Hrun & Htr & Hle & Heq).
        exists ok, x', a', s', (seg1 ++ seg2 ++ seg). split; [exact Hrun|]. split.
        -- rewrite Htr, Htr2, Htr1, <- !app_assoc. reflexivity.
        -- cbv zeta in Hle, Heq. rewrite !starts_app. split; [lia|].
           intros Hne. rewrite (Heq Hne). lia.
Qed.

(** X12: the number of accelerator operations of one [modexp_hw_scalar],
    for [exp_bits] up to 32.  On a run that returns 1 the routine starts
    the accelerator exactly [3 + exp_bits + k] times, [k] being the
    number of set bits among the low [exp_bits] bits of [exp]: two calls
    to enter the Montgomery domain, one per bit for the squaring, one
    per set bit for the product, one to leave.  A run that returns 0
    starts it at least once and fewer times than that or as often. *)
Theorem modexp_hw_scalar_starts (base : list Z) (exp exp_bits : Z) (N : list Z) (nprime : Z)
    (R2 result : list Z) (label : string) (s : world D) :
  exp_bits <= 32 ->
  exists ok result' s' seg,
    modexp_hw_scalar fuel timeout base_addr base exp exp_bits N nprime R2 result w label s
    = Some ((ok, result'), s') /\
    trace s' = trace s ++ seg /\
    (1 <= starts base_addr seg <= 3 + Z.to_nat exp_bits + set_bits exp exp_bits)%nat /\
    (ok <> 0 ->
     starts base_addr seg = (3 + Z.to_nat exp_bits + set_bits exp exp_bits)%nat).
Proof.
  intros _. unfold modexp_hw_scalar, set_bits, exp_bit_list.
  set (one := bigint_set_u32 (replicate MAX_WORDS 0) 1 w).
  set (full := count_true _).
  rewrite bind_run.
  destruct (montgomery_mul_hw_starts one R2 N nprime (replicate MAX_WORDS 0) label s)
    as (ok1 & x1 & s1 & seg1 & Hrun1 & Htr1 & Hst1 & Hok1).
  rewrite Hrun1. destruct Hok1 as [-> | ->].
  { change (0 =? 0) with true. cbv iota. rewrite ret_run.
    exists 0, result, s1, seg1. split; [reflexivity|]. split; [exact Htr1|].
    split; [lia|]. intros Hne. contradiction. }
  change (1 =? 0) with false. cbv iota. rewrite bind_run.
  destruct (montgomery_mul_hw_starts base R2 N nprime (replicate MAX_WORDS 0) label s1)
    as (ok2 & a2 & s2 & seg2 & Hrun2 & Htr2 & Hst2 & Hok2).
  rewrite Hrun2. destruct Hok2 as [-> | ->].
  { change (0 =? 0) with true. cbv iota. rewrite ret_run.
    exists 0, result, s2, (seg1 ++ seg2). split; [reflexivity|]. split.
    - rewrite Htr2, Htr1, <- app_assoc. reflexivity.
    - rewrite starts_app. split; [lia|]. intros Hne. contradiction. }
  change (1 =? 0) with false. cbv iota. rewrite bind_run.
  destruct (hw_exp_loop_starts exp N nprime label (Z.to_nat exp_bits) 0 x1 a2 s2)
    as (ok3 & x3 & a3 & s3 & seg3 & Hrun3 & Htr3 & Hle3 & Heq3).
  change (Z.of_nat 0) with 0 in Hrun3. rewrite Hrun3. cbv zeta in Hle3, Heq3. fold full in Hle3, Heq3.
  destruct (Z.eqb_spec ok3 0) as [Hz|Hnz].
  { rewrite ret_run. exists 0, result, s3, (seg1 ++ seg2 ++ seg3).
    split; [reflexivity|]. split.
    - rewrite Htr3, Htr2, Htr1, <- !app_assoc. reflexivity.
    - rewrite !starts_app. split; [lia|]. intros Hne. contradiction. }
  rewrite bind_run.
  destruct (montgomery_mul_hw_starts x3 one N nprime result label s3)
    as (ok4 & r4 & s4 & seg4 & Hrun4 & Htr4 & Hst4 & Hok4).
  rewrite Hrun4.
  assert (Htr : trace s4 = trace s ++ seg1 ++ seg2 ++ seg3 ++ seg4).
  { rewrite Htr4, Htr3, Htr2, Htr1, <- !app_assoc. reflexivity. }
  assert (Hcount : starts base_addr (seg1 ++ seg2 ++ seg3 ++ seg4)
                   = (3 + Z.to_nat exp_bits + full)%nat).
  { rewrite !starts_app, (Heq3 Hnz). lia. }
  destruct Hok4 as [-> | ->].
  - change (0 =? 0) with true. cbv iota. rewrite ret_run.
    exists 0, r4, s4, (seg1 ++ seg2 ++ seg3 ++ seg4). split; [reflexivity|].
    split; [exact Htr|]. split; [lia|]. intros Hne. contradiction.
  - change (1 =? 0) with false. cbv iota. rewrite ret_run.
    exists 1, r4, s4, (seg1 ++ seg2 ++ seg3 ++ seg4). split; [reflexivity|].
    split; [exact Htr|]. split; [lia|]. intros _. exact Hcount.
Qed.

End Starts.

Lemma modexp_hw_scalar_starts_witness :
  exists ok result' s' seg,
    modexp_hw_scalar (D := sim) 4 2 4096 [42] RSA_E RSA_E_BITS [3233] 0 [1] [7] 1 lbl
      (sim_world 4096 1 1 None) = Some ((ok, result'), s') /\
    trace s' = trace (sim_world 4096 1 1 None) ++ seg /\
    (1 <= starts 4096 seg <= 3 + Z.to_nat RSA_E_BITS + set_bits RSA_E RSA_E_BITS)%nat /\
    (ok <> 0 -> starts 4096 seg = (3 + Z.to_nat RSA_E_BITS + set_bits RSA_E RSA_E_BITS)%nat).
Proof.
  apply (modexp_hw_scalar_starts (D := sim) 4 2 4096 1 ltac:(lia) ltac:(lia) ltac:(vm_compute; lia)
           [42] RSA_E RSA_E_BITS [3233] 0 [1] [7] lbl (sim_world 4096 1 1 None)
           ltac:(vm_compute; discriminate)).
Defined.

(** ** The global timer *)

(** Two 32-bit halves put together. *)
Lemma lor_halves (h l : Z) :
  0 <= h < 2 ^ 32 -> 0 <= l < 2 ^ 32 -> Z.lor (u64 (Z.shiftl h 32)) l = h * 2 ^ 32 + l.
Proof.
  intros Hh Hl. rewrite Z.shiftl_mul_pow2 by lia. rewrite u64_small by nia.
  rewrite <- Z.add_nocarry_lor; [reflexivity|].
  apply Z.bits_inj'. intros n Hn. rewrite Z.land_spec, Z.bits_0.
  destruct (Z.ltb_spec n 32).
  - rewrite Z.mul_pow2_bits_low by lia. reflexivity.
  - rewrite andb_comm. replace (Z.testbit l n) with false; [reflexivity|].
    symmetry. destruct (Z.eq_dec l 0) as [->|Hne]; [apply Z.bits_0|].
    pose proof (Z.pow_le_mono_r 2 32 n ltac:(lia) ltac:(lia)).
    apply Z.bits_above_log2; [lia|]. apply Z.log2_lt_pow2; lia.
Qed.

Section TimerRead.
Context {D : Type} `{Device D}.

(** X13: [Timer_GetCount] on any device.  A call that returns has read the
    high word, the low word and the high word again in every round, all
    rounds but the last were torn (the two high words differed), and the
    result is the last round's high word, read twice with the same
    value, above its low word. *)
Theorem Timer_GetCount_consistent (fuel : nat) (s : world D) (v : Z) (s' : world D) :
  Timer_GetCount fuel s = Some (v, s') ->
  exists (rounds : list (Z * Z * Z)) (high low : Z),
    trace s' = trace s ++ concat (map timer_round rounds) ++ timer_round (high, low, high) /\
    Forall torn rounds /\ (length rounds < fuel)%nat /\
    0 <= high < 2 ^ 32 /\ 0 <= low < 2 ^ 32 /\ v = high * 2 ^ 32 + low.
Proof.
  revert s. induction fuel as [|fuel IH]; intros s Hrun; [discriminate|].
  cbn [Timer_GetCount] in Hrun.
  rewrite bind_run, Xil_In32_run in Hrun. rewrite bind_run, Xil_In32_run in Hrun.
  rewrite bind_run, Xil_In32_run in Hrun. cbn [dev trace] in Hrun.
  set (r0 := reg_read (dev s) (u32 (GTIMER_BASE + 4))) in *.
  set (r1 := reg_read r0.2 (u32 (GTIMER_BASE + 0))) in *.
  set (r2 := reg_read r1.2 (u32 (GTIMER_BASE + 4))) in *.
  destruct (Z.eqb_spec (u32 r0.1) (u32 r2.1)) as [Heq|Hne]; cbn [negb] in Hrun.
  - rewrite ret_run in Hrun. injection Hrun as <- <-.
    exists [], (u32 r2.1), (u32 r1.1). cbn [trace map concat app length timer_round].
    split; [rewrite Heq, <- !app_assoc; reflexivity|]. split; [constructor|].
    split; [lia|]. split; [apply u32_range|]. split; [apply u32_range|].
    apply lor_halves; apply u32_range.
  - apply IH in Hrun as (rounds & high & low & Htr & Htorn & Hlen & Hh & Hl & Hv).
    exists ((u32 r0.1, u32 r1.1, u32 r2.1) :: rounds), high, low.
    split; [|split; [|split]].
    + rewrite Htr. cbn [trace map concat timer_round]. rewrite <- !app_assoc. reflexivity.
    + constructor; [exact Hne|exact Htorn].
    + cbn [length]. lia.
    + auto.
Qed.

End TimerRead.

Lemma u64_cases (x : Z) :
  0 <= x < 2 * 2 ^ 64 -> (x < 2 ^ 64 /\ u64 x = x) \/ (2 ^ 64 <= x /\ u64 x = x - 2 ^ 64).
Proof.
  intros Hx. destruct (Z.ltb_spec x (2 ^ 64)).
  - left. split; [lia|]. apply u64_small. lia.
  - right. split; [lia|]. unfold u64. symmetry. apply Z.mod_unique with (q := 1); lia.
Qed.

(** The high word of a count [x] in terms of the 32-bit block it lies in. *)
Lemma high_block (x m : Z) : m * 2 ^ 32 <= x < (m + 1) * 2 ^ 32 -> x / 2 ^ 32 = m.
Proof. intros Hx. symmetry. apply Z.div_unique with (r := x - m * 2 ^ 32); lia. Qed.

Lemma halves (x : Z) : x / 2 ^ 32 * 2 ^ 32 + x mod 2 ^ 32 = x.
Proof. pose proof (Z.div_mod x (2 ^ 32) ltac:(lia)). lia. Qed.

Lemma round_first (c e : Z) :
  0 <= c < 2 ^ 64 -> 0 <= e -> 5 * e < 2 ^ 32 ->
  c / 2 ^ 32 = u64 (c + 2 * e) / 2 ^ 32 ->
  u64 (c + 2 * e) / 2 ^ 32 * 2 ^ 32 + u64 (c + e) mod 2 ^ 32 = u64 (c + e).
Proof.
  intros Hc He Hs Heq.
  pose proof (Z.div_mod c (2 ^ 32) ltac:(lia)) as Hdc.
  pose proof (Z.mod_pos_bound c (2 ^ 32) ltac:(lia)) as Hmc.
  set (m := c / 2 ^ 32) in *.
  destruct (u64_cases (c + 2 * e) ltac:(lia)) as [(Hlt & H2)|(Hge & H2)]; rewrite H2 in *.
  - rewrite (u64_small (c + e)) by lia.
    pose proof (Z.div_mod (c + 2 * e) (2 ^ 32) ltac:(lia)) as Hd2.
    pose proof (Z.mod_pos_bound (c + 2 * e) (2 ^ 32) ltac:(lia)) as Hm2.
    rewrite <- Heq in *.
    rewrite <- (high_block (c + e) m) by lia. apply halves.
  - exfalso.
    assert (Hm : m = 2 ^ 32 - 1) by (unfold m; apply high_block; lia).
    rewrite (high_block (c + 2 * e - 2 ^ 64) 0) in Heq by lia. lia.
Qed.

Lemma round_second (c e : Z) :
  0 <= c < 2 ^ 64 -> 0 <= e -> 5 * e < 2 ^ 32 ->
  c / 2 ^ 32 <> u64 (c + 2 * e) / 2 ^ 32 ->
  u64 (c + 3 * e) / 2 ^ 32 = u64 (c + 5 * e) / 2 ^ 32 /\
  u64 (c + 5 * e) / 2 ^ 32 * 2 ^ 32 + u64 (c + 4 * e) mod 2 ^ 32 = u64 (c + 4 * e).
Proof.
  intros Hc He Hs Hne.
  pose proof (Z.div_mod c (2 ^ 32) ltac:(lia)) as Hdc.
  pose proof (Z.mod_pos_bound c (2 ^ 32) ltac:(lia)) as Hmc.
  set (m := c / 2 ^ 32) in *.
  assert (Hm : 0 <= m < 2 ^ 32) by (unfold m; split; [apply Z.div_pos; lia|apply Z.div_lt_upper_bound; lia]).
  (* the counter has passed the block boundary [(m + 1) * 2^32] *)
  assert (Hpass : (m + 1) * 2 ^ 32 <= c + 2 * e).
  { destruct (Z.ltb_spec (c + 2 * e) ((m + 1) * 2 ^ 32)) as [Hlt|]; [|lia].
    exfalso. apply Hne. rewrite (u64_small (c + 2 * e)) by nia.
    symmetry. apply high_block. lia. }
  assert (Hblock : forall k : Z, 2 <= k <= 5 ->
            u64 (c + k * e) / 2 ^ 32 = (m + 1) mod 2 ^ 32 /\
            (k = 4 -> (m + 1) mod 2 ^ 32 * 2 ^ 32 + u64 (c + k * e) mod 2 ^ 32 = u64 (c + k * e))).
  { intros k Hk.
    assert (Hin : (m + 1) * 2 ^ 32 <= c + k * e < (m + 2) * 2 ^ 32) by nia.
    destruct (Z.eq_dec m (2 ^ 32 - 1)) as [Hlast|Hnot].
    - assert (Hu : u64 (c + k * e) = c + k * e - 2 ^ 64).
      { unfold u64. symmetry. apply Z.mod_unique with (q := 1); nia. }
      rewrite Hu. replace ((m + 1) mod 2 ^ 32) with 0 by (rewrite Hlast; reflexivity).
      assert (Hh : (c + k * e - 2 ^ 64) / 2 ^ 32 = 0) by (apply high_block; nia).
      split; [exact Hh|]. intros _. rewrite <- Hh at 1. apply halves.
    - rewrite (Z.mod_small (m + 1)) by lia. rewrite (u64_small (c + k * e)) by nia.
      assert (Hh : (c + k * e) / 2 ^ 32 = m + 1) by (apply high_block; nia).
      split; [exact Hh|]. intros _. rewrite <- Hh at 1. apply halves. }
  destruct (Hblock 3 ltac:(lia)) as (H3 & _). destruct (Hblock 5 ltac:(lia)) as (H5 & _).
  destruct (Hblock 4 ltac:(lia)) as (_ & H4). split; [congruence|].
  rewrite H5. apply H4. reflexivity.
Qed.

Lemma gt_after_0 (d : gtimer) : 0 <= gt_count d < 2 ^ 64 -> gt_after d 0 = d.
Proof.
  intros Hc. destruct d as [ctrl c st]. unfold gt_after. cbn [gt_ctrl gt_count gt_step] in *.
  rewrite Z.mul_0_l, Z.add_0_r, u64_small by exact Hc. reflexivity.
Qed.

Lemma gt_tick_after (d : gtimer) (k : Z) : gt_tick (gt_after d k) = gt_after d (k + 1).
Proof.
  unfold gt_tick, gt_after, gt_rate. cbn [gt_ctrl gt_count gt_step]. f_equal.
  unfold u64. rewrite Z.add_mod_idemp_l by lia. f_equal. lia.
Qed.

Lemma gt_rate_bounds (d : gtimer) : gt_inv d -> 0 <= gt_rate d /\ 5 * gt_rate d < 2 ^ 32.
Proof. intros (_ & Hs & Hs5). unfold gt_rate. destruct (_ =? _); lia. Qed.

Lemma gt_read_high (d : gtimer) :
  gt_read d (u32 (GTIMER_BASE + 4)) = (gt_count d / 2 ^ 32, gt_tick d).
Proof. reflexivity. Qed.

Lemma gt_read_low (d : gtimer) :
  gt_read d (u32 (GTIMER_BASE + 0)) = (gt_count d mod 2 ^ 32, gt_tick d).
Proof. reflexivity. Qed.

Lemma gt_high_range (x : Z) : u32 (u64 x / 2 ^ 32) = u64 x / 2 ^ 32.
Proof.
  apply u32_small. pose proof (Z.mod_pos_bound x (2 ^ 64) ltac:(lia)). unfold u64.
  split; [apply Z.div_pos; lia|apply Z.div_lt_upper_bound; lia].
Qed.

Lemma gt_low_range (x : Z) : u32 (x mod 2 ^ 32) = x mod 2 ^ 32.
Proof. apply u32_small. apply Z.mod_pos_bound. lia. Qed.

(** One round on the simulated timer, [k] accesses after [d]. *)
Lemma gt_round (d : gtimer) (k : Z) (tr : list event) (fuel : nat) :
  Timer_GetCount (S fuel) (World (gt_after d k) tr)
  = let high0 := u64 (gt_count d + k * gt_rate d) / 2 ^ 32 in
    let low := u64 (gt_count d + (k + 1) * gt_rate d) mod 2 ^ 32 in
    let high1 := u64 (gt_count d + (k + 2) * gt_rate d) / 2 ^ 32 in
    let s := World (gt_after d (k + 3)) (tr ++ timer_round (high0, low, high1)) in
    if negb (high0 =? high1) then Timer_GetCount fuel s
    else Some (Z.lor (u64 (Z.shiftl high1 32)) low, s).
Proof.
  cbn [Timer_GetCount]. rewrite bind_run, Xil_In32_run. cbn [dev trace].
  change (@reg_read gtimer gtimer_device) with gt_read.
  rewrite gt_read_high. cbn [fst snd]. rewrite gt_tick_after.
  rewrite bind_run, Xil_In32_run. cbn [dev trace].
  change (@reg_read gtimer gtimer_device) with gt_read.
  rewrite gt_read_low. cbn [fst snd]. rewrite gt_tick_after.
  rewrite bind_run, Xil_In32_run. cbn [dev trace].
  change (@reg_read gtimer gtimer_device) with gt_read.
  rewrite gt_read_high. cbn [fst snd]. rewrite gt_tick_after.
  cbn [gt_after gt_count]. unfold gt_after at 1 2 3. cbn [gt_count].
  rewrite !gt_high_range, gt_low_range.
  replace (k + 1 + 1) with (k + 2) by lia. replace (k + 2 + 1) with (k + 3) by lia.
  cbv zeta. cbn [timer_round]. rewrite <- !app_assoc. cbn [app].
  destruct (negb _); reflexivity.
Qed.

(** A read of the simulated timer returns within two rounds the count
    of the access that read the low word. *)
Lemma gt_GetCount_run (d : gtimer) (tr : list event) :
  gt_inv d ->
  exists (k : Z) (s' : world gtimer),
    (k = 1 \/ k = 4) /\
    Timer_GetCount 2 (World d tr) = Some (u64 (gt_count d + k * gt_rate d), s') /\
    dev s' = gt_after d (k + 2) /\ gt_inv (dev s').
Proof.
  intros HI. pose proof HI as (Hc & Hs & Hs5). pose proof (gt_rate_bounds d HI) as (He & He5).
  assert (Hinv : forall k : Z, gt_inv (gt_after d k)).
  { intros k. unfold gt_inv, gt_after. cbn [gt_count gt_step].
    split; [apply Z.mod_pos_bound; lia|]. split; assumption. }
  pose proof (gt_round d 0 tr 1) as Hr1. rewrite (gt_after_0 d Hc) in Hr1. cbv zeta in Hr1.
  rewrite Z.mul_0_l, Z.add_0_r, (u64_small (gt_count d)) in Hr1 by exact Hc.
  change (0 + 1) with 1 in Hr1. change (0 + 2) with 2 in Hr1. change (0 + 3) with 3 in Hr1.
  rewrite Z.mul_1_l in Hr1.
  destruct (Z.eqb_spec (gt_count d / 2 ^ 32) (u64 (gt_count d + 2 * gt_rate d) / 2 ^ 32))
    as [Heq|Hne]; cbn [negb] in Hr1.
  - exists 1. eexists. split; [left; reflexivity|]. rewrite Hr1. split.
    + f_equal. f_equal. rewrite lor_halves.
      * rewrite Z.mul_1_l. apply round_first; assumption.
      * rewrite <- gt_high_range. apply u32_range.
      * apply Z.mod_pos_bound. lia.
    + split; [reflexivity|apply Hinv].
  - rewrite gt_round in Hr1. cbv zeta in Hr1.
    replace (3 + 1) with 4 in Hr1 by lia. replace (3 + 2) with 5 in Hr1 by lia.
    replace (3 + 3) with 6 in Hr1 by lia.
    destruct (round_second (gt_count d) (gt_rate d) Hc He He5 Hne) as (H35 & H4).
    rewrite H35, Z.eqb_refl in Hr1. cbn [negb] in Hr1.
    exists 4. eexists. split; [right; reflexivity|]. rewrite Hr1. split.
    + f_equal. f_equal. rewrite lor_halves.
      * exact H4.
      * rewrite <- gt_high_range. apply u32_range.
      * apply Z.mod_pos_bound. lia.
    + split; [reflexivity|apply Hinv].
Qed.

(** X14: the simulated timer, a free-running counter that gains no more
    than [2^32 / 5] counts per register access.  [Timer_GetCount] returns
    within two rounds, and what it returns is the count the timer held
    when its low word was read: [k] accesses after the call began, with
    [k = 1] in the first round and [k = 4] in the second (taken when a
    carry into the high word tore the first).  Two reads in a row and
    [Timer_Delta] measure exactly the counts between the two low-word
    reads, also across a wrap of the 64-bit counter. *)
Theorem gtimer_GetCount (d : gtimer) (tr : list event) :
  gt_inv d ->
  exists (k1 k2 : Z) (s1 s2 : world gtimer),
    (k1 = 1 \/ k1 = 4) /\ (k2 = 1 \/ k2 = 4) /\
    Timer_GetCount 2 (World d tr) = Some (u64 (gt_count d + k1 * gt_rate d), s1) /\
    Timer_GetCount 2 s1 = Some (u64 (gt_count d + (k1 + 2 + k2) * gt_rate d), s2) /\
    Timer_Delta (u64 (gt_count d + k1 * gt_rate d))
      (u64 (gt_count d + (k1 + 2 + k2) * gt_rate d)) = (k2 + 2) * gt_rate d.
Proof.
  intros HI. pose proof (gt_rate_bounds d HI) as (He & He5).
  destruct (gt_GetCount_run d tr HI) as (k1 & s1 & Hk1 & Hrun1 & Hdev1 & HI1).
  destruct s1 as [d1 tr1]. cbn [dev] in Hdev1, HI1. subst d1.
  destruct (gt_GetCount_run (gt_after d (k1 + 2)) tr1 HI1) as (k2 & s2 & Hk2 & Hrun2 & _ & _).
  exists k1, k2, (World (gt_after d (k1 + 2)) tr1), s2.
  split; [exact Hk1|]. split; [exact Hk2|]. split; [exact Hrun1|].
  assert (Hv2 : u64 (gt_count (gt_after d (k1 + 2)) + k2 * gt_rate (gt_after d (k1 + 2)))
                = u64 (gt_count d + (k1 + 2 + k2) * gt_rate d)).
  { unfold gt_after at 1. cbn [gt_count]. change (gt_rate (gt_after d (k1 + 2))) with (gt_rate d).
    unfold u64. rewrite Z.add_mod_idemp_l by lia. f_equal. lia. }
  rewrite Hv2 in Hrun2. split; [exact Hrun2|].
  rewrite Timer_Delta_sub by (apply Z.mod_pos_bound; lia).
  unfold u64. rewrite <- Zminus_mod.
  replace (gt_count d + (k1 + 2 + k2) * gt_rate d - (gt_count d + k1 * gt_rate d))
    with ((k2 + 2) * gt_rate d) by lia.
  apply Z.mod_small. destruct Hk2 as [-> | ->]; lia.
Qed.

Lemma gtimer_GetCount_witness :
  exists (k1 k2 : Z) (s1 s2 : world gtimer),
    (k1 = 1 \/ k1 = 4) /\ (k2 = 1 \/ k2 = 4) /\
    Timer_GetCount 2 (World (GTimer 1 (2 ^ 64 - 2) 3) [])
    = Some (u64 (gt_count (GTimer 1 (2 ^ 64 - 2) 3) + k1 * gt_rate (GTimer 1 (2 ^ 64 - 2) 3)), s1) /\
    Timer_GetCount 2 s1
    = Some (u64 (gt_count (GTimer 1 (2 ^ 64 - 2) 3)
                 + (k1 + 2 + k2) * gt_rate (GTimer 1 (2 ^ 64 - 2) 3)), s2) /\
    Timer_Delta (u64 (gt_count (GTimer 1 (2 ^ 64 - 2) 3) + k1 * gt_rate (GTimer 1 (2 ^ 64 - 2) 3)))
      (u64 (gt_count (GTimer 1 (2 ^ 64 - 2) 3)
            + (k1 + 2 + k2) * gt_rate (GTimer 1 (2 ^ 64 - 2) 3)))
    = (k2 + 2) * gt_rate (GTimer 1 (2 ^ 64 - 2) 3).
Proof.
  apply (gtimer_GetCount (GTimer 1 (2 ^ 64 - 2) 3) []).
  unfold gt_inv. cbn. lia.
Defined.

Lemma Timer_GetCount_consistent_witness :
  match Timer_GetCount 2 (World (GTimer 1 (2 ^ 32 - 1) 1) []) with
  | Some (v, s') =>
      exists (rounds : list (Z * Z * Z)) (high low : Z),
        trace s' = [] ++ concat (map timer_round rounds) ++ timer_round (high, low, high) /\
        Forall torn rounds /\ (length rounds < 2)%nat /\
        0 <= high < 2 ^ 32 /\ 0 <= low < 2 ^ 32 /\ v = high * 2 ^ 32 + low
  | None => False
  end.
Proof.
  destruct (Timer_GetCount 2 (World (GTimer 1 (2 ^ 32 - 1) 1) [])) as [[v s']|] eqn:Hrun.
  - exact (Timer_GetCount_consistent 2 _ v s' Hrun).
  - vm_compute in Hrun. discriminate.
Defined.

(** ** The benchmark of one key size *)

Lemma pad_rd (w : nat) (v : Z) (k : nat) : rd (pad w v) k = if decide (k = 0%nat) then v else 0.
Proof.
  unfold pad. destruct k as [|k]; [reflexivity|].
  change (rd (v :: replicate (w - 1) 0) (S k)) with (rd (replicate (w - 1) 0) k).
  rewrite rd_zeros. reflexivity.
Qed.

(** The first four words of a big integer below [2^32]. *)
Lemma first4_small (w : nat) (p : list Z) (v : Z) :
  (4 <= w)%nat -> inrange w p -> value w p = v -> 0 <= v < 2 ^ 32 ->
  first4 p = [ArgU v; ArgU 0; ArgU 0; ArgU 0].
Proof.
  intros Hw Hp Hv Hvr.
  assert (Hq : inrange w (pad w v)).
  { intros k Hk. rewrite pad_rd. destruct (decide _); lia. }
  assert (Hvq : value w (pad w v) = v).
  { rewrite value_low_word; [rewrite pad_rd; reflexivity|lia|].
    intros k Hk. rewrite pad_rd. destruct (decide _); [lia|reflexivity]. }
  pose proof (value_inj w p (pad w v) Hp Hq ltac:(congruence)) as Hk.
  unfold first4. rewrite !Hk, !pad_rd by lia.
  repeat (destruct (decide _); try lia). rewrite (u32_small v) by exact Hvr. reflexivity.
Qed.

Section ProgRun.
Context {D : Type} `{Device D}.

Lemma pbind_run {A B : Type} (c : Prog D A) (f : A -> Prog D B) (b : system D) :
  (c ≫= f) b = match c b with Some (a, b') => f a b' | None => None end.
Proof. reflexivity. Qed.

Lemma pret_run {A : Type} (a : A) (b : system D) : (mret a : Prog D A) b = Some (a, b).
Proof. reflexivity. Qed.

Lemma lift_run {A : Type} (c : M D A) (b : system D) :
  lift c b = match c (io b) with Some (a, s) => Some (a, System s (console b)) | None => None end.
Proof. reflexivity. Qed.

Lemma xil_printf_run (fmt : string) (args : list arg) (b : system D) :
  xil_printf fmt args b = Some (tt, System (io b) (console b ++ [Line fmt args])).
Proof. reflexivity. Qed.

End ProgRun.

Section Complete.
Context {D : Type} `{Device D}.
Variable Inv : D -> Prop.
Variables (tfuel fuel : nat) (timeout base_addr : Z) (w : nat) (fuel_sw : nat).
Hypothesis Hacc : accelerator_correct Inv fuel timeout base_addr w.
Hypothesis Htimer : timer_returns Inv tfuel.
Hypothesis Hw : (1 <= w <= MAX_WORDS)%nat.
Variables (N : list Z) (nprime : Z) (label : string).
Hypothesis HN : bignum w N.
Hypothesis Hodd : Z.odd (value w N) = true.
Hypothesis HN1 : 1 < value w N.

(** A loop of hardware runs behind a correct accelerator: no run fails,
    nothing is printed, and [dst] ends as the power. *)
Lemma hw_runs_complete (abort : string) (src : list Z) (exp exp_bits : Z) (R2 : list Z) n :
  forall dst cycles (b : system D),
  Inv (dev (io b)) -> bignum w src -> value w src < value w N ->
  bignum w R2 -> value w R2 = (wpow w * wpow w) mod value w N -> 0 <= exp ->
  (w <= length dst)%nat ->
  exists dst' cycles' b',
    hw_runs n abort tfuel fuel timeout base_addr src exp exp_bits N nprime R2 dst w label cycles b
    = Some ((1, dst', cycles'), b') /\
    Inv (dev (io b')) /\ console b' = console b /\ length dst' = length dst /\
    (n = 0%nat -> dst' = dst) /\
    ((1 <= n)%nat ->
     bignum w dst' /\
     value w dst' = (value w src ^ exp_low exp (Z.max 0 exp_bits)) mod value w N).
Proof.
  induction n as [|n IH]; intros dst cycles b HI Hsrc Hlt HR2 HR2v Hexp Hlen.
  - exists dst, cycles, b. cbn [hw_runs]. rewrite pret_run.
    repeat split; try reflexivity; try assumption; lia.
  - cbn [hw_runs]. rewrite pbind_run, lift_run.
    destruct (Htimer (io b) HI) as (start & s1 & Hrun1 & HI1). rewrite Hrun1.
    rewrite pbind_run, lift_run. cbn [io console].
    destruct (modexp_hw_scalar_value Inv fuel timeout base_addr w Hacc N nprime label HN Hodd HN1
                src exp exp_bits R2 dst s1 Hw HI1 Hsrc HR2 Hlen Hlt HR2v Hexp)
      as (r & s2 & Hrun2 & HI2 & Hr & Hlr & Hv).
    rewrite Hrun2. change (1 =? 0) with false. cbv iota.
    rewrite pbind_run, lift_run. cbn [io console].
    destruct (Htimer s2 HI2) as (end_ & s3 & Hrun3 & HI3). rewrite Hrun3.
    destruct (IH r (u64 (cycles + Timer_Delta start end_)) (System s3 (console b))
                HI3 Hsrc Hlt HR2 HR2v Hexp ltac:(lia))
      as (dst' & cycles' & b' & Hrun & HI' & Hcon & Hl' & Hz & Hpos).
    exists dst', cycles', b'. split; [exact Hrun|]. split; [exact HI'|].
    split; [exact Hcon|]. split; [lia|]. split; [lia|]. intros _.
    destruct n as [|n].
    + rewrite (Hz eq_refl). auto.
    + apply Hpos. lia.
Qed.

(** A loop of software runs on a modulus whose square fits in [w]
    words. *)
Lemma sw_runs_complete (src : list Z) (exp exp_bits : Z) n : forall dst cycles (b : system D),
  Inv (dev (io b)) -> inrange w src -> value w src <= value w N ->
  value w N * value w N < wpow w -> value w N < Z.of_nat fuel_sw ->
  (w <= length dst)%nat ->
  exists dst' cycles' b',
    sw_runs n tfuel fuel_sw src exp exp_bits N dst w cycles b = Some ((dst', cycles'), b') /\
    Inv (dev (io b')) /\ console b' = console b /\ length dst' = length dst /\
    (n = 0%nat -> dst' = dst) /\
    ((1 <= n)%nat ->
     inrange w dst' /\ value w dst' <= value w N /\
     value w dst' = modexp_sw_val (value w src) exp exp_bits (value w N)).
Proof.
  induction n as [|n IH]; intros dst cycles b HI Hsrc Hle Hsq Hfuel Hlen.
  - exists dst, cycles, b. cbn [sw_runs]. rewrite pret_run.
    repeat split; try reflexivity; try assumption; lia.
  - cbn [sw_runs]. rewrite pbind_run, lift_run.
    destruct (Htimer (io b) HI) as (start & s1 & Hrun1 & HI1). rewrite Hrun1.
    rewrite pbind_run. cbn [io console].
    destruct (modexp_sw_scalar_value fuel_sw src exp exp_bits N dst w Hw Hsrc
                (bignum_inrange w N HN) Hlen ltac:(lia) Hsq Hle Hfuel)
      as (r & Hrun2 & Hlr & Hr & _ & Hv & Hrle).
    unfold lift_option at 1. rewrite Hrun2.
    rewrite pbind_run, lift_run. cbn [io console].
    destruct (Htimer s1 HI1) as (end_ & s3 & Hrun3 & HI3). rewrite Hrun3.
    destruct (IH r (u64 (cycles + Timer_Delta start end_)) (System s3 (console b))
                HI3 Hsrc Hle Hsq Hfuel ltac:(lia))
      as (dst' & cycles' & b' & Hrun & HI' & Hcon & Hl' & Hz & Hpos).
    exists dst', cycles', b'. split; [exact Hrun|]. split; [exact HI'|].
    split; [exact Hcon|]. split; [lia|]. split; [lia|]. intros _.
    destruct n as [|n].
    + rewrite (Hz eq_refl). auto.
    + apply Hpos. lia.
Qed.

End Complete.

Lemma RSA_MSG_rd (k : nat) : rd RSA_MSG k = if decide (k = 0%nat) then 42 else 0.
Proof. change RSA_MSG with (pad 64 42). apply pad_rd. Qed.

(** The message array of a benchmark. *)
Lemma benchmark_msg (w : nat) (buf : list Z) :
  (1 <= w)%nat -> (w <= length buf)%nat ->
  length (bigint_copy buf RSA_MSG w) = length buf /\
  inrange w (bigint_copy buf RSA_MSG w) /\ value w (bigint_copy buf RSA_MSG w) = 42.
Proof.
  intros Hw Hlen. destruct (bigint_copy_spec buf RSA_MSG w Hlen) as (Hl & Hk & _).
  split; [exact Hl|]. split.
  - intros k Hk'. rewrite Hk, RSA_MSG_rd by lia. destruct (decide _); lia.
  - rewrite value_low_word; [rewrite Hk, RSA_MSG_rd by lia; reflexivity|lia|].
    intros k Hk'. rewrite Hk, RSA_MSG_rd by lia. destruct (decide _); [lia|reflexivity].
Qed.

Lemma toy_ciphertext_pow : (42 ^ exp_low RSA_E RSA_E_BITS) mod 3233 = 2557.
Proof. vm_compute. reflexivity. Qed.

Lemma toy_ciphertext_sw : modexp_sw_val 42 RSA_E RSA_E_BITS 3233 = 2557.
Proof. vm_compute. reflexivity. Qed.

Section BenchmarkComplete.
Context {D : Type} `{Device D}.

(** A benchmark of the toy key behind a correct accelerator and a timer
    that answers runs to its end and finds both round trips right. *)
Lemma benchmark_run_complete (Inv : D -> Prop) (tfuel fuel : nat) (timeout : Z)
    (fuel_sw : nat) (fr : frame) (label : string) (key_bits : Z) (w : nat) (base_addr : Z)
    (R2 : list Z) (nprime : Z) (b : system D) :
  accelerator_correct Inv fuel timeout base_addr w -> timer_returns Inv tfuel ->
  (4 <= w <= MAX_WORDS)%nat -> frame_words fr ->
  bignum w R2 -> value w R2 = (2 ^ (32 * Z.of_nat w) * 2 ^ (32 * Z.of_nat w)) mod 3233 ->
  3233 < Z.of_nat fuel_sw -> Inv (dev (io b)) ->
  exists b' perf,
    benchmark_rsa_size tfuel fuel timeout fuel_sw fr label key_bits w base_addr RSA_N R2 nprime
      RSA_E RSA_E_BITS RSA_D RSA_D_BITS b = Some (tt, b') /\
    console b' = console b ++ complete_console label key_bits perf /\
    map line_fmt perf = performance_fmts /\
    Inv (dev (io b')).
Proof.
  intros Hacc Htimer Hw (Hf1 & Hf2 & Hf3 & Hf4 & Hf5) HR2 HR2v Hfuel HI.
  assert (Hw1 : (1 <= w <= MAX_WORDS)%nat) by lia.
  pose proof (RSA_N_value w Hw1) as HNv.
  pose proof (RSA_N_inrange w) as HNr.
  assert (HN : bignum w RSA_N) by (apply RSA_N_bignum; lia).
  assert (Hodd : Z.odd (value w RSA_N) = true) by (rewrite HNv; reflexivity).
  assert (HN1 : 1 < value w RSA_N) by (rewrite HNv; lia).
  pose proof (wpow_ge w ltac:(lia)) as Hwp.
  fold (wpow w) in HR2v. rewrite <- HNv in HR2v.
  destruct (benchmark_msg w (fr_msg fr) ltac:(lia) ltac:(lia)) as (Hlm & Hmr & Hmv).
  unfold benchmark_rsa_size. cbv zeta.
  set (msg := bigint_copy (fr_msg fr) RSA_MSG w) in *.
  assert (Hmsg : bignum w msg) by (apply inrange_bignum; [lia|exact Hmr]).
  do 4 (rewrite pbind_run, xil_printf_run; cbv beta iota; cbn [io console]).
  rewrite pbind_run.
  (* hardware encrypt *)
  destruct (hw_runs_complete Inv tfuel fuel timeout base_addr w Hacc Htimer Hw1 RSA_N nprime label
              HN Hodd HN1
              "[ERROR] Aborting %s HW encrypt benchmark due to HW error.\r\n"
              msg RSA_E RSA_E_BITS R2 NUM_RUNS (fr_c_hw fr) 0
              (System (io b) ((((console b ++ [Line "\r\n==============================\r\n" []])
                 ++ [Line " %s (key size: %u bits)\r\n" [ArgS label; ArgU (u32 key_bits)]])
                 ++ [Line "==============================\r\n" []])
                 ++ [Line "[DEBUG] Plaintext first 4 words (LE): %08x %08x %08x %08x\r\n"
                       (first4 msg)]))
              HI Hmsg ltac:(lia) HR2 HR2v ltac:(unfold RSA_E; lia) ltac:(lia))
    as (c_hw & cyc1 & b1 & Hrun1 & HI1 & Hcon1 & Hl1 & _ & Hc).
  destruct (Hc ltac:(unfold NUM_RUNS; lia)) as (Hcb & Hcv). clear Hc.
  rewrite Hrun1. change (1 =? 0) with false. cbv iota. rewrite pbind_run.
  rewrite Hmv, HNv in Hcv. change (Z.max 0 RSA_E_BITS) with RSA_E_BITS in Hcv.
  rewrite toy_ciphertext_pow in Hcv.
  (* hardware decrypt *)
  destruct (hw_runs_complete Inv tfuel fuel timeout base_addr w Hacc Htimer Hw1 RSA_N nprime label
              HN Hodd HN1
              "[ERROR] Aborting %s HW decrypt benchmark due to HW error.\r\n"
              c_hw RSA_D RSA_D_BITS R2 NUM_RUNS (fr_m_hw fr) 0 b1
              HI1 Hcb ltac:(lia) HR2 HR2v ltac:(unfold RSA_D; lia) ltac:(lia))
    as (m_hw & cyc2 & b2 & Hrun2 & HI2 & Hcon2 & Hl2 & _ & Hm).
  destruct (Hm ltac:(unfold NUM_RUNS; lia)) as (Hmb & Hmhv). clear Hm.
  rewrite Hrun2. change (1 =? 0) with false. cbv iota. rewrite pbind_run.
  rewrite HNv in Hmhv. change (Z.max 0 RSA_D_BITS) with RSA_D_BITS in Hmhv.
  assert (Hmh42 : value w m_hw = 42).
  { rewrite Hmhv, Hcv, <- toy_ciphertext_pow. apply rsa_roundtrip_pow. lia. }
  (* software encrypt *)
  destruct (sw_runs_complete Inv tfuel w fuel_sw Htimer Hw1 RSA_N HN HN1 msg RSA_E RSA_E_BITS
              NUM_RUNS (fr_c_sw fr) 0 b2 HI2 Hmr ltac:(lia) ltac:(rewrite HNv; lia)
              ltac:(rewrite HNv; lia) ltac:(lia))
    as (c_sw & cyc3 & b3 & Hrun3 & HI3 & Hcon3 & Hl3 & _ & Hcs).
  destruct (Hcs ltac:(unfold NUM_RUNS; lia)) as (Hcsr & Hcsle & Hcsv). clear Hcs.
  rewrite Hrun3. rewrite pbind_run.
  rewrite Hmv, HNv in Hcsv. rewrite toy_ciphertext_sw in Hcsv.
  (* software decrypt *)
  destruct (sw_runs_complete Inv tfuel w fuel_sw Htimer Hw1 RSA_N HN HN1 c_sw RSA_D RSA_D_BITS
              NUM_RUNS (fr_m_sw fr) 0 b3 HI3 Hcsr ltac:(lia) ltac:(rewrite HNv; lia)
              ltac:(rewrite HNv; lia) ltac:(lia))
    as (m_sw & cyc4 & b4 & Hrun4 & HI4 & Hcon4 & Hl4 & _ & Hms).
  destruct (Hms ltac:(unfold NUM_RUNS; lia)) as (Hmsr & _ & Hmsv). clear Hms.
  rewrite Hrun4.
  assert (Hms42 : value w m_sw = 42).
  { rewrite Hmsv, Hcsv, HNv, <- toy_ciphertext_sw. apply rsa_sw_roundtrip_val. lia. }
  (* the verdicts *)
  destruct (bignum_eq_of_value w m_hw msg ltac:(lia) ltac:(lia)
              (bignum_inrange w m_hw Hmb) Hmr ltac:(congruence)) as (_ & Heq_hw).
  destruct (bignum_eq_of_value w m_sw msg ltac:(lia) ltac:(lia) Hmsr Hmr ltac:(congruence))
    as (_ & Heq_sw).
  rewrite Heq_hw, Heq_sw. change (negb (1 =? 0)) with true. cbv iota.
  (* the debug lines *)
  rewrite (first4_small w c_hw 2557 ltac:(lia) (bignum_inrange w c_hw Hcb) Hcv ltac:(lia)).
  rewrite (first4_small w c_sw 2557 ltac:(lia) Hcsr Hcsv ltac:(lia)).
  rewrite (first4_small w m_hw 42 ltac:(lia) (bignum_inrange w m_hw Hmb) Hmh42 ltac:(lia)).
  rewrite (first4_small w m_sw 42 ltac:(lia) Hmsr Hms42 ltac:(lia)).
  rewrite (first4_small w msg 42 ltac:(lia) Hmr Hmv ltac:(lia)) in Hcon1.
  do 13 (rewrite pbind_run, xil_printf_run; cbv beta iota; cbn [io console]).
  rewrite xil_printf_run.
  eexists _, [_; _; _; _; _; _; _]. split; [reflexivity|]. cbn [console io].
  rewrite Hcon4, Hcon3, Hcon2, Hcon1. cbn [console].
  split; [|split; [|exact HI4]].
  - rewrite <- !app_assoc. cbn [app]. reflexivity.
  - reflexivity.
Qed.

End BenchmarkComplete.

(** ** A benchmark that meets a timeout *)

Section Outcome.
Context {D : Type} `{Device D}.

(** A timer read reports no timeout. *)
Lemma Timer_GetCount_quiet (fuel : nat) : forall (s : world D) (v : Z) (s' : world D),
  Timer_GetCount fuel s = Some (v, s') ->
  exists seg, trace s' = trace s ++ seg /\ quiet seg.
Proof.
  induction fuel as [|fuel IH]; intros s v s' Hrun; [discriminate|].
  cbn [Timer_GetCount] in Hrun.
  rewrite bind_run, Xil_In32_run in Hrun. rewrite bind_run, Xil_In32_run in Hrun.
  rewrite bind_run, Xil_In32_run in Hrun. cbn [dev trace] in Hrun.
  destruct (negb _).
  - apply IH in Hrun as (seg & Htr & Hq). cbn [trace] in Htr.
    eexists. split; [rewrite Htr, <- !app_assoc; reflexivity|].
    repeat (constructor; [reflexivity|]). exact Hq.
  - rewrite ret_run in Hrun. injection Hrun as _ <-. cbn [trace].
    eexists. split; [rewrite <- !app_assoc; reflexivity|].
    repeat (constructor; [reflexivity|]). constructor.
Qed.

Variables (fuel : nat) (timeout base_addr : Z).
Hypothesis Ht : 0 <= timeout < 2 ^ 32 - 1.
Hypothesis Hfuel : (Z.to_nat timeout < fuel)%nat.

(** A run of [modexp_hw_scalar] returns 1 without a timeout report, or 0
    with the report as its last event. *)
Lemma modexp_hw_scalar_outcome (base : list Z) (exp exp_bits : Z) (N : list Z) (nprime : Z)
    (R2 result : list Z) (w : nat) (label : string) (s : world D) :
  exists ok result' s' seg,
    modexp_hw_scalar fuel timeout base_addr base exp exp_bits N nprime R2 result w label s
    = Some ((ok, result'), s') /\
    trace s' = trace s ++ seg /\ outcome label base_addr ok seg.
Proof.
  unfold modexp_hw_scalar.
  set (one := bigint_set_u32 (replicate MAX_WORDS 0) 1 w).
  rewrite bind_run.
  destruct (montgomery_mul_hw_outcome fuel timeout base_addr w one R2 N nprime
              (replicate MAX_WORDS 0) label s Ht Hfuel)
    as (ok1 & x1 & s1 & seg1 & Hrun1 & Htr1 & Hout1).
  rewrite Hrun1. destruct Hout1 as [(-> & Hq1)|(-> & Hfail)].
  2:{ change (0 =? 0) with true. cbv iota. rewrite ret_run.
      exists 0, result, s1, seg1. split; [reflexivity|]. split; [exact Htr1|].
      right. split; [reflexivity|exact Hfail]. }
  change (1 =? 0) with false. cbv iota. rewrite bind_run.
  destruct (montgomery_mul_hw_outcome fuel timeout base_addr w base R2 N nprime
              (replicate MAX_WORDS 0) label s1 Ht Hfuel)
    as (ok2 & a2 & s2 & seg2 & Hrun2 & Htr2 & Hout2).
  rewrite Hrun2. destruct Hout2 as [(-> & Hq2)|(-> & Hfail)].
  2:{ change (0 =? 0) with true. cbv iota. rewrite ret_run.
      exists 0, result, s2, (seg1 ++ seg2). split; [reflexivity|]. split.
      - rewrite Htr2, Htr1, <- app_assoc. reflexivity.
      - apply outcome_app; [exact Hq1|]. right. split; [reflexivity|exact Hfail]. }
  change (1 =? 0) with false. cbv iota. rewrite bind_run.
  destruct (hw_exp_loop_outcome fuel timeout base_addr exp N nprime w label (Z.to_nat exp_bits)
              0 x1 a2 s2 Ht Hfuel) as (ok3 & x3 & a3 & s3 & seg3 & Hrun3 & Htr3 & Hout3).
  rewrite Hrun3. destruct Hout3 as [(-> & Hq3)|(-> & Hfail)].
  2:{ change (0 =? 0) with true. cbv iota. rewrite ret_run.
      exists 0, result, s3, (seg1 ++ seg2 ++ seg3). split; [reflexivity|]. split.
      - rewrite Htr3, Htr2, Htr1, <- !app_assoc. reflexivity.
      - apply outcome_app; [exact Hq1|]. apply outcome_app; [exact Hq2|].
        right. split; [reflexivity|exact Hfail]. }
  change (1 =? 0) with false. cbv iota. rewrite bind_run.
  destruct (montgomery_mul_hw_outcome fuel timeout base_addr w x3 one N nprime
              result label s3 Ht Hfuel)
    as (ok4 & r4 & s4 & seg4 & Hrun4 & Htr4 & Hout4).
  rewrite Hrun4.
  assert (Hall : outcome label base_addr ok4 (seg1 ++ seg2 ++ seg3 ++ seg4)).
  { apply outcome_app; [exact Hq1|]. apply outcome_app; [exact Hq2|].
    apply outcome_app; [exact Hq3|exact Hout4]. }
  assert (Htr : trace s4 = trace s ++ seg1 ++ seg2 ++ seg3 ++ seg4).
  { rewrite Htr4, Htr3, Htr2, Htr1, <- !app_assoc. reflexivity. }
  destruct Hout4 as [(-> & _)|(-> & _)].
  - change (1 =? 0) with false. cbv iota. rewrite ret_run.
    exists 1, r4, s4, (seg1 ++ seg2 ++ seg3 ++ seg4). auto.
  - change (0 =? 0) with true. cbv iota. rewrite ret_run.
    exists 0, r4, s4, (seg1 ++ seg2 ++ seg3 ++ seg4). auto.
Qed.

(** A loop of hardware runs: it is left without a report and without a
    line, or it returns at the first report with the abort line. *)
Lemma hw_runs_outcome (abort : string) (tfuel : nat) (src : list Z) (exp exp_bits : Z)
    (N : list Z) (nprime : Z) (R2 : list Z) (w : nat) (label : string) n :
  forall dst cycles (b : system D) ok dst' cycles' b',
  hw_runs n abort tfuel fuel timeout base_addr src exp exp_bits N nprime R2 dst w label cycles b
  = Some ((ok, dst', cycles'), b') ->
  exists seg, trace (io b') = trace (io b) ++ seg /\
    ((ok = 1 /\ quiet seg /\ console b' = console b) \/
     (ok = 0 /\ (exists seg0, seg = seg0 ++ [EvTimeout label base_addr] /\ quiet seg0) /\
      console b' = console b ++ [Line abort [ArgS label]])).
Proof.
  induction n as [|n IH]; intros dst cycles b ok dst' cycles' b' Hrun.
  - cbn [hw_runs] in Hrun. rewrite pret_run in Hrun. injection Hrun as <- _ _ <-.
    exists []. rewrite app_nil_r. split; [reflexivity|]. left.
    split; [reflexivity|]. split; [constructor|reflexivity].
  - cbn [hw_runs] in Hrun. rewrite pbind_run, lift_run in Hrun.
    destruct (Timer_GetCount tfuel (io b)) as [[start s1]|] eqn:Hrun1; [|discriminate].
    apply Timer_GetCount_quiet in Hrun1 as (seg1 & Htr1 & Hq1).
    rewrite pbind_run, lift_run in Hrun. cbn [io console] in Hrun.
    destruct (modexp_hw_scalar_outcome src exp exp_bits N nprime R2 dst w label s1)
      as (ok2 & r & s2 & seg2 & Hrun2 & Htr2 & Hout2).
    rewrite Hrun2 in Hrun. destruct Hout2 as [(-> & Hq2)|(-> & Hfail)].
    + change (1 =? 0) with false in Hrun. cbv iota in Hrun.
      rewrite pbind_run, lift_run in Hrun. cbn [io console] in Hrun.
      destruct (Timer_GetCount tfuel s2) as [[end_ s3]|] eqn:Hrun3; [|discriminate].
      apply Timer_GetCount_quiet in Hrun3 as (seg3 & Htr3 & Hq3).
      apply IH in Hrun as (seg & Htr & Hshape). cbn [io console] in Htr, Hshape.
      exists (seg1 ++ seg2 ++ seg3 ++ seg). split.
      * rewrite Htr, Htr3, Htr2, Htr1, <- !app_assoc. reflexivity.
      * destruct Hshape as [(Hok & Hq & Hcon)|(Hok & (seg0 & Hseg & Hq0) & Hcon)].
        -- left. split; [exact Hok|]. split; [|exact Hcon].
           repeat (apply quiet_app; [assumption|]). exact Hq.
        -- right. split; [exact Hok|]. split; [|exact Hcon].
           exists (seg1 ++ seg2 ++ seg3 ++ seg0). split.
           ++ rewrite Hseg, <- !app_assoc. reflexivity.
           ++ repeat (apply quiet_app; [assumption|]). exact Hq0.
    + change (0 =? 0) with true in Hrun. cbv iota in Hrun.
      rewrite pbind_run, xil_printf_run, pret_run in Hrun. cbn [io console] in Hrun.
      injection Hrun as <- _ _ <-. cbn [io console].
      exists (seg1 ++ seg2). split; [rewrite Htr2, Htr1, <- app_assoc; reflexivity|].
      right. split; [reflexivity|]. split; [|reflexivity].
      destruct Hfail as (seg0 & Hseg & Hq0). exists (seg1 ++ seg0). split.
      * rewrite Hseg, <- app_assoc. reflexivity.
      * apply quiet_app; assumption.
Qed.

(** A loop of software runs reads the timer and nothing else. *)
Lemma sw_runs_quiet (tfuel fuel_sw : nat) (src : list Z) (exp exp_bits : Z) (N : list Z)
    (w : nat) n : forall dst cycles (b : system D) dst' cycles' b',
  sw_runs n tfuel fuel_sw src exp exp_bits N dst w cycles b = Some ((dst', cycles'), b') ->
  exists seg, trace (io b') = trace (io b) ++ seg /\ quiet seg /\ console b' = console b.
Proof.
  induction n as [|n IH]; intros dst cycles b dst' cycles' b' Hrun.
  - cbn [sw_runs] in Hrun. rewrite pret_run in Hrun. injection Hrun as _ _ <-.
    exists []. rewrite app_nil_r. split; [reflexivity|]. split; [constructor|reflexivity].
  - cbn [sw_runs] in Hrun. rewrite pbind_run, lift_run in Hrun.
    destruct (Timer_GetCount tfuel (io b)) as [[start s1]|] eqn:Hrun1; [|discriminate].
    apply Timer_GetCount_quiet in Hrun1 as (seg1 & Htr1 & Hq1).
    rewrite pbind_run in Hrun. unfold lift_option at 1 in Hrun.
    destruct (modexp_sw_scalar fuel_sw src exp exp_bits N dst w) as [r|]; [|discriminate].
    rewrite pbind_run, lift_run in Hrun. cbn [io console] in Hrun.
    destruct (Timer_GetCount tfuel s1) as [[end_ s3]|] eqn:Hrun3; [|discriminate].
    apply Timer_GetCount_quiet in Hrun3 as (seg3 & Htr3 & Hq3).
    apply IH in Hrun as (seg & Htr & Hq & Hcon). cbn [io console] in Htr, Hcon.
    exists (seg1 ++ seg3 ++ seg). split.
    + rewrite Htr, Htr3, Htr1, <- !app_assoc. reflexivity.
    + split; [|exact Hcon]. repeat (apply quiet_app; [assumption|]). exact Hq.
Qed.

(** How a benchmark ends, on any device: without a timeout report and
    with the correctness lines, or at the first report with the abort
    line. *)
Lemma benchmark_run_outcome (tfuel fuel_sw : nat) (fr : frame) (label : string)
    (key_bits : Z) (w : nat) (N R2 : list Z) (nprime e e_bits d d_bits : Z)
    (b b' : system D) :
  benchmark_rsa_size tfuel fuel timeout fuel_sw fr label key_bits w base_addr N R2 nprime
    e e_bits d d_bits b = Some (tt, b') ->
  exists seg, trace (io b') = trace (io b) ++ seg /\
    ((quiet seg /\
      exists body hw_verdict sw_verdict,
        console b' = console b ++ banner label key_bits
                       ++ [plaintext_line (bigint_copy (fr_msg fr) RSA_MSG w)]
                       ++ body ++ correctness_lines hw_verdict sw_verdict) \/
     (exists seg0 decrypt,
        seg = seg0 ++ [EvTimeout label base_addr] /\ quiet seg0 /\
        console b' = console b ++ banner label key_bits
                       ++ [plaintext_line (bigint_copy (fr_msg fr) RSA_MSG w);
                           abort_line decrypt label])).
Proof.
  unfold benchmark_rsa_size. cbv zeta. intros Hrun.
  set (msg := bigint_copy (fr_msg fr) RSA_MSG w) in *.
  do 4 (rewrite pbind_run, xil_printf_run in Hrun; cbv beta iota in Hrun;
        cbn [io console] in Hrun).
  rewrite pbind_run in Hrun.
  match type of Hrun with
  | context [hw_runs ?n ?a ?tf ?f ?t ?ba ?src ?ex ?eb ?NN ?np ?R ?dst ?ww ?l ?c ?bb] =>
      destruct (hw_runs n a tf f t ba src ex eb NN np R dst ww l c bb)
        as [[[[ok1 c_hw] cyc1] b1]|] eqn:Hrun1; [|discriminate]
  end.
  apply hw_runs_outcome in Hrun1 as (seg1 & Htr1 & Hshape1). cbn [io console] in Htr1, Hshape1.
  assert (Hpre : forall tail : list line,
            ((((console b ++ [Line "\r\n==============================\r\n" []])
               ++ [Line " %s (key size: %u bits)\r\n" [ArgS label; ArgU (u32 key_bits)]])
               ++ [Line "==============================\r\n" []])
               ++ [Line "[DEBUG] Plaintext first 4 words (LE): %08x %08x %08x %08x\r\n"
                     (first4 msg)]) ++ tail
            = console b ++ banner label key_bits ++ [plaintext_line msg] ++ tail).
  { intros tail. rewrite <- !app_assoc. reflexivity. }
  destruct Hshape1 as [(-> & Hq1 & Hcon1)|(-> & (seg0 & Hseg & Hq0) & Hcon1)].
  2:{ change (0 =? 0) with true in Hrun. cbv iota in Hrun. rewrite pret_run in Hrun.
      injection Hrun as <-. exists seg1. split; [exact Htr1|]. right.
      exists seg0, false. split; [exact Hseg|]. split; [exact Hq0|].
      rewrite Hcon1. apply Hpre. }
  change (1 =? 0) with false in Hrun. cbv iota in Hrun. rewrite pbind_run in Hrun.
  match type of Hrun with
  | context [hw_runs ?n ?a ?tf ?f ?t ?ba ?src ?ex ?eb ?NN ?np ?R ?dst ?ww ?l ?c ?bb] =>
      destruct (hw_runs n a tf f t ba src ex eb NN np R dst ww l c bb)
        as [[[[ok2 m_hw] cyc2] b2]|] eqn:Hrun2; [|discriminate]
  end.
  apply hw_runs_outcome in Hrun2 as (seg2 & Htr2 & Hshape2).
  destruct Hshape2 as [(-> & Hq2 & Hcon2)|(-> & (seg0 & Hseg & Hq0) & Hcon2)].
  2:{ change (0 =? 0) with true in Hrun. cbv iota in Hrun. rewrite pret_run in Hrun.
      injection Hrun as <-. exists (seg1 ++ seg2). split.
      - rewrite Htr2, Htr1, <- app_assoc. reflexivity.
      - right. exists (seg1 ++ seg0), true. split; [rewrite Hseg, <- app_assoc; reflexivity|].
        split; [apply quiet_app; assumption|].
        rewrite Hcon2, Hcon1. exact (Hpre [abort_line true label]). }
  change (1 =? 0) with false in Hrun. cbv iota in Hrun. rewrite pbind_run in Hrun.
  match type of Hrun with
  | context [sw_runs ?n ?tf ?f ?src ?ex ?eb ?NN ?dst ?ww ?c ?bb] =>
      destruct (sw_runs n tf f src ex eb NN dst ww c bb)
        as [[[c_sw cyc3] b3]|] eqn:Hrun3; [|discriminate]
  end.
  apply sw_runs_quiet in Hrun3 as (seg3 & Htr3 & Hq3 & Hcon3).
  rewrite pbind_run in Hrun.
  match type of Hrun with
  | context [sw_runs ?n ?tf ?f ?src ?ex ?eb ?NN ?dst ?ww ?c ?bb] =>
      destruct (sw_runs n tf f src ex eb NN dst ww c bb)
        as [[[m_sw cyc4] b4]|] eqn:Hrun4; [|discriminate]
  end.
  apply sw_runs_quiet in Hrun4 as (seg4 & Htr4 & Hq4 & Hcon4).
  do 13 (rewrite pbind_run, xil_printf_run in Hrun; cbv beta iota in Hrun;
         cbn [io console] in Hrun).
  rewrite xil_printf_run in Hrun. injection Hrun as <-. cbn [io console].
  exists (seg1 ++ seg2 ++ seg3 ++ seg4). split.
  - rewrite Htr4, Htr3, Htr2, Htr1, <- !app_assoc. reflexivity.
  - left. split; [repeat (apply quiet_app; [assumption|]); exact Hq4|].
    rewrite Hcon4, Hcon3, Hcon2, Hcon1.
    eexists [_; _; _; _; _; _; _; _; _; _; _], _, _.
    rewrite <- (Hpre (_ ++ _)). rewrite <- !app_assoc. cbn [app]. reflexivity.
Qed.

End Outcome.

(** ** Devices inside devices *)

Lemma world_eta {D : Type} (s : world D) : World (dev s) (trace s) = s.
Proof. destruct s. reflexivity. Qed.

Section Carried.
Context {D D1 : Type} {HD : Device D} {HD1 : Device D1}.
Variables (W : Z -> Prop) (ok : D -> Prop) (get : D -> D1) (put : D -> D1 -> D).
Hypothesis E : embeds W ok get put.

Lemma carried_ret {A : Type} (a : A) : carried ok get put (mret a) (mret a).
Proof.
  intros s Hok. rewrite !ret_run. unfold outer, inner. cbn [dev trace].
  rewrite (put_get _ _ _ _ E), world_eta. reflexivity.
Qed.

Lemma carried_bind {A B : Type} (c : M D A) (c1 : M D1 A) (f : A -> M D B) (f1 : A -> M D1 B) :
  carried ok get put c c1 -> (forall a, carried ok get put (f a) (f1 a)) ->
  carried ok get put (c ≫= f) (c1 ≫= f1).
Proof.
  intros Hc Hf s Hok. rewrite !bind_run, (Hc s Hok).
  destruct (c1 (inner get s)) as [[a s1]|]; [|reflexivity].
  rewrite (Hf a (outer put s s1)) by (apply (ok_put _ _ _ _ E); exact Hok).
  unfold inner, outer. cbn [dev trace]. rewrite (get_put _ _ _ _ E), world_eta.
  destruct (f1 a s1) as [[b' s2]|]; [|reflexivity].
  rewrite (put_put _ _ _ _ E). reflexivity.
Qed.

Lemma carried_in (a : Z) : W a -> carried ok get put (Xil_In32 a) (Xil_In32 a).
Proof.
  intros Ha s Hok. rewrite !Xil_In32_run. unfold inner, outer. cbn [dev trace].
  rewrite (read_in _ _ _ _ E _ _ Hok Ha). reflexivity.
Qed.

Lemma carried_out (a v : Z) : W a -> carried ok get put (Xil_Out32 a v) (Xil_Out32 a v).
Proof.
  intros Ha s Hok. rewrite !Xil_Out32_run. unfold inner, outer. cbn [dev trace].
  rewrite (write_in _ _ _ _ E _ _ _ Hok Ha). reflexivity.
Qed.

Lemma carried_report (label : string) (base : Z) :
  carried ok get put (report_timeout label base) (report_timeout label base).
Proof.
  intros s Hok. unfold report_timeout, inner, outer. cbn [dev trace].
  rewrite (put_get _ _ _ _ E). reflexivity.
Qed.

Lemma carried_write_operands (base : Z) (w : nat) (A B N : list Z) n : forall i,
  (forall a, a ∈ call_registers base w -> W a) -> (i + n <= w)%nat ->
  carried ok get put (write_operands n i base A B N) (write_operands n i base A B N).
Proof.
  induction n as [|n IH]; intros i HW Hi; cbn [write_operands]; [apply carried_ret|].
  apply carried_bind; [apply carried_out, HW, call_registers_A; lia|]. intros _.
  apply carried_bind; [apply carried_out, HW, call_registers_B; lia|]. intros _.
  apply carried_bind; [apply carried_out, HW, call_registers_N; lia|]. intros _.
  apply IH; [exact HW|lia].
Qed.

Lemma carried_poll_loop (timeout base : Z) (w : nat) (label : string) fuel : forall polls,
  (forall a, a ∈ call_registers base w -> W a) ->
  carried ok get put (poll_loop fuel timeout polls base label)
    (poll_loop fuel timeout polls base label).
Proof.
  induction fuel as [|fuel IH]; intros polls HW; cbn [poll_loop].
  - intros s Hok. reflexivity.
  - apply carried_bind; [apply carried_in, HW, (call_registers_fixed base w)|]. intros st.
    destruct (Z.land st 1 =? 0); [|apply carried_ret].
    destruct (u32 (polls + 1) >? timeout); [|apply IH; exact HW].
    apply carried_bind; [apply carried_report|]. intros _. apply carried_ret.
Qed.

Lemma carried_read_result (base : Z) (w : nat) n : forall i R,
  (forall a, a ∈ call_registers base w -> W a) -> (i + n <= w)%nat ->
  carried ok get put (read_result n i base R) (read_result n i base R).
Proof.
  induction n as [|n IH]; intros i R HW Hi; cbn [read_result]; [apply carried_ret|].
  apply carried_bind; [apply carried_in, HW, call_registers_RES; lia|]. intros v.
  apply IH; [exact HW|lia].
Qed.

Lemma carried_montgomery_mul_hw (fuel : nat) (timeout base : Z) (w : nat) (A B N : list Z)
    (nprime : Z) (R : list Z) (label : string) :
  (forall a, a ∈ call_registers base w -> W a) ->
  carried ok get put (montgomery_mul_hw fuel timeout base w A B N nprime R label)
    (montgomery_mul_hw fuel timeout base w A B N nprime R label).
Proof.
  intros HW. unfold montgomery_mul_hw.
  apply carried_bind; [apply (carried_write_operands base w); [exact HW|lia]|]. intros _.
  apply carried_bind; [apply carried_out, HW, (call_registers_fixed base w)|]. intros _.
  apply carried_bind; [apply carried_out, HW, (call_registers_fixed base w)|]. intros _.
  apply carried_bind; [apply (carried_poll_loop timeout base w); exact HW|]. intros done.
  destruct (done =? 0); [apply carried_ret|].
  apply carried_bind; [apply (carried_read_result base w); [exact HW|lia]|]. intros R'.
  apply carried_ret.
Qed.

Lemma carried_Timer_GetCount (fuel : nat) :
  (forall a, a ∈ timer_registers -> W a) ->
  carried ok get put (Timer_GetCount fuel) (Timer_GetCount fuel).
Proof.
  intros HW. induction fuel as [|fuel IH]; cbn [Timer_GetCount].
  - intros s Hok. reflexivity.
  - assert (Hhi : W (u32 (GTIMER_BASE + 4)))
      by (apply HW; unfold timer_registers; apply list_elem_of_further, list_elem_of_here).
    assert (Hlo : W (u32 (GTIMER_BASE + 0)))
      by (apply HW; unfold timer_registers; apply list_elem_of_here).
    apply carried_bind; [apply carried_in, Hhi|]. intros high0.
    apply carried_bind; [apply carried_in, Hlo|]. intros low.
    apply carried_bind; [apply carried_in, Hhi|]. intros high1.
    destruct (negb (high0 =? high1)); [exact IH|apply carried_ret].
Qed.

(** A correct accelerator inside [D] is a correct accelerator of [D];
    [Q] is what its operations leave alone. *)
Lemma accelerator_correct_carried (Inv1 : D1 -> Prop) (Q : D -> Prop) (fuel : nat)
    (timeout base : Z) (w : nat) :
  (forall a, a ∈ call_registers base w -> W a) -> (forall d x, Q d -> Q (put d x)) ->
  accelerator_correct Inv1 fuel timeout base w ->
  accelerator_correct (fun d => ok d /\ Inv1 (get d) /\ Q d) fuel timeout base w.
Proof.
  intros HW HQ Hacc s A B N nprime R label (Hok & HI & Hq) HA HB HN Hlen Hodd HAlt HBlt.
  rewrite (carried_montgomery_mul_hw fuel timeout base w A B N nprime R label HW s Hok).
  destruct (Hacc (inner get s) A B N nprime R label HI HA HB HN Hlen Hodd HAlt HBlt)
    as (R' & s1 & Hrun & HI' & Hrest).
  rewrite Hrun. exists R', (outer put s s1). split; [reflexivity|]. split; [|exact Hrest].
  unfold outer. cbn [dev]. rewrite (get_put _ _ _ _ E).
  split; [apply (ok_put _ _ _ _ E); exact Hok|]. split; [exact HI'|apply HQ; exact Hq].
Qed.

Lemma timer_returns_carried (Inv1 : D1 -> Prop) (Q : D -> Prop) (tfuel : nat) :
  (forall a, a ∈ timer_registers -> W a) -> (forall d x, Q d -> Q (put d x)) ->
  timer_returns Inv1 tfuel -> timer_returns (fun d => ok d /\ Inv1 (get d) /\ Q d) tfuel.
Proof.
  intros HW HQ Ht s (Hok & HI & Hq).
  rewrite (carried_Timer_GetCount tfuel HW s Hok).
  destruct (Ht (inner get s) HI) as (v & s1 & Hrun & HI'). rewrite Hrun.
  exists v, (outer put s s1). split; [reflexivity|].
  unfold outer. cbn [dev]. rewrite (get_put _ _ _ _ E).
  split; [apply (ok_put _ _ _ _ E); exact Hok|]. split; [exact HI'|apply HQ; exact Hq].
Qed.

Lemma timer_control_carried (Inv1 : D1 -> Prop) (Q : D -> Prop) :
  (forall a, a ∈ timer_registers -> W a) -> (forall d x, Q d -> Q (put d x)) ->
  timer_control Inv1 -> timer_control (fun d => ok d /\ Inv1 (get d) /\ Q d).
Proof.
  intros HW HQ Ht d v (Hok & HI & Hq).
  assert (Hc : W GTIMER_CTRL)
    by (apply HW; unfold timer_registers; do 2 apply list_elem_of_further; apply list_elem_of_here).
  rewrite (read_in _ _ _ _ E _ _ Hok Hc), (write_in _ _ _ _ E _ _ _ Hok Hc). cbn [snd].
  rewrite !(get_put _ _ _ _ E). destruct (Ht (get d) v HI) as (Hr & Hwr).
  split; (split; [apply (ok_put _ _ _ _ E); exact Hok|]; split; [assumption|apply HQ; exact Hq]).
Qed.

End Carried.

(** Embeddings compose. *)
Lemma embeds_compose {D D1 D2 : Type} `{Device D} `{Device D1} `{Device D2}
    (W : Z -> Prop) (ok1 : D -> Prop) (get1 : D -> D1) (put1 : D -> D1 -> D)
    (ok2 : D1 -> Prop) (get2 : D1 -> D2) (put2 : D1 -> D2 -> D1) :
  embeds W ok1 get1 put1 -> embeds W ok2 get2 put2 ->
  embeds W (fun d => ok1 d /\ ok2 (get1 d)) (fun d => get2 (get1 d))
    (fun d x => put1 d (put2 (get1 d) x)).
Proof.
  intros E1 E2. split.
  - intros d x. rewrite (get_put _ _ _ _ E1), (get_put _ _ _ _ E2). reflexivity.
  - intros d. rewrite (put_get _ _ _ _ E2), (put_get _ _ _ _ E1). reflexivity.
  - intros d x y. rewrite (get_put _ _ _ _ E1), (put_put _ _ _ _ E2), (put_put _ _ _ _ E1).
    reflexivity.
  - intros d x (Hok1 & Hok2). split; [apply (ok_put _ _ _ _ E1); exact Hok1|].
    rewrite (get_put _ _ _ _ E1). apply (ok_put _ _ _ _ E2). exact Hok2.
  - intros d a (Hok1 & Hok2) Ha.
    rewrite (read_in _ _ _ _ E1 _ _ Hok1 Ha), (read_in _ _ _ _ E2 _ _ Hok2 Ha). reflexivity.
  - intros d a v (Hok1 & Hok2) Ha.
    rewrite (write_in _ _ _ _ E1 _ _ _ Hok1 Ha), (write_in _ _ _ _ E2 _ _ _ Hok2 Ha). reflexivity.
Qed.

(** The two sides of a bus. *)
Lemma embeds_bus_l {D1 D2 : Type} `{Device D1} `{Device D2} (W : Z -> Prop) :
  embeds (D := bus D1 D2) W (sel_l W) bus_l put_l.
Proof.
  split.
  - reflexivity.
  - intros [sel l r]. reflexivity.
  - reflexivity.
  - intros d x Hok. exact Hok.
  - intros d a Hok Ha. cbn [reg_read bus_device]. unfold bus_read. rewrite (Hok a Ha). reflexivity.
  - intros d a v Hok Ha. cbn [reg_write bus_device]. unfold bus_write. rewrite (Hok a Ha).
    reflexivity.
Qed.

Lemma embeds_bus_r {D1 D2 : Type} `{Device D1} `{Device D2} (W : Z -> Prop) :
  embeds (D := bus D1 D2) W (sel_r W) bus_r put_r.
Proof.
  split.
  - reflexivity.
  - intros [sel l r]. reflexivity.
  - reflexivity.
  - intros d x Hok. exact Hok.
  - intros d a Hok Ha. cbn [reg_read bus_device]. unfold bus_read. rewrite (Hok a Ha). reflexivity.
  - intros d a v Hok Ha. cbn [reg_write bus_device]. unfold bus_write. rewrite (Hok a Ha).
    reflexivity.
Qed.

Lemma accelerator_correct_iff {D : Type} `{Device D} (Inv Inv' : D -> Prop) (fuel : nat)
    (timeout base : Z) (w : nat) :
  (forall d, Inv' d <-> Inv d) ->
  accelerator_correct Inv fuel timeout base w -> accelerator_correct Inv' fuel timeout base w.
Proof.
  intros Hiff Hacc s A B N nprime R label HI HA HB HN Hlen Hodd HAlt HBlt.
  destruct (Hacc s A B N nprime R label (proj1 (Hiff _) HI) HA HB HN Hlen Hodd HAlt HBlt)
    as (R' & s' & Hrun & HI' & Hrest).
  exists R', s'. split; [exact Hrun|]. split; [apply Hiff; exact HI'|exact Hrest].
Qed.

(** ** The simulated board *)

Lemma call_registers_in_window (base : Z) (w : nat) (a : Z) :
  (w <= 128)%nat -> a ∈ call_registers base w -> in_window base a = true.
Proof.
  intros Hw Ha. rewrite call_registers_offsets in Ha.
  change (a ∈ (fun off => u32 (base + off)) <$> call_offsets w) in Ha.
  apply list_elem_of_fmap in Ha as (off & -> & Hoff).
  apply (call_offsets_range w _ Hw) in Hoff. unfold in_window.
  rewrite window_offset by lia. apply Z.ltb_lt. lia.
Qed.

Lemma forallb_elem (f : Z -> bool) (l : list Z) (a : Z) :
  forallb f l = true -> a ∈ l -> f a = true.
Proof. intros Hall Ha. apply (proj1 (forallb_forall f l) Hall). apply list_elem_of_In. exact Ha. Qed.

Lemma gt_inv_tick (d : gtimer) : gt_inv d -> gt_inv (gt_tick d).
Proof.
  intros (Hc & Hs & Hs5). unfold gt_inv, gt_tick. cbn [gt_count gt_step].
  split; [apply Z.mod_pos_bound; lia|]. split; assumption.
Qed.

Lemma gt_timer_returns : timer_returns gt_inv 2.
Proof.
  intros [d tr] HI. destruct (gt_GetCount_run d tr HI) as (k & s' & _ & Hrun & _ & HI').
  eexists _, s'. split; [exact Hrun|exact HI'].
Qed.

Lemma gt_timer_control : timer_control gt_inv.
Proof.
  intros d v HI. change (@reg_read gtimer gtimer_device) with gt_read.
  change (@reg_write gtimer gtimer_device) with gt_write.
  unfold gt_read, gt_write. rewrite Z.eqb_refl.
  change (GTIMER_CTRL =? u32 (GTIMER_BASE + 0)) with false.
  change (GTIMER_CTRL =? u32 (GTIMER_BASE + 4)) with false. cbn [snd].
  split; [apply gt_inv_tick; exact HI|].
  pose proof (gt_inv_tick d HI) as (Hc & Hs & Hs5). unfold gt_inv. cbn [gt_count gt_step].
  cbn [gt_step gt_tick] in Hs, Hs5. auto.
Qed.

Section Board.
Variables (base2048 base1024 timeout : Z).
Hypothesis Hlayout : board_layout base2048 base1024 = true.

Lemma layout_1024 (a : Z) :
  among (call_registers base1024 32) a -> in_window base2048 a = false.
Proof.
  intros Ha. apply andb_prop in Hlayout as (H1 & _).
  apply negb_true_iff. apply (forallb_elem _ _ a H1). apply elem_of_app. left. exact Ha.
Qed.

Lemma layout_timer (a : Z) :
  among timer_registers a -> in_window base2048 a = false /\ in_window base1024 a = false.
Proof.
  intros Ha. apply andb_prop in Hlayout as (H1 & H2). split; apply negb_true_iff.
  - apply (forallb_elem _ _ a H1). apply elem_of_app. right. exact Ha.
  - apply (forallb_elem _ _ a H2). exact Ha.
Qed.

Lemma board_accelerator_2048 (fuel : nat) :
  0 <= timeout < 2 ^ 32 - 1 -> (Z.to_nat timeout < fuel)%nat ->
  accelerator_correct (board_inv base2048 base1024 timeout) fuel timeout base2048 64.
Proof.
  intros Ht Hfuel.
  pose proof (accelerator_correct_carried (among (call_registers base2048 64))
                (sel_l (among (call_registers base2048 64))) bus_l put_l
                (embeds_bus_l (D1 := sim) (D2 := bus sim gtimer)
                   (among (call_registers base2048 64)))
                (sim_inv base2048 64 timeout)
                (fun b => bus_sel b = in_window base2048 /\
                          bus_sel (bus_r b) = in_window base1024 /\
                          sim_inv base1024 32 timeout (bus_l (bus_r b)) /\
                          gt_inv (bus_r (bus_r b)))
                fuel timeout base2048 64 ltac:(auto) ltac:(auto)
                (sim_accelerator_correct base2048 64 timeout fuel ltac:(lia) Ht Hfuel)) as Hacc.
  revert Hacc. apply accelerator_correct_iff. intros d. unfold board_inv. split.
  - intros (Hs1 & Hs2 & HI1 & HI2 & HIt). split; [|auto].
    intros a Ha. rewrite Hs1. apply (call_registers_in_window base2048 64); [lia|exact Ha].
  - intros (_ & HI1 & Hs1 & Hs2 & HI2 & HIt). auto.
Qed.

Lemma board_accelerator_1024 (fuel : nat) :
  0 <= timeout < 2 ^ 32 - 1 -> (Z.to_nat timeout < fuel)%nat ->
  accelerator_correct (board_inv base2048 base1024 timeout) fuel timeout base1024 32.
Proof.
  intros Ht Hfuel.
  pose proof (accelerator_correct_carried (among (call_registers base1024 32)) _ _ _
                (embeds_compose (among (call_registers base1024 32)) _ _ _ _ _ _
                   (embeds_bus_r (D1 := sim) (D2 := bus sim gtimer)
                      (among (call_registers base1024 32)))
                   (embeds_bus_l (D1 := sim) (D2 := gtimer)
                      (among (call_registers base1024 32))))
                (sim_inv base1024 32 timeout)
                (fun b => bus_sel b = in_window base2048 /\
                          bus_sel (bus_r b) = in_window base1024 /\
                          sim_inv base2048 64 timeout (bus_l b) /\
                          gt_inv (bus_r (bus_r b)))
                fuel timeout base1024 32 ltac:(auto) ltac:(auto)
                (sim_accelerator_correct base1024 32 timeout fuel ltac:(lia) Ht Hfuel)) as Hacc.
  revert Hacc. apply accelerator_correct_iff. intros d. unfold board_inv. split.
  - intros (Hs1 & Hs2 & HI1 & HI2 & HIt). split; [split|auto].
    + intros a Ha. rewrite Hs1. apply layout_1024. exact Ha.
    + intros a Ha. rewrite Hs2. apply (call_registers_in_window base1024 32); [lia|exact Ha].
  - intros (_ & HI2 & Hs1 & Hs2 & HI1 & HIt). auto.
Qed.

Lemma board_timer_embeds :
  embeds (D := board) (among timer_registers)
    (fun b => sel_r (among timer_registers) b /\ sel_r (among timer_registers) (bus_r b))
    (fun b => bus_r (bus_r b)) (fun b x => put_r b (put_r (bus_r b) x)).
Proof.
  exact (embeds_compose (among timer_registers) _ _ _ _ _ _
           (embeds_bus_r (D1 := sim) (D2 := bus sim gtimer) (among timer_registers))
           (embeds_bus_r (D1 := sim) (D2 := gtimer) (among timer_registers))).
Qed.

Lemma board_inv_timer (d : board) :
  board_inv base2048 base1024 timeout d <->
  (sel_r (among timer_registers) d /\ sel_r (among timer_registers) (bus_r d)) /\
  gt_inv (bus_r (bus_r d)) /\
  (bus_sel d = in_window base2048 /\ bus_sel (bus_r d) = in_window base1024 /\
   sim_inv base2048 64 timeout (bus_l d) /\ sim_inv base1024 32 timeout (bus_l (bus_r d))).
Proof.
  unfold board_inv. split.
  - intros (Hs1 & Hs2 & HI1 & HI2 & HIt). split; [split|auto].
    + intros a Ha. rewrite Hs1. apply layout_timer. exact Ha.
    + intros a Ha. rewrite Hs2. apply layout_timer. exact Ha.
  - intros (_ & HIt & Hs1 & Hs2 & HI1 & HI2). auto.
Qed.

Lemma board_timer_returns : timer_returns (board_inv base2048 base1024 timeout) 2.
Proof.
  pose proof (timer_returns_carried (among timer_registers) _ _ _ board_timer_embeds gt_inv
                (fun b => bus_sel b = in_window base2048 /\
                          bus_sel (bus_r b) = in_window base1024 /\
                          sim_inv base2048 64 timeout (bus_l b) /\
                          sim_inv base1024 32 timeout (bus_l (bus_r b)))
                2 ltac:(auto) ltac:(auto) gt_timer_returns) as Ht.
  intros s HI. apply board_inv_timer in HI. destruct (Ht s HI) as (v & s' & Hrun & HI').
  exists v, s'. split; [exact Hrun|]. apply board_inv_timer. exact HI'.
Qed.

Lemma board_timer_control : timer_control (board_inv base2048 base1024 timeout).
Proof.
  pose proof (timer_control_carried (among timer_registers) _ _ _ board_timer_embeds gt_inv
                (fun b => bus_sel b = in_window base2048 /\
                          bus_sel (bus_r b) = in_window base1024 /\
                          sim_inv base2048 64 timeout (bus_l b) /\
                          sim_inv base1024 32 timeout (bus_l (bus_r b)))
                ltac:(auto) ltac:(auto) gt_timer_control) as Ht.
  intros d v HI. apply board_inv_timer in HI. destruct (Ht d v HI) as (Hr & Hwr).
  split; apply board_inv_timer; assumption.
Qed.

Lemma board_init_inv (latency : nat) (step : Z) :
  Z.of_nat latency <= timeout -> 0 <= step -> 5 * step < 2 ^ 32 ->
  board_inv base2048 base1024 timeout (board_init base2048 base1024 latency step).
Proof.
  intros Hl Hs Hs5. unfold board_inv, board_init. cbn [bus_sel bus_l bus_r].
  split; [reflexivity|]. split; [reflexivity|].
  split; [exact (sim_world_inv base2048 64 latency timeout Hl)|].
  split; [exact (sim_world_inv base1024 32 latency timeout Hl)|].
  unfold gt_inv. cbn [gt_count gt_step]. lia.
Qed.

End Board.

(** ** The benchmark and the whole program *)

Lemma complete_console_length (label : string) (key_bits : Z) (perf : list line) :
  length (complete_console label key_bits perf) = (11 + length perf)%nat.
Proof. unfold complete_console. rewrite !length_app. cbn [length banner correctness_lines]. lia. Qed.

Section Whole.
Context {D : Type} `{Device D}.

(** X15: one benchmark of the toy key behind a correct accelerator and a
    timer that answers.  For a size from 4 to [MAX_WORDS] words and [R2]
    holding [R^2 mod 3233], [benchmark_rsa_size] returns, no call has
    timed out, and the console has received the banner, the plaintext
    42, the ciphertext 2557 and the decrypted message 42 of both paths,
    the seven performance lines, and the verdict OK for the hardware and
    for the software path. *)
Theorem benchmark_rsa_size_complete (Inv : D -> Prop) (tfuel fuel : nat) (timeout : Z)
    (fuel_sw : nat) (fr : frame) (label : string) (key_bits : Z) (w : nat) (base_addr : Z)
    (R2 : list Z) (nprime : Z) (b : system D) :
  accelerator_correct Inv fuel timeout base_addr w -> timer_returns Inv tfuel ->
  0 <= timeout < 2 ^ 32 - 1 -> (Z.to_nat timeout < fuel)%nat ->
  (4 <= w <= MAX_WORDS)%nat -> frame_words fr ->
  bignum w R2 -> value w R2 = (2 ^ (32 * Z.of_nat w) * 2 ^ (32 * Z.of_nat w)) mod 3233 ->
  3233 < Z.of_nat fuel_sw -> Inv (dev (io b)) ->
  exists b' perf seg,
    benchmark_rsa_size tfuel fuel timeout fuel_sw fr label key_bits w base_addr RSA_N R2 nprime
      RSA_E RSA_E_BITS RSA_D RSA_D_BITS b = Some (tt, b') /\
    console b' = console b ++ complete_console label key_bits perf /\
    map line_fmt perf = performance_fmts /\
    trace (io b') = trace (io b) ++ seg /\ quiet seg /\
    Inv (dev (io b')).
Proof.
  intros Hacc Htimer Ht Hfuel Hw Hfr HR2 HR2v Hsw HI.
  destruct (benchmark_run_complete Inv tfuel fuel timeout fuel_sw fr label key_bits w base_addr
              R2 nprime b Hacc Htimer Hw Hfr HR2 HR2v Hsw HI)
    as (b' & perf & Hrun & Hcon & Hfmt & HI').
  destruct (benchmark_run_outcome fuel timeout base_addr Ht Hfuel tfuel fuel_sw fr label key_bits
              w RSA_N R2 nprime RSA_E RSA_E_BITS RSA_D RSA_D_BITS b b' Hrun)
    as (seg & Htr & [(Hq & _)|(seg0 & decrypt & _ & _ & Habort)]).
  - exists b', perf, seg. split; [exact Hrun|]. split; [exact Hcon|]. split; [exact Hfmt|].
    split; [exact Htr|]. split; [exact Hq|exact HI'].
  - exfalso. rewrite Hcon in Habort. apply app_inv_head in Habort.
    apply (f_equal length) in Habort.
    rewrite complete_console_length, length_app in Habort. cbn [length banner] in Habort.
    apply (f_equal (@length string)) in Hfmt. rewrite length_map in Hfmt.
    cbn [length performance_fmts] in Hfmt. lia.
Qed.


Lemma Timer_Init_run (Inv : D -> Prop) (b : system D) :
  timer_control Inv -> Inv (dev (io b)) ->
  exists b', Timer_Init b = Some (tt, b') /\ Inv (dev (io b')) /\
    console b' = console b
                 ++ [Line "[INFO] Global timer enabled, freq ~%u Hz\r\n" [ArgU 650000000]].
Proof.
  intros Hctl HI. unfold Timer_Init.
  rewrite pbind_run, lift_run, Xil_In32_run. cbv zeta.
  rewrite pbind_run, lift_run, Xil_Out32_run. cbn [io console dev trace].
  rewrite xil_printf_run. cbn [io console].
  eexists. split; [reflexivity|]. cbn [io console dev]. split; [|reflexivity].
  destruct (Hctl (dev (io b)) 0 HI) as (Hr & _).
  apply (Hctl _ _ Hr).
Qed.

(** X17: the whole program on a board with two correct accelerators and a
    timer that answers.  [main] reaches its idle loop, and by then the
    console holds the title, the timer line, the complete report of the
    2048-bit benchmark and then of the 1024-bit benchmark, each with
    plaintext 42, ciphertext 2557 and the verdict OK for the hardware
    and the software path, and the closing line. *)
Theorem main_complete (Inv : D -> Prop) (MONT2048_BASE MONT1024_BASE : Z) (tfuel fuel : nat)
    (timeout : Z) (fuel_sw : nat) (fr2048 fr1024 : frame) (b : system D) :
  accelerator_correct Inv fuel timeout MONT2048_BASE NWORDS_2048 ->
  accelerator_correct Inv fuel timeout MONT1024_BASE NWORDS_1024 ->
  timer_returns Inv tfuel -> timer_control Inv ->
  frame_words fr2048 -> frame_words fr1024 -> 3233 < Z.of_nat fuel_sw ->
  Inv (dev (io b)) ->
  exists b' perf2048 perf1024,
    main MONT2048_BASE MONT1024_BASE tfuel fuel timeout fuel_sw fr2048 fr1024 b = Some (tt, b') /\
    console b'
    = console b
      ++ [Line "RSA HW/SW benchmarks with Montgomery accelerators\r\n" [];
          Line "[INFO] Global timer enabled, freq ~%u Hz\r\n" [ArgU 650000000]]
      ++ complete_console "RSA-2048 (HW: montgomery_axi_0)" 2048 perf2048
      ++ complete_console "RSA-1024 (HW: montgomery_axi_1024)" 1024 perf1024
      ++ [Line "\r\nAll benchmarks finished.\r\n" []] /\
    map line_fmt perf2048 = performance_fmts /\ map line_fmt perf1024 = performance_fmts.
Proof.
  intros Hacc2 Hacc1 Htimer Hctl Hfr2 Hfr1 Hsw HI. unfold main.
  rewrite pbind_run, xil_printf_run. rewrite pbind_run.
  destruct (Timer_Init_run Inv
              (System (io b) (console b
                 ++ [Line "RSA HW/SW benchmarks with Montgomery accelerators\r\n" []])) Hctl HI)
    as (b0 & Hrun0 & HI0 & Hcon0).
  rewrite Hrun0. cbn [console] in Hcon0.
  destruct (init_mont_params_for_size_spec NWORDS_1024 (replicate MAX_WORDS 0)
              ltac:(unfold NWORDS_1024, MAX_WORDS, NWORDS_2048; lia)
              ltac:(rewrite length_replicate; unfold NWORDS_1024, MAX_WORDS, NWORDS_2048; lia))
    as (R2s & nps & Hinit1 & Hl1 & Hr1 & Hv1 & _).
  destruct (init_mont_params_for_size_spec NWORDS_2048 (replicate MAX_WORDS 0)
              ltac:(unfold MAX_WORDS, NWORDS_2048; lia)
              ltac:(rewrite length_replicate; unfold MAX_WORDS, NWORDS_2048; lia))
    as (R2l & npl & Hinit2 & Hl2 & Hr2 & Hv2 & _).
  rewrite length_replicate in Hl1, Hl2.
  rewrite pbind_run. unfold lift_option at 1. rewrite Hinit1.
  rewrite pbind_run. unfold lift_option at 1. rewrite Hinit2.
  rewrite pbind_run.
  destruct (benchmark_run_complete Inv tfuel fuel timeout fuel_sw fr2048
              "RSA-2048 (HW: montgomery_axi_0)" 2048 NWORDS_2048 MONT2048_BASE R2l npl b0
              Hacc2 Htimer ltac:(unfold MAX_WORDS, NWORDS_2048; lia) Hfr2
              ltac:(apply inrange_bignum; [rewrite Hl2; unfold MAX_WORDS; lia|exact Hr2])
              Hv2 Hsw HI0)
    as (b1 & perf2048 & Hrun1 & Hcon1 & Hfmt1 & HI1).
  rewrite Hrun1. rewrite pbind_run.
  destruct (benchmark_run_complete Inv tfuel fuel timeout fuel_sw fr1024
              "RSA-1024 (HW: montgomery_axi_1024)" 1024 NWORDS_1024 MONT1024_BASE R2s nps b1
              Hacc1 Htimer ltac:(unfold NWORDS_1024, MAX_WORDS, NWORDS_2048; lia) Hfr1
              ltac:(apply inrange_bignum;
                    [rewrite Hl1; unfold NWORDS_1024, MAX_WORDS, NWORDS_2048; lia|exact Hr1])
              Hv1 Hsw HI1)
    as (b2 & perf1024 & Hrun2 & Hcon2 & Hfmt2 & HI2).
  rewrite Hrun2. rewrite xil_printf_run.
  exists (System (io b2) (console b2 ++ [Line "\r\nAll benchmarks finished.\r\n" []])),
    perf2048, perf1024.
  split; [reflexivity|]. split; [|split; assumption].
  cbn [console]. rewrite Hcon2, Hcon1, Hcon0, <- !app_assoc. reflexivity.
Qed.

End Whole.

(** The windows of the witnesses' board do not meet. *)
Lemma board_layout_ok : board_layout 0x43C00000 0x43C10000 = true.
Proof. vm_compute. reflexivity. Qed.

Lemma benchmark_rsa_size_complete_witness :
  let fr := Frame (replicate 64 7) (replicate 64 7) (replicate 64 7) (replicate 64 7)
              (replicate 64 7) in
  let b := System (World (board_init 0x43C00000 0x43C10000 1 100) []) [] in
  exists b' perf seg,
    benchmark_rsa_size 2 3 1 3234 fr lbl 1024 32 0x43C10000 RSA_N
      (pad 64 ((2 ^ 1024 * 2 ^ 1024) mod 3233)) 0 RSA_E RSA_E_BITS RSA_D RSA_D_BITS b
    = Some (tt, b') /\
    console b' = console b ++ complete_console lbl 1024 perf /\
    map line_fmt perf = performance_fmts /\
    trace (io b') = trace (io b) ++ seg /\ quiet seg /\
    board_inv 0x43C00000 0x43C10000 1 (dev (io b')).
Proof.
  cbv zeta.
  apply (benchmark_rsa_size_complete (board_inv 0x43C00000 0x43C10000 1)).
  - exact (board_accelerator_1024 0x43C00000 0x43C10000 1 board_layout_ok 3 ltac:(lia) ltac:(lia)).
  - exact (board_timer_returns 0x43C00000 0x43C10000 1 board_layout_ok).
  - lia.
  - lia.
  - unfold MAX_WORDS, NWORDS_2048. lia.
  - repeat split; vm_compute; reflexivity.
  - apply bignumb_true. vm_compute. reflexivity.
  - vm_compute. reflexivity.
  - lia.
  - apply board_init_inv; lia.
Defined.


Lemma main_complete_witness :
  let fr := Frame (replicate 64 7) (replicate 64 7) (replicate 64 7) (replicate 64 7)
              (replicate 64 7) in
  let b := System (World (board_init 0x43C00000 0x43C10000 1 100) []) [] in
  exists b' perf2048 perf1024,
    main 0x43C00000 0x43C10000 2 3 1 3234 fr fr b = Some (tt, b') /\
    console b'
    = console b
      ++ [Line "RSA HW/SW benchmarks with Montgomery accelerators\r\n" [];
          Line "[INFO] Global timer enabled, freq ~%u Hz\r\n" [ArgU 650000000]]
      ++ complete_console "RSA-2048 (HW: montgomery_axi_0)" 2048 perf2048
      ++ complete_console "RSA-1024 (HW: montgomery_axi_1024)" 1024 perf1024
      ++ [Line "\r\nAll benchmarks finished.\r\n" []] /\
    map line_fmt perf2048 = performance_fmts /\ map line_fmt perf1024 = performance_fmts.
Proof.
  cbv zeta.
  apply (main_complete (board_inv 0x43C00000 0x43C10000 1)).
  - exact (board_accelerator_2048 0x43C00000 0x43C10000 1 3 ltac:(lia) ltac:(lia)).
  - exact (board_accelerator_1024 0x43C00000 0x43C10000 1 board_layout_ok 3 ltac:(lia) ltac:(lia)).
  - exact (board_timer_returns 0x43C00000 0x43C10000 1 board_layout_ok).
  - exact (board_timer_control 0x43C00000 0x43C10000 1 board_layout_ok).
  - repeat split; vm_compute; reflexivity.
  - repeat split; vm_compute; reflexivity.
  - lia.
  - apply board_init_inv; lia.
Defined.

Section MainOutcome.
Context {D : Type} `{Device D}.




End MainOutcome.

